(** * The in-memory document store of [src/backend/database.py]

    A shallow embedding of [InMemoryCollection], of the two helpers
    [_get_nested_value] and [_matches_query] and of [init_database] with
    the data it seeds, together with the properties of the store that its
    specification states and further ones that the code shows.

    Modelling conventions.
    - Python values are the closed universe [value]: [None], [bool], [int],
      [str], [list] and [dict] with string keys (the annotation
      [dict[str, Any]] of the source).  Floats, tuples and user classes are
      outside the universe.  A [str] is a Rocq [string]: one [ascii] per
      code point, so code points above 255 are outside the universe too.
    - A [dict] is an association list in insertion order; a well-formed one
      ([wf_value]) has no repeated key.
    - An exception is an explicit [Raise] in the [result] type.
    - The store is modelled twice.  On immutable trees, where a stored
      document is a [value]: this is the model of what the operations
      compute, and it takes the stored documents to be trees, no list or
      dict being reached along two paths; of the document that
      [update_one] leaves, the statements say what it reads as along the
      paths of the update and what count is reported.  And on a heap of
      mutable objects ([Module Heap]), where a document is a reference and
      a list or dict may sit under two fields or inside itself: this is the
      model of object identity and aliasing, of [copy.deepcopy] with its
      memo, of [update_one] changing the stored list in place and putting
      into it the very object it is given, and of the generator that
      [find] returns.
    - [init_database] works on the two in-memory collections, the ones the
      module falls back to when no MongoDB server answers.  The server, and
      Argon2 behind [hash_password] and [verify_password], are outside the
      model: a password hash is a string that is left open. *)

From Stdlib Require Import List ZArith Bool Ascii String Lia Arith.
From Stdlib Require Import Sorted Permutation OrderedTypeEx.
Import ListNotations.
Set Warnings "-register-all".
Local Open Scope string_scope.
Local Open Scope list_scope.
Local Open Scope Z_scope.

(** ** Values and exceptions *)

Inductive value : Type :=
| VNone
| VBool (b : bool)
| VInt (z : Z)
| VStr (s : string)
| VList (items : list value)
| VDict (fields : list (string * value)).

(** Induction over a value and the values nested in it. *)
Section ValueInduction.
Variable P : value -> Prop.
Hypothesis HNone : P VNone.
Hypothesis HBool : forall b, P (VBool b).
Hypothesis HInt : forall z, P (VInt z).
Hypothesis HStr : forall s, P (VStr s).
Hypothesis HList : forall xs, Forall P xs -> P (VList xs).
Hypothesis HDict : forall d, Forall (fun kv => P (snd kv)) d -> P (VDict d).

Fixpoint value_nested_ind (v : value) : P v :=
  match v with
  | VNone => HNone
  | VBool b => HBool b
  | VInt z => HInt z
  | VStr s => HStr s
  | VList xs =>
      HList xs
        ((fix items (xs : list value) : Forall P xs :=
            match xs with
            | [] => Forall_nil P
            | x :: rest => Forall_cons x (value_nested_ind x) (items rest)
            end) xs)
  | VDict d =>
      HDict d
        ((fix fields (d : list (string * value))
            : Forall (fun kv => P (snd kv)) d :=
            match d with
            | [] => Forall_nil _
            | (k, x) :: rest =>
                Forall_cons (k, x) (value_nested_ind x) (fields rest)
            end) d)
  end.
End ValueInduction.

Inductive exn : Type :=
  TypeError | KeyError | AttributeError | RecursionError.

Inductive result (A : Type) : Type :=
| Ok (a : A)
| Raise (e : exn).
Arguments Ok {A} a.
Arguments Raise {A} e.

Definition bind {A B : Type} (m : result A) (k : A -> result B) : result B :=
  match m with
  | Ok a => k a
  | Raise e => Raise e
  end.

Notation "x <- m ;; k" := (bind m (fun x => k))
  (at level 61, m at next level, right associativity).

(** ** Strings: [str.split(".")], ordering, containment *)

Definition dot : ascii := "."%char.

(** [s.split(".")]: always at least one segment, empty segments are kept. *)
Fixpoint split_dot (s : string) : list string :=
  match s with
  | EmptyString => [EmptyString]
  | String c rest =>
      if Ascii.eqb c dot then EmptyString :: split_dot rest
      else match split_dot rest with
           | [] => [String c EmptyString]
           | hd :: tl => String c hd :: tl
           end
  end.

(** Iterating a [str] yields its characters as one-character strings. *)
Fixpoint chars (s : string) : list string :=
  match s with
  | EmptyString => []
  | String c rest => String c EmptyString :: chars rest
  end.

(** [needle in hay] for two strings. *)
Fixpoint substring_of (needle hay : string) : bool :=
  String.prefix needle hay ||
  match hay with
  | EmptyString => false
  | String _ rest => substring_of needle rest
  end.

(** ** Dictionaries as insertion-ordered association lists *)

Section Dict.
Context {V : Type}.

Fixpoint dict_get (k : string) (d : list (string * V)) : option V :=
  match d with
  | [] => None
  | (k', v) :: rest => if String.eqb k' k then Some v else dict_get k rest
  end.

Definition dict_has (k : string) (d : list (string * V)) : bool :=
  match dict_get k d with Some _ => true | None => false end.

(** Apply [f] to the value stored under [k], in place. *)
Fixpoint dict_update (k : string) (f : V -> V) (d : list (string * V))
  : list (string * V) :=
  match d with
  | [] => []
  | (k', v) :: rest =>
      if String.eqb k' k then (k', f v) :: rest
      else (k', v) :: dict_update k f rest
  end.
End Dict.

(** ** Python's [==], [<], [>], truthiness, hashability *)

(** [bool] is a subclass of [int]: [True == 1] and [False == 0]. *)
Definition num_of (v : value) : option Z :=
  match v with
  | VBool b => Some (if b then 1 else 0)
  | VInt z => Some z
  | _ => None
  end.

Fixpoint py_eq (a b : value) {struct a} : bool :=
  match a, b with
  | VNone, VNone => true
  | VBool x, VBool y => Bool.eqb x y
  | VBool x, VInt y => (if x then 1 else 0) =? y
  | VInt x, VBool y => x =? (if y then 1 else 0)
  | VInt x, VInt y => x =? y
  | VStr s, VStr t => String.eqb s t
  | VList xs, VList ys =>
      (fix all2 (xs ys : list value) {struct xs} : bool :=
         match xs, ys with
         | [], [] => true
         | x :: xs', y :: ys' => py_eq x y && all2 xs' ys'
         | _, _ => false
         end) xs ys
  | VDict d1, VDict d2 =>
      Nat.eqb (List.length d1) (List.length d2) &&
      (fix sub (d : list (string * value)) {struct d} : bool :=
         match d with
         | [] => true
         | (k, v) :: d' =>
             match dict_get k d2 with
             | Some w => py_eq v w
             | None => false
             end && sub d'
         end) d1
  | _, _ => false
  end.

(** [x in xs] for a list [xs]: some element equals [x]. *)
Definition py_in (x : value) (xs : list value) : bool :=
  existsb (fun el => py_eq el x) xs.

(** [a < b] and [a > b].  Numbers compare with numbers, strings with
    strings, lists with lists (at the first index whose elements differ,
    else by length); every other pairing raises [TypeError]. *)
Fixpoint py_lt (a b : value) {struct a} : result bool :=
  match a, b with
  | (VBool _ | VInt _), (VBool _ | VInt _) =>
      match num_of a, num_of b with
      | Some x, Some y => Ok (x <? y)
      | _, _ => Raise TypeError
      end
  | VStr s, VStr t => Ok (String.ltb s t)
  | VList xs, VList ys =>
      (fix lex (xs ys : list value) {struct xs} : result bool :=
         match xs, ys with
         | [], [] => Ok false
         | [], _ :: _ => Ok true
         | _ :: _, [] => Ok false
         | x :: xs', y :: ys' =>
             if py_eq x y then lex xs' ys' else py_lt x y
         end) xs ys
  | _, _ => Raise TypeError
  end.

Fixpoint py_gt (a b : value) {struct a} : result bool :=
  match a, b with
  | (VBool _ | VInt _), (VBool _ | VInt _) =>
      match num_of a, num_of b with
      | Some x, Some y => Ok (x >? y)
      | _, _ => Raise TypeError
      end
  | VStr s, VStr t => Ok (String.ltb t s)
  | VList xs, VList ys =>
      (fix lex (xs ys : list value) {struct xs} : result bool :=
         match xs, ys with
         | [], [] => Ok false
         | [], _ :: _ => Ok false
         | _ :: _, [] => Ok true
         | x :: xs', y :: ys' =>
             if py_eq x y then lex xs' ys' else py_gt x y
         end) xs ys
  | _, _ => Raise TypeError
  end.

(** [bool(v)]. *)
Definition truthy (v : value) : bool :=
  match v with
  | VNone => false
  | VBool b => b
  | VInt z => negb (z =? 0)
  | VStr s => negb (String.eqb s "")
  | VList xs => match xs with [] => false | _ => true end
  | VDict d => match d with [] => false | _ => true end
  end.

Definition hashable (v : value) : bool :=
  match v with
  | VList _ | VDict _ => false
  | _ => true
  end.

Definition is_list (v : value) : bool :=
  match v with VList _ => true | _ => false end.

Definition is_dict (v : value) : bool :=
  match v with VDict _ => true | _ => false end.

(** [for x in v]: the items a [for] loop over [v] visits. *)
Definition py_iter (v : value) : result (list value) :=
  match v with
  | VList xs => Ok xs
  | VDict d => Ok (map (fun kv => VStr (fst kv)) d)
  | VStr s => Ok (map VStr (chars s))
  | _ => Raise TypeError
  end.

(** [x in container]. *)
Definition py_contains (x container : value) : result bool :=
  match container with
  | VList xs => Ok (py_in x xs)
  | VDict d =>
      if hashable x
      then Ok (match x with VStr k => dict_has k d | _ => false end)
      else Raise TypeError
  | VStr hay =>
      match x with
      | VStr needle => Ok (substring_of needle hay)
      | _ => Raise TypeError
      end
  | _ => Raise TypeError
  end.

(** ** [_get_nested_value] *)

Fixpoint get_path (current : value) (parts : list string) : value :=
  match parts with
  | [] => current
  | part :: rest =>
      match current with
      | VDict d =>
          match dict_get part d with
          | Some v => get_path v rest
          | None => VNone
          end
      | _ => VNone
      end
  end.

Definition _get_nested_value (document : value) (dotted_key : string) : value :=
  get_path document (split_dot dotted_key).

(** ** [_matches_query] *)

(** The [$in] part of an operator mapping. *)
Definition check_in (actual : value) (expected : list (string * value))
  : result bool :=
  match dict_get "$in" expected with
  | Some candidate_values =>
      match actual with
      | VList items =>
          cands <- py_iter candidate_values ;;
          Ok (existsb (fun item => py_in item items) cands)
      | _ => py_contains actual candidate_values
      end
  | None => Ok true
  end.

Definition check_gte (actual : value) (expected : list (string * value))
  : result bool :=
  match dict_get "$gte" expected with
  | Some bound =>
      match actual with
      | VNone => Ok false
      | _ => below <- py_lt actual bound ;; Ok (negb below)
      end
  | None => Ok true
  end.

Definition check_lte (actual : value) (expected : list (string * value))
  : result bool :=
  match dict_get "$lte" expected with
  | Some bound =>
      match actual with
      | VNone => Ok false
      | _ => above <- py_gt actual bound ;; Ok (negb above)
      end
  | None => Ok true
  end.

(** One iteration of the loop body: [Ok false] is the [return False], [Ok
    true] falls through to the next field. *)
Definition field_holds (document : value) (key : string) (expected : value)
  : result bool :=
  let actual := _get_nested_value document key in
  match expected with
  | VDict ops =>
      ok_in <- check_in actual ops ;;
      if negb ok_in then Ok false else
      ok_gte <- check_gte actual ops ;;
      if negb ok_gte then Ok false else
      check_lte actual ops
  | _ => Ok (py_eq actual expected)
  end.

Fixpoint matches_fields (document : value) (query : list (string * value))
  : result bool :=
  match query with
  | [] => Ok true
  | (key, expected) :: rest =>
      holds <- field_holds document key expected ;;
      if holds then matches_fields document rest else Ok false
  end.

Definition _matches_query (document : value) (query : list (string * value))
  : result bool :=
  match query with
  | [] => Ok true
  | _ => matches_fields document query
  end.

(** ** [InMemoryCollection] on immutable trees *)

(** [copy.deepcopy]: scalars are returned as they are, a list or a dict is
    rebuilt from the deep copies of its items.  On trees the copy is the
    tree itself ([deepcopy_id]); what the copy is for, a fresh identity, is
    modelled in [Module Heap]. *)
Fixpoint deepcopy (v : value) : value :=
  match v with
  | VList xs => VList (map deepcopy xs)
  | VDict d =>
      VDict ((fix copy_fields (d : list (string * value)) :=
                match d with
                | [] => []
                | (k, x) :: d' => (k, deepcopy x) :: copy_fields d'
                end) d)
  | _ => v
  end.

(** [self._documents]: identifier to document, in insertion order.  Keys
    are hashable values compared with [==]. *)
Definition collection : Type := list (value * value).

Definition keys (self : collection) : list value := map fst self.
Definition values (self : collection) : list value := map snd self.

Fixpoint store_get {D : Type} (k : value) (self : list (value * D)) : option D :=
  match self with
  | [] => None
  | (k', d) :: rest => if py_eq k' k then Some d else store_get k rest
  end.

(** [self._documents[k] = doc]: an existing key keeps its slot (and the key
    object it was first inserted with), a new key goes to the end. *)
Fixpoint store_set {D : Type} (k : value) (doc : D) (self : list (value * D))
  : list (value * D) :=
  match self with
  | [] => [(k, doc)]
  | (k', d) :: rest =>
      if py_eq k' k then (k', doc) :: rest
      else (k', d) :: store_set k doc rest
  end.

(** A finished run of a generator: the values it yields, ended by
    [StopIteration] or by an exception. *)
Inductive gen (A : Type) : Type :=
| GStop
| GRaise (e : exn)
| GYield (a : A) (next : gen A).
Arguments GStop {A}.
Arguments GRaise {A} e.
Arguments GYield {A} a next.

Fixpoint yielded {A : Type} (g : gen A) : list A :=
  match g with
  | GYield a next => a :: yielded next
  | _ => []
  end.

Fixpoint raised {A : Type} (g : gen A) : option exn :=
  match g with
  | GStop => None
  | GRaise e => Some e
  | GYield _ next => raised next
  end.

Fixpoint count_matching (documents : list value) (query : list (string * value))
  : result Z :=
  match documents with
  | [] => Ok 0
  | document :: rest =>
      hit <- _matches_query document query ;;
      n <- count_matching rest query ;;
      Ok ((if hit then 1 else 0) + n)
  end.

Definition count_documents (self : collection) (query : list (string * value))
  : result Z :=
  count_matching (values self) query.

Definition insert_one (self : collection) (document : value) : result collection :=
  let copy := deepcopy document in
  match document with
  | VDict fields =>
      match dict_get "_id" fields with
      | Some identifier =>
          if hashable identifier then Ok (store_set identifier copy self)
          else Raise TypeError
      | None => Raise KeyError
      end
  | _ => Raise TypeError
  end.

Fixpoint find_in (documents : list value) (query : list (string * value))
  : gen value :=
  match documents with
  | [] => GStop
  | document :: rest =>
      match _matches_query document query with
      | Raise e => GRaise e
      | Ok true => GYield (deepcopy document) (find_in rest query)
      | Ok false => find_in rest query
      end
  end.

Definition find (self : collection) (query : list (string * value)) : gen value :=
  find_in (values self) query.

Fixpoint find_one_in (documents : list value) (query : list (string * value))
  : result (option value) :=
  match documents with
  | [] => Ok None
  | document :: rest =>
      hit <- _matches_query document query ;;
      if hit then Ok (Some (deepcopy document)) else find_one_in rest query
  end.

Definition find_one (self : collection) (query : list (string * value))
  : result (option value) :=
  find_one_in (values self) query.

(** *** [aggregate] *)

(** [days.add(day)] on a set kept in order of first insertion. *)
Definition set_add (days : list value) (day : value) : result (list value) :=
  if hashable day
  then Ok (if py_in day days then days else days ++ [day])
  else Raise TypeError.

Fixpoint add_all (days : list value) (items : list value) : result (list value) :=
  match items with
  | [] => Ok days
  | day :: rest => days' <- set_add days day ;; add_all days' rest
  end.

Definition days_path : string := "schedule_details.days".

(** [_get_nested_value(document, "schedule_details.days") or []]. *)
Definition days_or_empty (document : value) : value :=
  let v := _get_nested_value document days_path in
  if truthy v then v else VList [].

Fixpoint collect_days (days : list value) (documents : list value)
  : result (list value) :=
  match documents with
  | [] => Ok days
  | document :: rest =>
      items <- py_iter (days_or_empty document) ;;
      days' <- add_all days items ;;
      collect_days days' rest
  end.

(** [sorted]: the set holds no two equal items, so the ascending order is
    unique; it is computed here by insertion, which compares with [<] and
    raises as soon as two items cannot be compared. *)
Fixpoint insert_sorted (x : value) (sorted : list value) : result (list value) :=
  match sorted with
  | [] => Ok [x]
  | y :: rest =>
      smaller <- py_lt x y ;;
      if smaller then Ok (x :: y :: rest)
      else (rest' <- insert_sorted x rest ;; Ok (y :: rest'))
  end.

Fixpoint sorted (xs : list value) : result (list value) :=
  match xs with
  | [] => Ok []
  | x :: rest => rest' <- sorted rest ;; insert_sorted x rest'
  end.

Fixpoint gen_of_list {A : Type} (xs : list A) : gen A :=
  match xs with
  | [] => GStop
  | x :: rest => GYield x (gen_of_list rest)
  end.

Definition aggregate (self : collection) (pipeline : list value) : gen value :=
  match (days <- collect_days [] (values self) ;; sorted days) with
  | Raise e => GRaise e
  | Ok days => gen_of_list (map (fun day => VDict [("_id", day)]) days)
  end.

(** *** [update_one] *)

(** The in-place change of the list found at a dotted path, in a document
    that is a tree: the list is rewritten where the path leads, and nothing
    else leads to it.  With one list under two fields the code changes
    what both fields show; [Heap.update_one] below has that. *)
Fixpoint update_path (f : list value -> list value) (parts : list string)
  (current : value) {struct parts} : value :=
  match parts with
  | [] => match current with VList xs => VList (f xs) | _ => current end
  | part :: rest =>
      match current with
      | VDict d => VDict (dict_update part (update_path f rest) d)
      | _ => current
      end
  end.

(** [values.remove(value)]: the first item equal to [value] goes. *)
Fixpoint remove_first (v : value) (xs : list value) : list value :=
  match xs with
  | [] => []
  | x :: rest => if py_eq x v then rest else x :: remove_first v rest
  end.

(** One pair of [update["$push"].items()]; the state is the document and
    the [modified] flag. *)
Definition push_step (st : value * Z) (pair : string * value) : value * Z :=
  let '(document, modified) := st in
  let '(field, v) := pair in
  match _get_nested_value document field with
  | VList _ =>
      (update_path (fun xs => xs ++ [v]) (split_dot field) document, 1)
  | _ => (document, modified)
  end.

(** One pair of [update["$pull"].items()]. *)
Definition pull_step (st : value * Z) (pair : string * value) : value * Z :=
  let '(document, modified) := st in
  let '(field, v) := pair in
  match _get_nested_value document field with
  | VList xs =>
      if py_in v xs
      then (update_path (remove_first v) (split_dot field) document, 1)
      else (document, modified)
  | _ => (document, modified)
  end.

(** [if "$push" in update: for field, value in update["$push"].items()]:
    [.items()] on anything but a dict raises [AttributeError]. *)
Definition run_push (st : value * Z) (update : list (string * value))
  : result (value * Z) :=
  match dict_get "$push" update with
  | Some (VDict pairs) => Ok (fold_left push_step pairs st)
  | Some _ => Raise AttributeError
  | None => Ok st
  end.

Definition run_pull (st : value * Z) (update : list (string * value))
  : result (value * Z) :=
  match dict_get "$pull" update with
  | Some (VDict pairs) => Ok (fold_left pull_step pairs st)
  | Some _ => Raise AttributeError
  | None => Ok st
  end.

(** The body run on the first matching document.  The document is changed
    in place, so what the pushes did stays when the pulls raise. *)
Definition apply_update (document : value) (update : list (string * value))
  : value * result Z :=
  match run_push (document, 0) update with
  | Raise e => (document, Raise e)
  | Ok st1 =>
      match run_pull st1 update with
      | Raise e => (fst st1, Raise e)
      | Ok st2 => (fst st2, Ok (snd st2))
      end
  end.

Fixpoint update_first (items : collection) (query update : list (string * value))
  : collection * result Z :=
  match items with
  | [] => ([], Ok 0)
  | (identifier, document) :: rest =>
      match _matches_query document query with
      | Raise e => (items, Raise e)
      | Ok false =>
          let '(rest', r) := update_first rest query update in
          ((identifier, document) :: rest', r)
      | Ok true =>
          let '(document', r) := apply_update document update in
          ((identifier, document') :: rest, r)
      end
  end.

(** The document is changed in place, in the slot it has; the assignment
    [self._documents[identifier] = document] that follows when [modified]
    is set puts the same object into the same slot. *)
Definition update_one (self : collection) (query update : list (string * value))
  : collection * result Z :=
  update_first self query update.

(** ** [init_database] and the data it seeds *)

(** [d[k] = v] on a dict: a key that is present keeps its place, a new one
    goes to the end. *)
Fixpoint dict_assign (k : string) (v : value) (d : list (string * value))
  : list (string * value) :=
  match d with
  | [] => [(k, v)]
  | (k', v') :: rest =>
      if String.eqb k' k then (k', v) :: rest
      else (k', v') :: dict_assign k v rest
  end.

(** The display [{"_id": identifier, **details}]: the entries of [details]
    are assigned, in their order, to the dict that holds ["_id"]; unpacking
    anything but a mapping raises [TypeError]. *)
Definition with_id (identifier details : value) : result value :=
  match details with
  | VDict fields =>
      Ok (VDict (fold_left (fun d kv => dict_assign (fst kv) (snd kv) d)
                           fields [("_id", identifier)]))
  | _ => Raise TypeError
  end.

(** [v[k]] for a string [k]. *)
Definition subscript (v : value) (k : string) : result value :=
  match v with
  | VDict fields =>
      match dict_get k fields with
      | Some x => Ok x
      | None => Raise KeyError
      end
  | _ => Raise TypeError
  end.

(** [for name, details in initial_activities.items(): insert_one(...)]: the
    loop stops at the first exception, what it inserted before stays. *)
Fixpoint seed_activities (self : collection) (items : list (string * value))
  : collection * result unit :=
  match items with
  | [] => (self, Ok tt)
  | (name, details) :: rest =>
      match (document <- with_id (VStr name) details ;;
             insert_one self document) with
      | Ok self' => seed_activities self' rest
      | Raise e => (self, Raise e)
      end
  end.

(** [for teacher in initial_teachers: insert_one(...)]. *)
Fixpoint seed_teachers (self : collection) (teachers : list value)
  : collection * result unit :=
  match teachers with
  | [] => (self, Ok tt)
  | teacher :: rest =>
      match (username <- subscript teacher "username" ;;
             document <- with_id username teacher ;;
             insert_one self document) with
      | Ok self' => seed_teachers self' rest
      | Raise e => (self, Raise e)
      end
  end.

(** The module globals [init_database] reads when it is called, and the
    two collections it works on (the in-memory ones, which the module
    falls back to when no MongoDB server answers). *)
Section InitDatabase.
Variable initial_activities : list (string * value).
Variable initial_teachers : list value.

Definition init_database (activities_collection teachers_collection : collection)
  : (collection * collection) * result unit :=
  match count_documents activities_collection [] with
  | Raise e => ((activities_collection, teachers_collection), Raise e)
  | Ok n =>
      let '(activities, seeded) :=
        if n =? 0 then seed_activities activities_collection initial_activities
        else (activities_collection, Ok tt) in
      match seeded with
      | Raise e => ((activities, teachers_collection), Raise e)
      | Ok _ =>
          match count_documents teachers_collection [] with
          | Raise e => ((activities, teachers_collection), Raise e)
          | Ok m =>
              let '(teachers, seeded') :=
                if m =? 0 then seed_teachers teachers_collection initial_teachers
                else (teachers_collection, Ok tt) in
              ((activities, teachers), seeded')
          end
      end
  end.
End InitDatabase.

(** One entry of [initial_activities]; the keys are in the order of the
    source. *)
Definition activity (name description schedule : string) (days : list string)
  (start_time end_time : string) (max_participants : Z)
  (participants : list string) : string * value :=
  (name,
   VDict [("description", VStr description);
          ("schedule", VStr schedule);
          ("schedule_details",
           VDict [("days", VList (map VStr days));
                  ("start_time", VStr start_time);
                  ("end_time", VStr end_time)]);
          ("max_participants", VInt max_participants);
          ("participants", VList (map VStr participants))]).

Definition initial_activities : list (string * value) :=
  [activity "Chess Club"
     "Learn strategies and compete in chess tournaments"
     "Mondays and Fridays, 3:15 PM - 4:45 PM"
     ["Monday"; "Friday"] "15:15" "16:45" 12
     ["michael@mergington.edu"; "daniel@mergington.edu"];
   activity "Programming Class"
     "Learn programming fundamentals and build software projects"
     "Tuesdays and Thursdays, 7:00 AM - 8:00 AM"
     ["Tuesday"; "Thursday"] "07:00" "08:00" 20
     ["emma@mergington.edu"; "sophia@mergington.edu"];
   activity "Morning Fitness"
     "Early morning physical training and exercises"
     "Mondays, Wednesdays, Fridays, 6:30 AM - 7:45 AM"
     ["Monday"; "Wednesday"; "Friday"] "06:30" "07:45" 30
     ["john@mergington.edu"; "olivia@mergington.edu"];
   activity "Soccer Team"
     "Join the school soccer team and compete in matches"
     "Tuesdays and Thursdays, 3:30 PM - 5:30 PM"
     ["Tuesday"; "Thursday"] "15:30" "17:30" 22
     ["liam@mergington.edu"; "noah@mergington.edu"];
   activity "Basketball Team"
     "Practice and compete in basketball tournaments"
     "Wednesdays and Fridays, 3:15 PM - 5:00 PM"
     ["Wednesday"; "Friday"] "15:15" "17:00" 15
     ["ava@mergington.edu"; "mia@mergington.edu"];
   activity "Art Club"
     "Explore various art techniques and create masterpieces"
     "Thursdays, 3:15 PM - 5:00 PM"
     ["Thursday"] "15:15" "17:00" 15
     ["amelia@mergington.edu"; "harper@mergington.edu"];
   activity "Drama Club"
     "Act, direct, and produce plays and performances"
     "Mondays and Wednesdays, 3:30 PM - 5:30 PM"
     ["Monday"; "Wednesday"] "15:30" "17:30" 20
     ["ella@mergington.edu"; "scarlett@mergington.edu"];
   activity "Math Club"
     "Solve challenging problems and prepare for math competitions"
     "Tuesdays, 7:15 AM - 8:00 AM"
     ["Tuesday"] "07:15" "08:00" 10
     ["james@mergington.edu"; "benjamin@mergington.edu"];
   activity "Debate Team"
     "Develop public speaking and argumentation skills"
     "Fridays, 3:30 PM - 5:30 PM"
     ["Friday"] "15:30" "17:30" 12
     ["charlotte@mergington.edu"; "amelia@mergington.edu"];
   activity "Weekend Robotics Workshop"
     "Build and program robots in our state-of-the-art workshop"
     "Saturdays, 10:00 AM - 2:00 PM"
     ["Saturday"] "10:00" "14:00" 15
     ["ethan@mergington.edu"; "oliver@mergington.edu"];
   activity "Science Olympiad"
     "Weekend science competition preparation for regional and state events"
     "Saturdays, 1:00 PM - 4:00 PM"
     ["Saturday"] "13:00" "16:00" 18
     ["isabella@mergington.edu"; "lucas@mergington.edu"];
   activity "Sunday Chess Tournament"
     "Weekly tournament for serious chess players with rankings"
     "Sundays, 2:00 PM - 5:00 PM"
     ["Sunday"] "14:00" "17:00" 16
     ["william@mergington.edu"; "jacob@mergington.edu"]].

(** [hash_password] calls Argon2, which salts: what it returns is a string
    the model leaves open. *)
Definition teacher (hash_password : string -> string)
  (username display_name password role : string) : value :=
  VDict [("username", VStr username);
         ("display_name", VStr display_name);
         ("password", VStr (hash_password password));
         ("role", VStr role)].

Definition initial_teachers (hash_password : string -> string) : list value :=
  [teacher hash_password "mrodriguez" "Ms. Rodriguez" "art123" "teacher";
   teacher hash_password "mchen" "Mr. Chen" "chess456" "teacher";
   teacher hash_password "principal" "Principal Martinez" "admin789" "admin"].

(** ** [InMemoryCollection] on a heap of mutable objects

    Lists and dicts are objects with an identity: a reference to one is an
    address, and whoever holds the address can change the object.  The
    scalars are immutable and are carried in the reference itself.  The
    store keeps references to its documents, the caller keeps references to
    what it passed in and to what it got back; [copy.deepcopy] is what
    stands between the two, and [update_one] is what goes around it: it
    changes the stored list itself and puts into it the very object it is
    given.

    Nothing here takes a stored document to be a tree: one list may sit
    under two fields, and an object may contain itself.  The recursion
    limit is [fuel]: [copy.deepcopy], and [==] on two objects, go one level
    down per unit and raise [RecursionError] when it is used up. *)
Module Heap.

Definition loc : Type := nat.

Inductive ref : Type :=
| RNone
| RBool (b : bool)
| RInt (z : Z)
| RStr (s : string)
| RLoc (l : loc).

Inductive cell : Type :=
| CList (items : list ref)
| CDict (fields : list (string * ref)).

(** The address of an object is its index; objects are never freed. *)
Definition heap : Type := list cell.

Definition refs (c : cell) : list ref :=
  match c with
  | CList items => items
  | CDict fields => map snd fields
  end.

(** The object at [l] becomes [c]: any mutation of a list or dict. *)
Fixpoint write (h : heap) (l : loc) (c : cell) : heap :=
  match h, l with
  | [], _ => []
  | _ :: rest, O => c :: rest
  | c0 :: rest, S l' => c0 :: write rest l' c
  end.

(** The value of an immutable object. *)
Definition scalar (r : ref) : option value :=
  match r with
  | RNone => Some VNone
  | RBool b => Some (VBool b)
  | RInt z => Some (VInt z)
  | RStr s => Some (VStr s)
  | RLoc _ => None
  end.

(** The items of a list object: [isinstance(r, list)]. *)
Definition list_at (h : heap) (r : ref) : option (list ref) :=
  match r with
  | RLoc l =>
      match nth_error h l with
      | Some (CList items) => Some items
      | _ => None
      end
  | _ => None
  end.

(** The fields of a dict object: [isinstance(r, dict)]. *)
Definition dict_at (h : heap) (r : ref) : option (list (string * ref)) :=
  match r with
  | RLoc l =>
      match nth_error h l with
      | Some (CDict fields) => Some fields
      | _ => None
      end
  | _ => None
  end.

Fixpoint traverse {A B : Type} (f : A -> option B) (xs : list A)
  : option (list B) :=
  match xs with
  | [] => Some []
  | x :: rest =>
      match f x, traverse f rest with
      | Some y, Some ys => Some (y :: ys)
      | _, _ => None
      end
  end.

(** The tree an object unfolds to, when it has one within [n] levels. *)
Fixpoint read (n : nat) (h : heap) (r : ref) {struct n} : option value :=
  match r with
  | RNone => Some VNone
  | RBool b => Some (VBool b)
  | RInt z => Some (VInt z)
  | RStr s => Some (VStr s)
  | RLoc l =>
      match n with
      | O => None
      | S n' =>
          match nth_error h l with
          | Some (CList items) =>
              option_map VList (traverse (read n' h) items)
          | Some (CDict fields) =>
              option_map VDict
                (traverse (fun kr => option_map (pair (fst kr))
                                       (read n' h (snd kr))) fields)
          | None => None
          end
      end
  end.

(** *** [copy.deepcopy] *)

(** The memo of a copy in progress: the objects met so far, each with its
    copy.  An object met again is not copied again; this keeps what is
    shared shared, and ends the walk through an object that contains
    itself. *)
Definition memo : Type := list (loc * loc).

Fixpoint copied (m : memo) (l : loc) : option loc :=
  match m with
  | [] => None
  | (x, y) :: rest => if Nat.eqb x l then Some y else copied rest l
  end.

(** [y.append(a)] on the list [y] being filled. *)
Definition append (h : heap) (y : loc) (a : ref) : heap :=
  match nth_error h y with
  | Some (CList items) => write h y (CList (items ++ [a]))
  | _ => h
  end.

(** [y[k] = a] on the dict [y] being filled: the keys come from a dict, no
    two are the same, so each assignment adds a field. *)
Definition assign (h : heap) (y : loc) (k : string) (a : ref) : heap :=
  match nth_error h y with
  | Some (CDict fields) => write h y (CDict (fields ++ [(k, a)]))
  | _ => h
  end.

Section Filling.
(** The copier for what is one level down. *)
Variable copy : memo -> heap -> ref -> result (heap * memo * ref).

(** [for a in x: y.append(deepcopy(a, memo))]. *)
Fixpoint copy_items (m : memo) (h : heap) (y : loc) (items : list ref)
  : result (heap * memo) :=
  match items with
  | [] => Ok (h, m)
  | a :: rest =>
      match copy m h a with
      | Raise e => Raise e
      | Ok (h1, m1, a') => copy_items m1 (append h1 y a') y rest
      end
  end.

(** [for key, value in x.items(): y[deepcopy(key, memo)] = deepcopy(value,
    memo)]; a key is a string, and the copy of a string is the string. *)
Fixpoint copy_fields (m : memo) (h : heap) (y : loc)
  (fields : list (string * ref)) : result (heap * memo) :=
  match fields with
  | [] => Ok (h, m)
  | (k, a) :: rest =>
      match copy m h a with
      | Raise e => Raise e
      | Ok (h1, m1, a') => copy_fields m1 (assign h1 y k a') y rest
      end
  end.
End Filling.

(** [copy.deepcopy(x, memo)]: a scalar is returned as it is; an object in
    the memo gives the copy it has there; any other list or dict gets a
    new empty object, which goes into the memo before it is filled with
    the copies of the items. *)
Fixpoint deepcopy (fuel : nat) (m : memo) (h : heap) (x : ref)
  : result (heap * memo * ref) :=
  match x with
  | RLoc l =>
      match copied m l with
      | Some y => Ok (h, m, RLoc y)
      | None =>
          match fuel with
          | O => Raise RecursionError
          | S n =>
              let y := List.length h in
              match nth_error h l with
              | Some (CList items) =>
                  hm <- copy_items (deepcopy n) ((l, y) :: m)
                          (h ++ [CList []]) y items ;;
                  Ok (fst hm, snd hm, RLoc y)
              | Some (CDict fields) =>
                  hm <- copy_fields (deepcopy n) ((l, y) :: m)
                          (h ++ [CDict []]) y fields ;;
                  Ok (fst hm, snd hm, RLoc y)
              | None => Ok (h, m, x)
              end
          end
      end
  | _ => Ok (h, m, x)
  end.

(** *** [_get_nested_value] and [_matches_query] on a stored object *)

Fixpoint get_path (h : heap) (current : ref) (parts : list string) : ref :=
  match parts with
  | [] => current
  | part :: rest =>
      match dict_at h current with
      | Some fields =>
          match dict_get part fields with
          | Some r => get_path h r rest
          | None => RNone
          end
      | None => RNone
      end
  end.

Definition _get_nested_value (h : heap) (document : ref) (dotted_key : string)
  : ref :=
  get_path h document (split_dot dotted_key).

(** [actual == expected] for a stored [actual] and an [expected] that the
    filter gives: the comparison goes down the two side by side and ends
    where the literal ends. *)
Fixpoint equals (h : heap) (expected : value) (actual : ref) {struct expected}
  : bool :=
  match expected with
  | VList vs =>
      match list_at h actual with
      | Some rs =>
          (fix all2 (vs : list value) (rs : list ref) {struct vs} : bool :=
             match vs, rs with
             | [], [] => true
             | v :: vs', r :: rs' => equals h v r && all2 vs' rs'
             | _, _ => false
             end) vs rs
      | None => false
      end
  | VDict d =>
      match dict_at h actual with
      | Some fs =>
          Nat.eqb (List.length fs) (List.length d) &&
          (fix sub (d : list (string * value)) {struct d} : bool :=
             match d with
             | [] => true
             | (k, w) :: d' =>
                 match dict_get k fs with
                 | Some r => equals h w r
                 | None => false
                 end && sub d'
             end) d
      | None => false
      end
  | _ =>
      match scalar actual with
      | Some a => py_eq a expected
      | None => false
      end
  end.

(** [actual < bound] and [actual > bound]. *)
Fixpoint less (h : heap) (bound : value) (actual : ref) {struct bound}
  : result bool :=
  match bound with
  | VList ys =>
      match list_at h actual with
      | Some xs =>
          (fix lex (ys : list value) (xs : list ref) {struct ys} : result bool :=
             match ys, xs with
             | [], [] => Ok false
             | _ :: _, [] => Ok true
             | [], _ :: _ => Ok false
             | y :: ys', x :: xs' =>
                 if equals h y x then lex ys' xs' else less h y x
             end) ys xs
      | None => Raise TypeError
      end
  | VDict _ => Raise TypeError
  | _ =>
      match scalar actual with
      | Some a => py_lt a bound
      | None => Raise TypeError
      end
  end.

Fixpoint greater (h : heap) (bound : value) (actual : ref) {struct bound}
  : result bool :=
  match bound with
  | VList ys =>
      match list_at h actual with
      | Some xs =>
          (fix lex (ys : list value) (xs : list ref) {struct ys} : result bool :=
             match ys, xs with
             | [], [] => Ok false
             | _ :: _, [] => Ok false
             | [], _ :: _ => Ok true
             | y :: ys', x :: xs' =>
                 if equals h y x then lex ys' xs' else greater h y x
             end) ys xs
      | None => Raise TypeError
      end
  | VDict _ => Raise TypeError
  | _ =>
      match scalar actual with
      | Some a => py_gt a bound
      | None => Raise TypeError
      end
  end.

(** [actual in container], for an [actual] that is no list. *)
Definition contains (h : heap) (actual : ref) (container : value) : result bool :=
  match container with
  | VList cs => Ok (existsb (fun c => equals h c actual) cs)
  | VDict d =>
      match scalar actual with
      | Some a => Ok (match a with VStr k => dict_has k d | _ => false end)
      | None => Raise TypeError
      end
  | VStr hay =>
      match actual with
      | RStr needle => Ok (substring_of needle hay)
      | _ => Raise TypeError
      end
  | _ => Raise TypeError
  end.

Definition check_in (h : heap) (actual : ref) (expected : list (string * value))
  : result bool :=
  match dict_get "$in" expected with
  | Some candidate_values =>
      match list_at h actual with
      | Some items =>
          cands <- py_iter candidate_values ;;
          Ok (existsb (fun item => existsb (equals h item) items) cands)
      | None => contains h actual candidate_values
      end
  | None => Ok true
  end.

Definition check_gte (h : heap) (actual : ref) (expected : list (string * value))
  : result bool :=
  match dict_get "$gte" expected with
  | Some bound =>
      match actual with
      | RNone => Ok false
      | _ => below <- less h bound actual ;; Ok (negb below)
      end
  | None => Ok true
  end.

Definition check_lte (h : heap) (actual : ref) (expected : list (string * value))
  : result bool :=
  match dict_get "$lte" expected with
  | Some bound =>
      match actual with
      | RNone => Ok false
      | _ => above <- greater h bound actual ;; Ok (negb above)
      end
  | None => Ok true
  end.

Definition field_holds (h : heap) (document : ref) (key : string)
  (expected : value) : result bool :=
  let actual := _get_nested_value h document key in
  match expected with
  | VDict ops =>
      ok_in <- check_in h actual ops ;;
      if negb ok_in then Ok false else
      ok_gte <- check_gte h actual ops ;;
      if negb ok_gte then Ok false else
      check_lte h actual ops
  | _ => Ok (equals h expected actual)
  end.

Fixpoint matches_fields (h : heap) (document : ref)
  (query : list (string * value)) : result bool :=
  match query with
  | [] => Ok true
  | (key, expected) :: rest =>
      holds <- field_holds h document key expected ;;
      if holds then matches_fields h document rest else Ok false
  end.

Definition _matches_query (h : heap) (document : ref)
  (query : list (string * value)) : result bool :=
  match query with
  | [] => Ok true
  | _ => matches_fields h document query
  end.

(** [a == b] for two objects, as [in] and [remove] test it: an object is
    equal to itself, two lists or two dicts of one size are compared item
    by item, one level down. *)
Fixpoint same (fuel : nat) (h : heap) (a b : ref) {struct fuel} : result bool :=
  match a, b with
  | RLoc la, RLoc lb =>
      if Nat.eqb la lb then Ok true else
      match fuel with
      | O => Raise RecursionError
      | S n =>
          match nth_error h la, nth_error h lb with
          | Some (CList xs), Some (CList ys) =>
              if Nat.eqb (List.length xs) (List.length ys) then
                (fix all2 (xs ys : list ref) {struct xs} : result bool :=
                   match xs, ys with
                   | x :: xs', y :: ys' =>
                       eq <- same n h x y ;;
                       if eq then all2 xs' ys' else Ok false
                   | _, _ => Ok true
                   end) xs ys
              else Ok false
          | Some (CDict d1), Some (CDict d2) =>
              if Nat.eqb (List.length d1) (List.length d2) then
                (fix sub (d : list (string * ref)) {struct d} : result bool :=
                   match d with
                   | [] => Ok true
                   | (k, x) :: d' =>
                       match dict_get k d2 with
                       | Some y =>
                           eq <- same n h x y ;;
                           if eq then sub d' else Ok false
                       | None => Ok false
                       end
                   end) d1
              else Ok false
          | _, _ => Ok false
          end
      end
  | RLoc _, _ | _, RLoc _ => Ok false
  | _, _ =>
      match scalar a, scalar b with
      | Some x, Some y => Ok (py_eq x y)
      | _, _ => Ok false
      end
  end.

(** *** The store *)

(** [self._documents]: identifier to document object. *)
Definition documents : Type := list (value * ref).

(** [document["_id"]]. *)
Definition subscript (h : heap) (document : ref) (k : string) : result ref :=
  match document with
  | RLoc l =>
      match nth_error h l with
      | Some (CDict fields) =>
          match dict_get k fields with
          | Some r => Ok r
          | None => Raise KeyError
          end
      | _ => Raise TypeError
      end
  | _ => Raise TypeError
  end.

Section Bounded.
Variable fuel : nat.

(** [self._documents[document["_id"]] = copy.deepcopy(document)]: the
    right-hand side is evaluated first, and a list or a dict cannot be a
    key. *)
Definition insert_one (h : heap) (self : documents) (document : ref)
  : result (heap * documents) :=
  made <- deepcopy fuel [] h document ;;
  identifier <- subscript h document "_id" ;;
  match scalar identifier with
  | Some k => Ok (fst (fst made), store_set k (snd made) self)
  | None => Raise TypeError
  end.

Fixpoint find_one_in (h : heap) (docs : list ref) (query : list (string * value))
  : result (heap * option ref) :=
  match docs with
  | [] => Ok (h, None)
  | document :: rest =>
      hit <- _matches_query h document query ;;
      if hit then
        made <- deepcopy fuel [] h document ;;
        Ok (fst (fst made), Some (snd made))
      else find_one_in h rest query
  end.

Definition find_one (h : heap) (self : documents) (query : list (string * value))
  : result (heap * option ref) :=
  find_one_in h (map snd self) query.

(** The generator that [find] returns.  Nothing runs before the first
    [next]; then the iterator over [self._documents.values()] is made, and
    it keeps the size the dict has at that moment and its position. *)
Inductive generator : Type :=
| Fresh
| Running (used pos : nat)
| Finished.

(** What a [next] gives: a copy of the next document the filter selects,
    [StopIteration], an exception of the filter or of the copy, or the
    [RuntimeError] of a dict iterator that finds the size of its dict
    changed. *)
Inductive resumed : Type :=
| Yielded (h : heap) (document : ref) (g : generator)
| Stopped
| Failed (e : exn)
| Changed.

Fixpoint scan (h : heap) (docs : list ref) (query : list (string * value))
  (used pos : nat) : resumed :=
  match docs with
  | [] => Stopped
  | document :: rest =>
      match _matches_query h document query with
      | Raise e => Failed e
      | Ok false => scan h rest query used (S pos)
      | Ok true =>
          match deepcopy fuel [] h document with
          | Raise e => Failed e
          | Ok (h', _, r) => Yielded h' r (Running used (S pos))
          end
      end
  end.

Definition resume (h : heap) (self : documents) (query : list (string * value))
  (g : generator) : resumed :=
  match g with
  | Fresh => scan h (map snd self) query (List.length self) 0
  | Running used pos =>
      if Nat.eqb used (List.length self)
      then scan h (skipn pos (map snd self)) query used pos
      else Changed
  | Finished => Stopped
  end.

(** The generator after a [next]. *)
Definition after (r : resumed) : generator :=
  match r with
  | Yielded _ _ g => g
  | _ => Finished
  end.

(** One pair of [update["$push"].items()]: [values.append(value)] on the
    list the path leads to. *)
Definition push_step (document : ref) (st : heap * Z) (pair : string * ref)
  : heap * Z :=
  let '(h, modified) := st in
  let '(field, v) := pair in
  match _get_nested_value h document field with
  | RLoc l =>
      match nth_error h l with
      | Some (CList items) => (write h l (CList (items ++ [v])), 1)
      | _ => (h, modified)
      end
  | _ => (h, modified)
  end.

(** [value in values] and [values.remove(value)]: the items are tried from
    the front, and the first that is equal goes. *)
Fixpoint pull (h : heap) (v : ref) (items : list ref)
  : result (option (list ref)) :=
  match items with
  | [] => Ok None
  | x :: rest =>
      eq <- same fuel h x v ;;
      if eq then Ok (Some rest)
      else (found <- pull h v rest ;;
            Ok (option_map (cons x) found))
  end.

(** One pair of [update["$pull"].items()]. *)
Definition pull_step (document : ref) (st : heap * Z) (pair : string * ref)
  : result (heap * Z) :=
  let '(h, modified) := st in
  let '(field, v) := pair in
  match _get_nested_value h document field with
  | RLoc l =>
      match nth_error h l with
      | Some (CList items) =>
          found <- pull h v items ;;
          match found with
          | Some items' => Ok (write h l (CList items'), 1)
          | None => Ok (h, modified)
          end
      | _ => Ok (h, modified)
      end
  | _ => Ok (h, modified)
  end.

Fixpoint pull_all (document : ref) (st : heap * Z) (pairs : list (string * ref))
  : heap * result Z :=
  match pairs with
  | [] => (fst st, Ok (snd st))
  | kv :: rest =>
      match pull_step document st kv with
      | Ok st' => pull_all document st' rest
      | Raise e => (fst st, Raise e)
      end
  end.

(** [update[op].items()] when [op] is in [update]: anything but a dict has
    no [items]. *)
Definition operand (h : heap) (update : list (string * ref)) (op : string)
  : result (list (string * ref)) :=
  match dict_get op update with
  | Some r =>
      match dict_at h r with
      | Some pairs => Ok pairs
      | None => Raise AttributeError
      end
  | None => Ok []
  end.

(** The body run on the first matching document. *)
Definition apply_update (h : heap) (document : ref) (update : list (string * ref))
  : heap * result Z :=
  match operand h update "$push" with
  | Raise e => (h, Raise e)
  | Ok pushes =>
      let st := fold_left (push_step document) pushes (h, 0) in
      match operand (fst st) update "$pull" with
      | Raise e => (fst st, Raise e)
      | Ok pulls => pull_all document st pulls
      end
  end.

Fixpoint update_first (h : heap) (docs : list ref) (query : list (string * value))
  (update : list (string * ref)) : heap * result Z :=
  match docs with
  | [] => (h, Ok 0)
  | document :: rest =>
      match _matches_query h document query with
      | Raise e => (h, Raise e)
      | Ok false => update_first h rest query update
      | Ok true => apply_update h document update
      end
  end.

(** The documents of the store stay the objects they are: the update is
    made inside them. *)
Definition update_one (h : heap) (self : documents) (query : list (string * value))
  (update : list (string * ref)) : heap * result Z :=
  update_first h (map snd self) query update.

End Bounded.

(** *** The caller *)

(** [l] is the address of [r] or of something inside it. *)
Inductive reach (h : heap) : ref -> loc -> Prop :=
| reach_here (l : loc) : reach h (RLoc l) l
| reach_step (l : loc) (c : cell) (r : ref) (l' : loc) :
    nth_error h l = Some c -> In r (refs c) -> reach h r l' ->
    reach h (RLoc l) l'.

(** The heap, the store, the references the caller holds and the
    generators it got from [find], each with its filter. *)
Record config : Type := Config {
  cells : heap;
  docs : documents;
  roots : list ref;
  gens : list (list (string * value) * generator)
}.

(** The caller can get at [r]: a scalar, or an object reachable from a
    reference it holds. *)
Definition held (cfg : config) (r : ref) : Prop :=
  match r with
  | RLoc l => exists root, In root (roots cfg) /\ reach (cells cfg) root l
  | _ => True
  end.

(** A list stays a list and a dict a dict. *)
Definition same_kind (c c' : cell) : bool :=
  match c, c' with
  | CList _, CList _ | CDict _, CDict _ => true
  | _, _ => false
  end.

Definition yield_of (r : resumed) : list ref :=
  match r with
  | Yielded _ document _ => [document]
  | _ => []
  end.

Definition heap_after (h : heap) (r : resumed) : heap :=
  match r with
  | Yielded h' _ _ => h'
  | _ => h
  end.

Definition found_ref (found : option ref) : list ref :=
  match found with
  | Some r => [r]
  | None => []
  end.

Fixpoint set_nth {A : Type} (i : nat) (x : A) (xs : list A) : list A :=
  match xs, i with
  | [], _ => []
  | _ :: rest, O => x :: rest
  | y :: rest, S i' => y :: set_nth i' x rest
  end.

(** What the caller can do without changing the store: make a new object
    out of what it holds, change an object it can get at, call [find_one]
    or [find], resume a generator; it keeps what it is given. *)
Inductive caller_step (fuel : nat) : config -> config -> Prop :=
| step_new (cfg : config) (c : cell) :
    Forall (held cfg) (refs c) ->
    caller_step fuel cfg
      (Config (cells cfg ++ [c]) (docs cfg)
         (RLoc (List.length (cells cfg)) :: roots cfg) (gens cfg))
| step_write (cfg : config) (l : loc) (old c : cell) :
    held cfg (RLoc l) ->
    nth_error (cells cfg) l = Some old -> same_kind old c = true ->
    Forall (held cfg) (refs c) ->
    caller_step fuel cfg
      (Config (write (cells cfg) l c) (docs cfg) (roots cfg) (gens cfg))
| step_find_one (cfg : config) (query : list (string * value))
    (h' : heap) (found : option ref) :
    find_one fuel (cells cfg) (docs cfg) query = Ok (h', found) ->
    caller_step fuel cfg
      (Config h' (docs cfg) (found_ref found ++ roots cfg) (gens cfg))
| step_find (cfg : config) (query : list (string * value)) :
    caller_step fuel cfg
      (Config (cells cfg) (docs cfg) (roots cfg) (gens cfg ++ [(query, Fresh)]))
| step_next (cfg : config) (i : nat) (query : list (string * value))
    (g : generator) (r : resumed) :
    nth_error (gens cfg) i = Some (query, g) ->
    resume fuel (cells cfg) (docs cfg) query g = r ->
    caller_step fuel cfg
      (Config (heap_after (cells cfg) r) (docs cfg) (yield_of r ++ roots cfg)
         (set_nth i (query, after r) (gens cfg))).

(** A call of [insert_one] on something the caller holds. *)
Inductive insert_step (fuel : nat) : config -> config -> Prop :=
| step_insert (cfg : config) (document : ref) (h' : heap) (docs' : documents) :
    held cfg document ->
    insert_one fuel (cells cfg) (docs cfg) document = Ok (h', docs') ->
    insert_step fuel cfg (Config h' docs' (roots cfg) (gens cfg)).

(** A call of [update_one] with an update made of what the caller holds;
    it may raise, after the pushes. *)
Inductive update_step (fuel : nat) : config -> config -> Prop :=
| step_update (cfg : config) (query : list (string * value))
    (update : list (string * ref)) (h' : heap) (r : result Z) :
    Forall (fun kr => held cfg (snd kr)) update ->
    update_one fuel (cells cfg) (docs cfg) query update = (h', r) ->
    update_step fuel cfg (Config h' (docs cfg) (roots cfg) (gens cfg)).

(** The values to push are scalars, strings for one. *)
Definition pushes_scalars (h : heap) (update : list (string * ref)) : Prop :=
  forall r pairs,
    dict_get "$push" update = Some r -> dict_at h r = Some pairs ->
    Forall (fun kv => scalar (snd kv) <> None) pairs.

Inductive scalar_update_step (fuel : nat) : config -> config -> Prop :=
| step_scalar_update (cfg : config) (query : list (string * value))
    (update : list (string * ref)) (h' : heap) (r : result Z) :
    Forall (fun kr => held cfg (snd kr)) update ->
    pushes_scalars (cells cfg) update ->
    update_one fuel (cells cfg) (docs cfg) query update = (h', r) ->
    scalar_update_step fuel cfg (Config h' (docs cfg) (roots cfg) (gens cfg)).

(** Everything the code lets a caller do. *)
Inductive step (fuel : nat) (cfg cfg' : config) : Prop :=
| step_caller : caller_step fuel cfg cfg' -> step fuel cfg cfg'
| step_store : insert_step fuel cfg cfg' -> step fuel cfg cfg'
| step_change : update_step fuel cfg cfg' -> step fuel cfg cfg'.

(** The same, with updates that push scalars only. *)
Inductive plain_step (fuel : nat) (cfg cfg' : config) : Prop :=
| plain_caller : caller_step fuel cfg cfg' -> plain_step fuel cfg cfg'
| plain_store : insert_step fuel cfg cfg' -> plain_step fuel cfg cfg'
| plain_change : scalar_update_step fuel cfg cfg' -> plain_step fuel cfg cfg'.

(** Any number of steps. *)
Inductive run {A : Type} (R : A -> A -> Prop) : A -> A -> Prop :=
| run_done (a : A) : run R a a
| run_more (a b c : A) : R a b -> run R b c -> run R a c.

Definition initial : config := Config [] [] [] [].

(** *** Structural equality *)

Definition same_scalar (r r' : ref) : bool :=
  match r, r' with
  | RNone, RNone => true
  | RBool b, RBool b' => Bool.eqb b b'
  | RInt z, RInt z' => z =? z'
  | RStr s, RStr s' => String.eqb s s'
  | _, _ => false
  end.

Fixpoint all2 {A B : Type} (f : A -> B -> bool) (xs : list A) (ys : list B)
  : bool :=
  match xs, ys with
  | [], [] => true
  | x :: xs', y :: ys' => f x y && all2 f xs' ys'
  | _, _ => false
  end.

(** [r] in [h] and [r'] in [h'] are the same down to level [n]: the same
    scalars, lists of one length, dicts with the same keys in the same
    order, and so on inside.  Two objects that are alike at every level are
    structurally equal, also when they contain themselves. *)
Fixpoint alike (n : nat) (h : heap) (r : ref) (h' : heap) (r' : ref)
  {struct n} : bool :=
  match n with
  | O => true
  | S n' =>
      match r, r' with
      | RLoc l, RLoc l' =>
          match nth_error h l, nth_error h' l' with
          | Some (CList xs), Some (CList ys) =>
              all2 (fun x y => alike n' h x h' y) xs ys
          | Some (CDict d), Some (CDict d') =>
              all2 (fun kx ky => String.eqb (fst kx) (fst ky) &&
                                 alike n' h (snd kx) h' (snd ky)) d d'
          | _, _ => false
          end
      | _, _ => same_scalar r r'
      end
  end.

(** *** Who owns what *)

Definition valid (h : heap) (r : ref) : Prop :=
  match r with
  | RLoc l => (l < List.length h)%nat
  | _ => True
  end.

(** [own l] tells whether the object at [l] belongs to the store; a
    reference is on side [b] when it is a scalar or points to an object of
    that side. *)
Definition side (own : loc -> bool) (b : bool) (r : ref) : Prop :=
  match r with
  | RLoc l => own l = b
  | _ => True
  end.

(** The store and the caller share no object: an object refers to objects
    of its own side only, the documents of the store are on the store's
    side, what the caller holds is on the caller's side. *)
Record separated (own : loc -> bool) (cfg : config) : Prop := {
  sep_cells :
    forall l c, nth_error (cells cfg) l = Some c ->
                Forall (fun r => valid (cells cfg) r /\ side own (own l) r)
                       (refs c);
  sep_own : forall l, own l = true -> (l < List.length (cells cfg))%nat;
  sep_docs :
    Forall (fun kr => valid (cells cfg) (snd kr) /\ side own true (snd kr))
           (docs cfg);
  sep_roots :
    Forall (fun r => valid (cells cfg) r /\ side own false r) (roots cfg)
}.

(** The objects made on top of [h], up to [h'], go to the store. *)
Definition grow (own : loc -> bool) (h h' : heap) : loc -> bool :=
  fun l => own l ||
           ((List.length h <=? l)%nat && (l <? List.length h')%nat).

(** The two heaps hold the same objects at the addresses of the store,
    and these refer to objects of the store only. *)
Definition agree (own : loc -> bool) (h1 h2 : heap) : Prop :=
  forall l, own l = true ->
    exists c, nth_error h1 l = Some c /\ nth_error h2 l = Some c /\
              Forall (side own true) (refs c).

(** Two results of [copy.deepcopy], of [find_one] or of a [next] are the
    same to the caller: the same exception, or objects that are equal
    down to every level. *)
Definition same_copy (a b : result (heap * memo * ref)) : Prop :=
  match a, b with
  | Ok (h1, _, r1), Ok (h2, _, r2) => forall n, alike n h1 r1 h2 r2 = true
  | Raise e1, Raise e2 => e1 = e2
  | _, _ => False
  end.

Definition same_found (a b : result (heap * option ref)) : Prop :=
  match a, b with
  | Ok (h1, Some r1), Ok (h2, Some r2) => forall n, alike n h1 r1 h2 r2 = true
  | Ok (_, None), Ok (_, None) => True
  | Raise e1, Raise e2 => e1 = e2
  | _, _ => False
  end.

Definition same_resumed (a b : resumed) : Prop :=
  match a, b with
  | Yielded h1 r1 g1, Yielded h2 r2 g2 =>
      g1 = g2 /\ forall n, alike n h1 r1 h2 r2 = true
  | Stopped, Stopped => True
  | Failed e1, Failed e2 => e1 = e2
  | Changed, Changed => True
  | _, _ => False
  end.

(** *** Notions for the update *)

(** [field] is a path of the update: a key of its [$push] or of its
    [$pull] operand. *)
Definition mentions (h : heap) (update : list (string * ref)) (field : string)
  : Prop :=
  exists op r pairs v,
    (op = "$push" \/ op = "$pull") /\
    dict_get op update = Some r /\ dict_at h r = Some pairs /\
    In (field, v) pairs.

(** [h'] has the objects of [h], the dicts as they are and the lists with
    whatever items. *)
Definition reshaped (h h' : heap) : Prop :=
  List.length h' = List.length h /\
  (forall l fields, nth_error h l = Some (CDict fields) ->
                    nth_error h' l = Some (CDict fields)) /\
  (forall l items, nth_error h l = Some (CList items) ->
                   exists items', nth_error h' l = Some (CList items')).

(** What an update of [document] has done to the heap so far: the objects
    are there as they were, and a list with other items is one that a path
    of the update leads to. *)
Definition touched (h : heap) (document : ref) (update : list (string * ref))
  (hc : heap) : Prop :=
  reshaped h hc /\
  forall l, nth_error hc l <> nth_error h l ->
    exists field,
      mentions h update field /\
      _get_nested_value h document field = RLoc l.

(** *** Notions for the copy *)

(** A reference as the memo translates it. *)
Definition tr (m : memo) (r : ref) : ref :=
  match r with
  | RLoc l =>
      match copied m l with
      | Some y => RLoc y
      | None => r
      end
  | _ => r
  end.

Definition map_cell (f : ref -> ref) (c : cell) : cell :=
  match c with
  | CList items => CList (map f items)
  | CDict fields => CDict (map (fun kr => (fst kr, f (snd kr))) fields)
  end.

(** The memo has a copy for [r]. *)
Definition keyed (m : memo) (r : ref) : Prop :=
  match r with
  | RLoc l => copied m l <> None
  | _ => True
  end.

(** A reference into the objects made on top of [h0]. *)
Definition fresh (h0 h : heap) (r : ref) : Prop :=
  match r with
  | RLoc l => (List.length h0 <= l < List.length h)%nat
  | _ => True
  end.

(** A copy of something in [h0] is in progress: the objects of [h0] are
    as they were, the memo leads from them to new objects, and the new
    objects refer to new objects only. *)
Record copying (h0 h : heap) (m : memo) : Prop := {
  cp_length : (List.length h0 <= List.length h)%nat;
  cp_source : forall l, (l < List.length h0)%nat ->
                        nth_error h l = nth_error h0 l;
  cp_memo : forall l y, copied m l = Some y ->
                        (l < List.length h0)%nat /\ fresh h0 h (RLoc y);
  cp_new : forall l c, (List.length h0 <= l)%nat -> nth_error h l = Some c ->
                       Forall (fresh h0 h) (refs c)
}.

(** The copy [y] of [l] is finished: it holds the items of [l] as the memo
    translates them. *)
Definition finished (h0 h : heap) (m : memo) (l y : loc) : Prop :=
  exists c, nth_error h0 l = Some c /\
            nth_error h y = Some (map_cell (tr m) c) /\
            Forall (keyed m) (refs c).

(** What a copier has to do. *)
Definition copies_well (h0 : heap)
  (copy : memo -> heap -> ref -> result (heap * memo * ref)) : Prop :=
  forall m h x h' m' x',
    copy m h x = Ok (h', m', x') -> copying h0 h m -> valid h0 x ->
    copying h0 h' m' /\
    (List.length h <= List.length h')%nat /\
    (forall l, (l < List.length h)%nat -> nth_error h' l = nth_error h l) /\
    (forall l y, copied m l = Some y -> copied m' l = Some y) /\
    (forall l y, copied m l = None -> copied m' l = Some y ->
                 (List.length h <= y)%nat /\ finished h0 h' m' l y) /\
    x' = tr m' x /\ keyed m' x.

(** How many objects of [h0] the memo has no copy for yet. *)
Definition pending (m : memo) (h0 : heap) : nat :=
  List.length
    (filter (fun l => match copied m l with None => true | Some _ => false end)
       (seq 0 (List.length h0))).

(** Every reference in every object leads somewhere. *)
Definition closed (h : heap) : Prop :=
  forall l c, nth_error h l = Some c -> Forall (valid h) (refs c).

End Heap.
(** ** Notions the statements use *)

(** The path resolver in the words of the specification: a failed descent
    is "absent" ([None]), kept apart from whatever is stored. *)
Fixpoint resolve (current : value) (parts : list string) : option value :=
  match parts with
  | [] => Some current
  | part :: rest =>
      match current with
      | VDict d =>
          match dict_get part d with
          | Some v => resolve v rest
          | None => None
          end
      | _ => None
      end
  end.

(** No key occurs twice. *)
Fixpoint distinct (ks : list string) : bool :=
  match ks with
  | [] => true
  | k :: rest => negb (existsb (String.eqb k) rest) && distinct rest
  end.

(** A well-formed value: every dict in it has distinct keys, as every
    Python dict has. *)
Fixpoint wf_value (v : value) : bool :=
  match v with
  | VList xs => forallb wf_value xs
  | VDict d =>
      distinct (map fst d) &&
      (fix wf_fields (d : list (string * value)) : bool :=
         match d with
         | [] => true
         | (_, x) :: d' => wf_value x && wf_fields d'
         end) d
  | _ => true
  end.

(** The membership constraint in the words of the specification: a
    sequence matches when one of its elements appears in the candidate
    set, anything else when it appears there itself. *)
Definition in_spec (actual : value) (candidates : list value) : bool :=
  match actual with
  | VList items => existsb (fun element => py_in element candidates) items
  | _ => py_in actual candidates
  end.

(** An update whose [$push] and [$pull] entries, when present, are
    mappings from paths to values. *)
Definition update_shaped (update : list (string * value)) : bool :=
  match dict_get "$push" update with Some v => is_dict v | None => true end &&
  match dict_get "$pull" update with Some v => is_dict v | None => true end.

(** Identifiers are hashable and no two of them are equal. *)
Fixpoint unique_ids (ks : list value) : bool :=
  match ks with
  | [] => true
  | k :: rest =>
      hashable k && negb (existsb (fun later => py_eq k later) rest) &&
      unique_ids rest
  end.

(** The calls that write to the store. *)
Inductive op : Type :=
| Insert (document : value)
| Update (query update : list (string * value)).

(** The store after a call; [insert_one] raises before it assigns. *)
Definition run_op (self : collection) (o : op) : collection :=
  match o with
  | Insert document =>
      match insert_one self document with
      | Ok self' => self'
      | Raise _ => self
      end
  | Update query update => fst (update_one self query update)
  end.

Definition run_ops (ops : list op) : collection := fold_left run_op ops [].

(** The identifier a call inserts under, when it inserts. *)
Definition inserted_id (o : op) : list value :=
  match o with
  | Insert (VDict fields) =>
      match dict_get "_id" fields with
      | Some identifier => if hashable identifier then [identifier] else []
      | None => []
      end
  | _ => []
  end.

(** Identifiers in the order in which each was first seen. *)
Definition see (seen : list value) (k : value) : list value :=
  if py_in k seen then seen else seen ++ [k].

Definition first_seen (ids : list value) : list value :=
  fold_left see ids [].

(** The filter can be evaluated on the document: no comparison raises. *)
Definition evaluates (query : list (string * value)) (document : value) : Prop :=
  exists b, _matches_query document query = Ok b.

(** The documents a filter selects, in the order given. *)
Definition selected (query : list (string * value)) (documents : list value)
  : list value :=
  filter (fun document =>
            match _matches_query document query with
            | Ok true => true
            | _ => false
            end) documents.

(** [==] on two lists, and the test [==] makes on each field of a dict. *)
Fixpoint all2 (xs ys : list value) : bool :=
  match xs, ys with
  | [], [] => true
  | x :: xs', y :: ys' => py_eq x y && all2 xs' ys'
  | _, _ => false
  end.

Definition field_in (d2 : list (string * value)) (kv : string * value) : bool :=
  match dict_get (fst kv) d2 with
  | Some w => py_eq (snd kv) w
  | None => false
  end.

(** What [aggregate] reads in a document: the items listed under
    [schedule_details.days], none when the path is absent or holds a falsy
    value. *)
Definition days_listed (document : value) : bool :=
  is_list (days_or_empty document).

Definition days_of (document : value) : list value :=
  match days_or_empty document with
  | VList xs => xs
  | _ => []
  end.

Definition all_days (self : collection) : list value :=
  flat_map days_of (values self).

Definition is_str (v : value) : bool :=
  match v with VStr _ => true | _ => false end.

Definition is_num (v : value) : bool :=
  match v with VBool _ | VInt _ => true | _ => false end.

(** Every item is of the class [good]. *)
Definition all_of (good : value -> bool) (xs : list value) : Prop :=
  Forall (fun x => good x = true) xs.

(** Strictly ascending for [<]. *)
Definition ascending (days : list value) : Prop :=
  StronglySorted (fun a b => py_lt a b = Ok true) days.

(** No item equals a later one. *)
Definition pairwise_distinct (days : list value) : Prop :=
  ForallOrdPairs (fun a b => py_eq a b = false) days.

(** How many of [days] equal [x]. *)
Definition count_equal (x : value) (days : list value) : nat :=
  List.length (filter (fun d => py_eq d x) days).

(** ** Sample documents and stores *)

Definition between_15_and_20 : list (string * value) :=
  [("$gte", VInt 15); ("$lte", VInt 20)].

Definition monday_friday : value :=
  VDict [("_id", VStr "Chess Club");
         ("schedule_details",
          VDict [("days", VList [VStr "Monday"; VStr "Friday"])])].

Definition tuesday_only : value :=
  VDict [("_id", VStr "Math Club");
         ("schedule_details", VDict [("days", VList [VStr "Tuesday"])])].

Definition chess_club : value :=
  VDict [("_id", VStr "Chess Club");
         ("max_participants", VInt 12);
         ("participants",
          VList [VStr "michael@mergington.edu"; VStr "daniel@mergington.edu"])].

Definition math_club : value :=
  VDict [("_id", VStr "Math Club");
         ("max_participants", VInt 10);
         ("participants", VList [VStr "james@mergington.edu"])].

Definition two_clubs : collection :=
  [(VStr "Math Club", math_club); (VStr "Chess Club", chess_club)].

Definition two_full_clubs : collection :=
  [(VStr "Chess Club", chess_club); (VStr "Math Club", math_club)].

Definition add_student : list (string * value) :=
  [("$push", VDict [("participants", VStr "x@mergington.edu")])].

Definition chess_club_renewed : list (string * value) :=
  [("_id", VStr "Chess Club"); ("max_participants", VInt 14);
   ("participants", VList [])].

Definition club (name : string) (days : value) : value * value :=
  (VStr name,
   VDict [("_id", VStr name); ("schedule_details", VDict [("days", days)])]).

Definition week : collection :=
  [club "Chess Club" (VList [VStr "Monday"; VStr "Friday"]);
   club "Programming Class" (VList [VStr "Tuesday"; VStr "Thursday"]);
   club "Soccer Team" (VList [VStr "Tuesday"; VStr "Thursday"]);
   (VStr "mrodriguez", VDict [("_id", VStr "mrodriguez")]);
   club "Debate Team" (VList [VStr "Friday"])].

Definition days_as_number : collection :=
  [club "Chess Club" (VList [VStr "Monday"; VStr "Friday"]);
   club "Art Club" (VInt 4)].

(** A caller makes a list of participants, a document around it and the
    operand of a [$push] that holds the same list; it inserts the document
    and then appends to the list it still holds. *)
Definition members : Heap.cell := Heap.CList [Heap.RStr "michael@mergington.edu"].

Definition chess_object : Heap.cell :=
  Heap.CDict [("_id", Heap.RStr "Chess Club");
              ("participants", Heap.RLoc 0%nat)].

Definition push_members : Heap.cell :=
  Heap.CDict [("participants", Heap.RLoc 0%nat)].

Definition chess_tree : value :=
  VDict [("_id", VStr "Chess Club");
         ("participants", VList [VStr "michael@mergington.edu"])].

Definition made : Heap.config :=
  Heap.Config [members; chess_object; push_members] []
    [Heap.RLoc 2%nat; Heap.RLoc 1%nat; Heap.RLoc 0%nat] [].

Definition stored_object : Heap.cell :=
  Heap.CDict [("_id", Heap.RStr "Chess Club");
              ("participants", Heap.RLoc 4%nat)].

Definition inserted : Heap.config :=
  Heap.Config [members; chess_object; push_members; stored_object; members]
    [(VStr "Chess Club", Heap.RLoc 3%nat)]
    [Heap.RLoc 2%nat; Heap.RLoc 1%nat; Heap.RLoc 0%nat] [].

Definition members_changed : Heap.cell :=
  Heap.CList [Heap.RStr "michael@mergington.edu"; Heap.RStr "x@mergington.edu"].

Definition tampered : Heap.config :=
  Heap.Config
    [members_changed; chess_object; push_members; stored_object; members]
    [(VStr "Chess Club", Heap.RLoc 3%nat)]
    [Heap.RLoc 2%nat; Heap.RLoc 1%nat; Heap.RLoc 0%nat] [].

(** The same caller, had it passed its list to [update_one] as the value
    to push before appending to it. *)
Definition lent : Heap.config :=
  Heap.Config
    [members; chess_object; push_members; stored_object;
     Heap.CList [Heap.RStr "michael@mergington.edu"; Heap.RLoc 0%nat]]
    [(VStr "Chess Club", Heap.RLoc 3%nat)]
    [Heap.RLoc 2%nat; Heap.RLoc 1%nat; Heap.RLoc 0%nat] [].

Definition lent_changed : Heap.config :=
  Heap.Config
    [members_changed; chess_object; push_members; stored_object;
     Heap.CList [Heap.RStr "michael@mergington.edu"; Heap.RLoc 0%nat]]
    [(VStr "Chess Club", Heap.RLoc 3%nat)]
    [Heap.RLoc 2%nat; Heap.RLoc 1%nat; Heap.RLoc 0%nat] [].

Definition lent_tree : value :=
  VDict [("_id", VStr "Chess Club");
         ("participants",
          VList [VStr "michael@mergington.edu";
                 VList [VStr "michael@mergington.edu"]])].

Definition lent_changed_tree : value :=
  VDict [("_id", VStr "Chess Club");
         ("participants",
          VList [VStr "michael@mergington.edu";
                 VList [VStr "michael@mergington.edu";
                        VStr "x@mergington.edu"]])].

(** A document that holds itself under ["self"]. *)
Definition knot : Heap.heap :=
  [Heap.CDict [("_id", Heap.RStr "Knot"); ("self", Heap.RLoc 0%nat)]].

(** A stored document with one list under two fields. *)
Definition twin : Heap.heap :=
  [Heap.CDict [("_id", Heap.RStr "Twin"); ("a", Heap.RLoc 1%nat);
               ("b", Heap.RLoc 1%nat)];
   Heap.CList [];
   Heap.CDict [("a", Heap.RStr "x")]].

(** ** Notions for the paths, the identifiers and the seeding *)

(** ["."] between the segments: what [split_dot] undoes. *)
Fixpoint join_dot (parts : list string) : string :=
  match parts with
  | [] => EmptyString
  | [part] => part
  | part :: rest => String.append part (String dot (join_dot rest))
  end.

(** [a + "." + b]. *)
Definition dotted (a b : string) : string := String.append a (String dot b).

Fixpoint has_dot (s : string) : bool :=
  match s with
  | EmptyString => false
  | String c rest => Ascii.eqb c dot || has_dot rest
  end.

Definition id_of (document : value) : option value :=
  match document with
  | VDict fields => dict_get "_id" fields
  | _ => None
  end.

(** A slot of the store is filed under the identifier of its document. *)
Definition filed (slot : value * value) : bool :=
  match id_of (snd slot) with
  | Some identifier => hashable identifier && py_eq (fst slot) identifier
  | None => false
  end.

Definition consistent (self : collection) : bool := forallb filed self.

(** The filter [{"_id": identifier}]. *)
Definition by_id (identifier : value) : list (string * value) :=
  [("_id", identifier)].

(** The updates [{"$push": {field: v}}] and [{"$pull": {field: v}}]. *)
Definition push_one (field : string) (v : value) : list (string * value) :=
  [("$push", VDict [(field, v)])].

Definition pull_one (field : string) (v : value) : list (string * value) :=
  [("$pull", VDict [(field, v)])].

(** A field of a filter can be evaluated on the document. *)
Definition field_evaluates (document : value) (kv : string * value) : Prop :=
  exists b, field_holds document (fst kv) (snd kv) = Ok b.

(** [None], a [bool] or an [int]: neither iterable nor a container. *)
Definition is_atom (v : value) : bool :=
  match v with
  | VNone | VBool _ | VInt _ => true
  | _ => false
  end.

(** A mapping that can be unpacked next to ["_id"]: a well-formed dict
    without a field of that name. *)
Definition plain (details : value) : bool :=
  match details with
  | VDict fields => wf_value details && negb (dict_has "_id" fields)
  | _ => false
  end.

Definition entries (details : value) : list (string * value) :=
  match details with
  | VDict d => d
  | _ => []
  end.

(** What [init_database] stores for an entry of [initial_activities] and
    for an item of [initial_teachers]. *)
Definition seeded_activity (item : string * value) : value * value :=
  (VStr (fst item), VDict (("_id", VStr (fst item)) :: entries (snd item))).

Definition username_of (teacher : value) : value :=
  match dict_get "username" (entries teacher) with
  | Some username => username
  | None => VNone
  end.

Definition seeded_teacher (teacher : value) : value * value :=
  (username_of teacher,
   VDict (("_id", username_of teacher) :: entries teacher)).

Definition named (teacher : value) : bool :=
  plain teacher && dict_has "username" (entries teacher) &&
  hashable (username_of teacher).

(** A stand-in for the salted hash. *)
Definition sample_hash (password : string) : string :=
  String.append "$argon2id$" password.

(** The verdict of one field of a filter, [false] when it raises. *)
Definition verdict (document : value) (kv : string * value) : bool :=
  match field_holds document (fst kv) (snd kv) with
  | Ok true => true
  | _ => false
  end.

(** Insert, in their order, the documents that the displays evaluate to;
    stop at the first exception. *)
Fixpoint insert_all (self : collection) (documents : list (result value))
  : collection * result unit :=
  match documents with
  | [] => (self, Ok tt)
  | made :: rest =>
      match (document <- made ;; insert_one self document) with
      | Ok self' => insert_all self' rest
      | Raise e => (self, Raise e)
      end
  end.

Definition activity_document (item : string * value) : result value :=
  with_id (VStr (fst item)) (snd item).

Definition teacher_document (teacher : value) : result value :=
  username <- subscript teacher "username" ;; with_id username teacher.

(** * Properties *)

(** ** Path resolution *)

Lemma get_path_resolve (parts : list string) :
  forall current,
    get_path current parts =
    match resolve current parts with Some v => v | None => VNone end.
Proof.
  induction parts as [|part rest IH]; intros current; simpl.
  - reflexivity.
  - destruct current; try reflexivity.
    destruct (dict_get part fields); [apply IH | reflexivity].
Qed.

Lemma absent_reads_none (document : value) (key : string) :
  resolve document (split_dot key) = None ->
  _get_nested_value document key = VNone.
Proof.
  intros H. unfold _get_nested_value. rewrite get_path_resolve, H. reflexivity.
Qed.

(** ** The query matcher *)

Lemma matches_query_fields (document : value) (query : list (string * value)) :
  _matches_query document query = matches_fields document query.
Proof. destruct query; reflexivity. Qed.

Lemma matches_fields_in (document : value) (key : string) (expected : value) :
  forall query,
    In (key, expected) query ->
    field_holds document key expected = Ok false ->
    matches_fields document query <> Ok true.
Proof.
  induction query as [|[k e] rest IH]; intros Hin Hf; simpl in *.
  - contradiction.
  - destruct Hin as [Heq | Hin].
    + inversion Heq; subst. rewrite Hf. simpl. discriminate.
    + destruct (field_holds document k e) as [[|]|err]; simpl;
        try discriminate.
      apply IH; assumption.
Qed.

(** C1, as the code has it: a document in which the dotted path does not
    resolve never matches an equality constraint whose literal is not null,
    whatever else the filter asks; against the literal null it does match,
    because [_get_nested_value] reports a failed resolution as [None], the
    very value an explicit null has. *)
Theorem C1_absent_equality (document : value) (key : string) :
  resolve document (split_dot key) = None ->
  _get_nested_value document key = VNone /\
  (forall expected query,
      is_dict expected = false ->
      expected <> VNone ->
      In (key, expected) query ->
      _matches_query document query <> Ok true) /\
  field_holds document key VNone = Ok true /\
  _matches_query document [(key, VNone)] = Ok true.
Proof.
  intros Habs. pose proof (absent_reads_none _ _ Habs) as Hnone.
  split; [exact Hnone|]. split; [|split].
  - intros expected query Hlit Hnn Hin.
    rewrite matches_query_fields.
    apply matches_fields_in with (key := key) (expected := expected); auto.
    unfold field_holds. rewrite Hnone.
    destruct expected; simpl in *; try discriminate; try reflexivity.
    congruence.
  - unfold field_holds. rewrite Hnone. reflexivity.
  - simpl. unfold field_holds. rewrite Hnone. reflexivity.
Qed.

Lemma C1_absent_equality_witness :
  _matches_query (VDict [("_id", VStr "Chess Club")])
    [("_id", VStr "Chess Club"); ("room", VStr "B12")] <> Ok true.
Proof.
  refine (proj1 (proj2
            (C1_absent_equality (VDict [("_id", VStr "Chess Club")]) "room" _))
            (VStr "B12") _ _ _ _).
  - reflexivity.
  - reflexivity.
  - discriminate.
  - simpl. right. left. reflexivity.
Defined.

(** C1 as stated fails: the field [room] is missing from the document, and
    the equality constraint with the literal null is satisfied. *)
Lemma C1_absent_matches_null :
  resolve (VDict [("_id", VStr "Chess Club")]) (split_dot "room") = None /\
  _matches_query (VDict [("_id", VStr "Chess Club")]) [("room", VNone)] = Ok true.
Proof. split; reflexivity. Qed.

Lemma single_field (document : value) (key : string) (expected : value) :
  _matches_query document [(key, expected)] = field_holds document key expected.
Proof.
  simpl. destruct (field_holds document key expected) as [[|]|e]; reflexivity.
Qed.

Lemma check_gte_present (actual lo : value) (ops : list (string * value)) :
  actual <> VNone ->
  dict_get "$gte" ops = Some lo ->
  check_gte actual ops = (below <- py_lt actual lo ;; Ok (negb below)).
Proof.
  intros Hn Hlo. unfold check_gte. rewrite Hlo.
  destruct actual; try reflexivity. congruence.
Qed.

Lemma check_lte_present (actual hi : value) (ops : list (string * value)) :
  actual <> VNone ->
  dict_get "$lte" ops = Some hi ->
  check_lte actual ops = (above <- py_gt actual hi ;; Ok (negb above)).
Proof.
  intros Hn Hhi. unfold check_lte. rewrite Hhi.
  destruct actual; try reflexivity. congruence.
Qed.

(** A mapping whose [$in] part holds, or is missing, is decided by its two
    range checks. *)
Lemma field_holds_passed (document : value) (key : string)
  (ops : list (string * value)) :
  check_in (_get_nested_value document key) ops = Ok true ->
  field_holds document key (VDict ops) =
  (ok_gte <- check_gte (_get_nested_value document key) ops ;;
   if negb ok_gte then Ok false
   else check_lte (_get_nested_value document key) ops).
Proof.
  intros Hin. unfold field_holds. rewrite Hin. reflexivity.
Qed.

(** [<] and [>] raise nothing but [TypeError]. *)
Lemma py_lt_raises : forall a b e, py_lt a b = Raise e -> e = TypeError.
Proof.
  induction a as [| x | x | x | xs IH | d IH] using value_nested_ind;
    intros b e H; destruct b as [| y | y | y | ys | d2]; simpl in H;
    try discriminate; try (injection H as H; symmetry; exact H).
  revert ys H. induction IH as [|x xs Hx _ IHxs]; intros ys H.
  - destruct ys; discriminate.
  - destruct ys as [|y ys]; [discriminate|].
    destruct (py_eq x y); [apply (IHxs ys H) | apply (Hx y e H)].
Qed.

Lemma py_gt_raises : forall a b e, py_gt a b = Raise e -> e = TypeError.
Proof.
  induction a as [| x | x | x | xs IH | d IH] using value_nested_ind;
    intros b e H; destruct b as [| y | y | y | ys | d2]; simpl in H;
    try discriminate; try (injection H as H; symmetry; exact H).
  revert ys H. induction IH as [|x xs Hx _ IHxs]; intros ys H.
  - destruct ys; discriminate.
  - destruct ys as [|y ys]; [discriminate|].
    destruct (py_eq x y); [apply (IHxs ys H) | apply (Hx y e H)].
Qed.

(** C2, as the code has it.  The constraints on a field are tried in the
    order [$in], [$gte], [$lte], and the first that fails ends the
    evaluation with no match: the bounds are not looked at when [$in] has
    failed, and the [$lte] bound is not when [$gte] has failed.  A range
    constraint that is reached fails, without an error, on a value that is
    absent or null; on a value that [<] and [>] can compare with the bounds
    the comparison decides, both bounds applying (for integers the closed
    interval, so 18 is in 15..20 and 12 and 25 are not); on a value that
    cannot be compared with a bound that is reached the evaluation raises
    [TypeError]. *)
Theorem C2_range_constraints (document : value) (key : string)
  (ops : list (string * value)) :
  let actual := _get_nested_value document key in
  (actual = VNone ->
   dict_has "$gte" ops || dict_has "$lte" ops = true ->
   forall b, check_in actual ops = Ok b ->
   _matches_query document [(key, VDict ops)] = Ok false) /\
  (forall lo hi below above,
      actual <> VNone -> check_in actual ops = Ok true ->
      dict_get "$gte" ops = Some lo -> dict_get "$lte" ops = Some hi ->
      py_lt actual lo = Ok below -> py_gt actual hi = Ok above ->
      _matches_query document [(key, VDict ops)] = Ok (negb below && negb above)) /\
  (forall n lo hi,
      actual = VInt n -> check_in actual ops = Ok true ->
      dict_get "$gte" ops = Some (VInt lo) -> dict_get "$lte" ops = Some (VInt hi) ->
      _matches_query document [(key, VDict ops)] = Ok ((lo <=? n) && (n <=? hi))) /\
  (forall lo e,
      actual <> VNone -> check_in actual ops = Ok true ->
      dict_get "$gte" ops = Some lo -> py_lt actual lo = Raise e ->
      _matches_query document [(key, VDict ops)] = Raise TypeError) /\
  (forall hi e,
      actual <> VNone -> check_in actual ops = Ok true ->
      dict_get "$gte" ops = None ->
      dict_get "$lte" ops = Some hi -> py_gt actual hi = Raise e ->
      _matches_query document [(key, VDict ops)] = Raise TypeError) /\
  (forall lo hi e,
      actual <> VNone -> check_in actual ops = Ok true ->
      dict_get "$gte" ops = Some lo -> py_lt actual lo = Ok false ->
      dict_get "$lte" ops = Some hi -> py_gt actual hi = Raise e ->
      _matches_query document [(key, VDict ops)] = Raise TypeError) /\
  (forall lo below,
      actual <> VNone -> check_in actual ops = Ok true ->
      dict_get "$gte" ops = Some lo -> dict_get "$lte" ops = None ->
      py_lt actual lo = Ok below ->
      _matches_query document [(key, VDict ops)] = Ok (negb below)) /\
  (forall hi above,
      actual <> VNone -> check_in actual ops = Ok true ->
      dict_get "$gte" ops = None -> dict_get "$lte" ops = Some hi ->
      py_gt actual hi = Ok above ->
      _matches_query document [(key, VDict ops)] = Ok (negb above)) /\
  (forall lo,
      actual <> VNone -> check_in actual ops = Ok true ->
      dict_get "$gte" ops = Some lo -> py_lt actual lo = Ok true ->
      _matches_query document [(key, VDict ops)] = Ok false) /\
  (check_in actual ops = Ok false ->
   _matches_query document [(key, VDict ops)] = Ok false) /\
  (forall e,
      check_in actual ops = Raise e ->
      _matches_query document [(key, VDict ops)] = Raise e).
Proof.
  intros actual. rewrite single_field.
  split; [|split; [|split; [|split; [|split; [|split; [|split;
    [|split; [|split; [|split]]]]]]]]].
  - intros Hnone Hhas b Hin. unfold field_holds. fold actual.
    rewrite Hin. simpl. rewrite Hnone.
    unfold check_gte, check_lte, dict_has in *.
    destruct b; simpl; [|reflexivity].
    destruct (dict_get "$gte" ops); simpl; [reflexivity|].
    destruct (dict_get "$lte" ops); simpl; [reflexivity|discriminate].
  - intros lo hi below above Hn Hin Hlo Hhi Hlt Hgt.
    rewrite field_holds_passed by exact Hin. fold actual.
    rewrite (check_gte_present actual lo), (check_lte_present actual hi)
      by assumption.
    rewrite Hlt, Hgt. simpl. destruct below; reflexivity.
  - intros n lo hi Hact Hin Hlo Hhi.
    rewrite field_holds_passed by exact Hin. fold actual.
    rewrite (check_gte_present actual (VInt lo)), (check_lte_present actual (VInt hi))
      by (assumption || (rewrite Hact; discriminate)).
    rewrite Hact. simpl.
    rewrite Z.gtb_ltb, <- !Z.leb_antisym.
    destruct (lo <=? n); reflexivity.
  - intros lo e Hn Hin Hlo Hlt.
    rewrite field_holds_passed by exact Hin. fold actual.
    rewrite (check_gte_present actual lo) by assumption.
    rewrite Hlt, (py_lt_raises _ _ _ Hlt). reflexivity.
  - intros hi e Hn Hin Hlo Hhi Hgt.
    rewrite field_holds_passed by exact Hin. fold actual.
    unfold check_gte. rewrite Hlo. simpl.
    rewrite (check_lte_present actual hi) by assumption.
    rewrite Hgt, (py_gt_raises _ _ _ Hgt). reflexivity.
  - intros lo hi e Hn Hin Hlo Hlt Hhi Hgt.
    rewrite field_holds_passed by exact Hin. fold actual.
    rewrite (check_gte_present actual lo), (check_lte_present actual hi)
      by assumption.
    rewrite Hlt, Hgt, (py_gt_raises _ _ _ Hgt). reflexivity.
  - intros lo below Hn Hin Hlo Hhi Hlt.
    rewrite field_holds_passed by exact Hin. fold actual.
    rewrite (check_gte_present actual lo) by assumption.
    unfold check_lte. rewrite Hhi, Hlt. simpl. destruct below; reflexivity.
  - intros hi above Hn Hin Hlo Hhi Hgt.
    rewrite field_holds_passed by exact Hin. fold actual.
    unfold check_gte. rewrite Hlo. simpl.
    rewrite (check_lte_present actual hi) by assumption.
    rewrite Hgt. reflexivity.
  - intros lo Hn Hin Hlo Hlt.
    rewrite field_holds_passed by exact Hin. fold actual.
    rewrite (check_gte_present actual lo) by assumption.
    rewrite Hlt. reflexivity.
  - intros Hin. unfold field_holds. fold actual. rewrite Hin. reflexivity.
  - intros e Hin. unfold field_holds. fold actual. rewrite Hin. reflexivity.
Qed.

Lemma C2_range_constraints_witness :
  _matches_query (VDict [("max_participants", VInt 18)])
    [("max_participants", VDict between_15_and_20)] = Ok true /\
  _matches_query (VDict [("max_participants", VInt 12)])
    [("max_participants", VDict between_15_and_20)] = Ok false /\
  _matches_query (VDict [("max_participants", VInt 25)])
    [("max_participants", VDict between_15_and_20)] = Ok false /\
  _matches_query (VDict [("name", VStr "Chess Club")])
    [("max_participants", VDict between_15_and_20)] = Ok false /\
  _matches_query (VDict [("max_participants", VStr "many")])
    [("max_participants", VDict between_15_and_20)] = Raise TypeError /\
  _matches_query (VDict [("max_participants", VInt 5)])
    [("max_participants", VDict [("$gte", VInt 10); ("$lte", VStr "x")])] =
  Ok false /\
  _matches_query (VDict [("max_participants", VInt 5)])
    [("max_participants", VDict [("$in", VList [VInt 7]); ("$gte", VStr "x")])] =
  Ok false.
Proof.
  split; [|split; [|split; [|split; [|split; [|split]]]]].
  - exact (proj1 (proj2 (proj2
      (C2_range_constraints (VDict [("max_participants", VInt 18)])
         "max_participants" between_15_and_20)))
      18 15 20 eq_refl eq_refl eq_refl eq_refl).
  - exact (proj1 (proj2 (proj2
      (C2_range_constraints (VDict [("max_participants", VInt 12)])
         "max_participants" between_15_and_20)))
      12 15 20 eq_refl eq_refl eq_refl eq_refl).
  - exact (proj1 (proj2 (proj2
      (C2_range_constraints (VDict [("max_participants", VInt 25)])
         "max_participants" between_15_and_20)))
      25 15 20 eq_refl eq_refl eq_refl eq_refl).
  - exact (proj1
      (C2_range_constraints (VDict [("name", VStr "Chess Club")])
         "max_participants" between_15_and_20)
      eq_refl eq_refl true eq_refl).
  - refine (proj1 (proj2 (proj2 (proj2
      (C2_range_constraints (VDict [("max_participants", VStr "many")])
         "max_participants" between_15_and_20))))
      (VInt 15) TypeError _ eq_refl eq_refl eq_refl).
    discriminate.
  - refine (proj1 (proj2 (proj2 (proj2 (proj2 (proj2 (proj2 (proj2 (proj2
      (C2_range_constraints (VDict [("max_participants", VInt 5)])
         "max_participants" [("$gte", VInt 10); ("$lte", VStr "x")])))))))))
      (VInt 10) _ eq_refl eq_refl eq_refl).
    discriminate.
  - exact (proj1 (proj2 (proj2 (proj2 (proj2 (proj2 (proj2 (proj2 (proj2 (proj2
      (C2_range_constraints (VDict [("max_participants", VInt 5)])
         "max_participants" [("$in", VList [VInt 7]); ("$gte", VStr "x")]))))))))))
      eq_refl).
Defined.

(** C2 as stated fails: a stored string cannot be ordered against the
    integer bound, and the evaluation raises instead of reporting no match. *)
Lemma C2_incomparable_raises :
  py_lt (VStr "many") (VInt 15) = Raise TypeError /\
  _matches_query (VDict [("max_participants", VStr "many")])
    [("max_participants", VDict [("$gte", VInt 15); ("$lte", VInt 20)])]
  = Raise TypeError.
Proof. split; reflexivity. Qed.

(** C9: a mapping given as the expected value is looked at through its
    keys [$in], [$gte] and [$lte] and nothing else: two mappings that agree
    under these three keys constrain alike.  A mapping with none of them
    constrains nothing: the field constraint holds for every document, also
    one in which the field is absent, and dropping it from a filter changes
    no verdict; so a filter that gives a nested document as the expected
    value selects every document, not the ones holding that nested
    document. *)
Theorem C9_unrecognised_mapping (document : value) (key : string)
  (ops : list (string * value)) :
  (forall ops',
      dict_get "$in" ops' = dict_get "$in" ops ->
      dict_get "$gte" ops' = dict_get "$gte" ops ->
      dict_get "$lte" ops' = dict_get "$lte" ops ->
      field_holds document key (VDict ops') =
      field_holds document key (VDict ops)) /\
  (dict_has "$in" ops = false ->
   dict_has "$gte" ops = false ->
   dict_has "$lte" ops = false ->
   field_holds document key (VDict ops) = Ok true /\
   _matches_query document [(key, VDict ops)] = Ok true /\
   forall query,
     _matches_query document ((key, VDict ops) :: query) =
     _matches_query document query).
Proof.
  split.
  - intros ops' Hin Hgte Hlte.
    unfold field_holds, check_in, check_gte, check_lte.
    rewrite Hin, Hgte, Hlte. reflexivity.
  - intros Hin Hgte Hlte.
    assert (Hf : field_holds document key (VDict ops) = Ok true).
    { unfold field_holds, check_in, check_gte, check_lte, dict_has in *.
      destruct (dict_get "$in" ops); [discriminate|].
      destruct (dict_get "$gte" ops); [discriminate|].
      destruct (dict_get "$lte" ops); [discriminate|]. reflexivity. }
    split; [exact Hf|split].
    + rewrite single_field. exact Hf.
    + intros query. rewrite (matches_query_fields document query).
      change (_matches_query document ((key, VDict ops) :: query))
        with (holds <- field_holds document key (VDict ops) ;;
              if holds then matches_fields document query else Ok false).
      rewrite Hf. reflexivity.
Qed.

Lemma C9_unrecognised_mapping_witness :
  _matches_query (VDict [("_id", VStr "Art Club")])
    [("schedule_details", VDict [("days", VList [VStr "Monday"])])] = Ok true.
Proof.
  exact (proj1 (proj2
    (proj2 (C9_unrecognised_mapping (VDict [("_id", VStr "Art Club")])
              "schedule_details" [("days", VList [VStr "Monday"])])
       eq_refl eq_refl eq_refl))).
Defined.

(** ** Equality of values *)


Lemma py_eq_list (xs ys : list value) :
  py_eq (VList xs) (VList ys) = all2 xs ys.
Proof.
  destruct xs, ys; reflexivity.
Qed.

Lemma py_eq_dict (d1 d2 : list (string * value)) :
  py_eq (VDict d1) (VDict d2) =
  Nat.eqb (List.length d1) (List.length d2) && forallb (field_in d2) d1.
Proof.
  simpl. f_equal.
  induction d1 as [|[k v] d1 IH]; simpl; [reflexivity|].
  unfold field_in at 1. simpl. rewrite <- IH. reflexivity.
Qed.

Lemma wf_list (xs : list value) :
  wf_value (VList xs) = forallb wf_value xs.
Proof. reflexivity. Qed.

Lemma wf_dict (d : list (string * value)) :
  wf_value (VDict d) =
  distinct (map fst d) && forallb (fun kv => wf_value (snd kv)) d.
Proof.
  simpl. f_equal. induction d as [|[k v] d IH]; simpl; [reflexivity|].
  rewrite <- IH. reflexivity.
Qed.

Lemma distinct_NoDup (ks : list string) : distinct ks = true -> NoDup ks.
Proof.
  induction ks as [|k ks IH]; simpl; intros H; [constructor|].
  apply andb_true_iff in H as [Hk Hd]. constructor; [|auto].
  intros Hin. apply negb_true_iff in Hk.
  assert (existsb (String.eqb k) ks = true); [|congruence].
  apply existsb_exists. exists k. split; [exact Hin|apply String.eqb_refl].
Qed.

Lemma dict_get_In {V : Type} (k : string) (d : list (string * V)) (v : V) :
  dict_get k d = Some v -> In (k, v) d.
Proof.
  induction d as [|[k' v'] d IH]; simpl; [discriminate|].
  destruct (String.eqb_spec k' k).
  - intros H; inversion H; subst. left; reflexivity.
  - intros H. right. auto.
Qed.

Lemma In_dict_get {V : Type} (k : string) (d : list (string * V)) (v : V) :
  NoDup (map fst d) -> In (k, v) d -> dict_get k d = Some v.
Proof.
  induction d as [|[k' v'] d IH]; simpl; [contradiction|].
  intros Hnd [Heq | Hin]; inversion Hnd; subst.
  - inversion Heq; subst. rewrite String.eqb_refl. reflexivity.
  - destruct (String.eqb_spec k' k).
    + subst. exfalso. apply H1. apply (in_map fst) in Hin. exact Hin.
    + auto.
Qed.

Lemma dict_get_key {V : Type} (k : string) (d : list (string * V)) :
  In k (map fst d) -> exists v, dict_get k d = Some v.
Proof.
  induction d as [|[k' v'] d IH]; simpl; [contradiction|].
  destruct (String.eqb_spec k' k); [eauto|].
  intros [H | H]; [congruence | auto].
Qed.

(** On well-formed values [==] is symmetric. *)
Lemma py_eq_sym_true :
  forall a, wf_value a = true ->
  forall b, wf_value b = true -> py_eq a b = true -> py_eq b a = true.
Proof.
  induction a as [| x | x | x | xs IH | d1 IH] using value_nested_ind;
    intros Hwa b Hwb Heq; destruct b as [| y | y | y | ys | d2];
    try (simpl in Heq; discriminate); try reflexivity.
  - simpl in *. destruct x, y; auto.
  - simpl in *. rewrite Z.eqb_sym. exact Heq.
  - simpl in *. rewrite Z.eqb_sym. exact Heq.
  - simpl in *. rewrite Z.eqb_sym. exact Heq.
  - simpl in *. rewrite String.eqb_sym. exact Heq.
  - rewrite py_eq_list in *. rewrite wf_list in *.
    revert ys Hwb Heq.
    induction xs as [|x xs IHxs]; intros [|y ys] Hwb Heq;
      simpl in *; try discriminate; try reflexivity.
    inversion IH as [|? ? Hx Hxs]; subst.
    apply andb_true_iff in Hwa as [Hwx Hwxs].
    apply andb_true_iff in Hwb as [Hwy Hwys].
    apply andb_true_iff in Heq as [Hxy Hrest].
    apply andb_true_iff. split; [apply Hx; assumption|].
    apply IHxs; assumption.
  - rewrite py_eq_dict in *. rewrite wf_dict in *.
    apply andb_true_iff in Hwa as [Hd1 Hw1].
    apply andb_true_iff in Hwb as [Hd2 Hw2].
    apply andb_true_iff in Heq as [Hlen Hsub].
    apply Nat.eqb_eq in Hlen.
    apply distinct_NoDup in Hd1, Hd2.
    rewrite forallb_forall in Hsub, Hw1, Hw2. rewrite Forall_forall in IH.
    assert (Hincl : incl (map fst d2) (map fst d1)).
    { apply NoDup_length_incl; [exact Hd1 | rewrite !length_map; lia |].
      intros k Hk. apply in_map_iff in Hk as [[k' v] [Hk Hin]].
      simpl in Hk; subst k'. specialize (Hsub _ Hin). unfold field_in in Hsub.
      simpl in Hsub. destruct (dict_get k d2) eqn:Hg; [|discriminate].
      apply dict_get_In in Hg. apply (in_map fst) in Hg. exact Hg. }
    apply andb_true_iff. split; [apply Nat.eqb_eq; lia|].
    apply forallb_forall. intros [k w] Hin2. unfold field_in. simpl.
    assert (Hk : In k (map fst d1)).
    { apply Hincl. apply (in_map fst) in Hin2. exact Hin2. }
    destruct (dict_get_key k d1 Hk) as [v Hg1]. rewrite Hg1.
    pose proof (dict_get_In _ _ _ Hg1) as Hin1.
    pose proof (Hsub _ Hin1) as Hf. unfold field_in in Hf. simpl in Hf.
    rewrite (In_dict_get k d2 w Hd2 Hin2) in Hf.
    apply (IH _ Hin1); [apply (Hw1 _ Hin1) | apply (Hw2 _ Hin2) | exact Hf].
Qed.

Lemma py_eq_sym (a b : value) :
  wf_value a = true -> wf_value b = true -> py_eq a b = py_eq b a.
Proof.
  intros Ha Hb.
  destruct (py_eq a b) eqn:Hab, (py_eq b a) eqn:Hba; try reflexivity.
  - rewrite (py_eq_sym_true a Ha b Hb Hab) in Hba. discriminate.
  - rewrite (py_eq_sym_true b Hb a Ha Hba) in Hab. discriminate.
Qed.

Lemma wf_get_path (parts : list string) :
  forall v, wf_value v = true -> wf_value (get_path v parts) = true.
Proof.
  induction parts as [|part rest IH]; intros v Hw; simpl; [exact Hw|].
  destruct v; try reflexivity.
  destruct (dict_get part fields) eqn:Hg; [|reflexivity].
  apply IH. rewrite wf_dict in Hw. apply andb_true_iff in Hw as [_ Hw].
  rewrite forallb_forall in Hw. apply (Hw _ (dict_get_In _ _ _ Hg)).
Qed.

(** Some candidate is in the sequence exactly when some element of the
    sequence is among the candidates. *)
Lemma any_in_swap (items candidates : list value) :
  forallb wf_value items = true ->
  forallb wf_value candidates = true ->
  existsb (fun item => py_in item items) candidates =
  existsb (fun element => py_in element candidates) items.
Proof.
  intros Hi Hc. rewrite forallb_forall in Hi, Hc.
  apply eq_true_iff_eq. unfold py_in. rewrite !existsb_exists. split.
  - intros [c [Hcin Hex]]. apply existsb_exists in Hex as [el [Helin Heq]].
    exists el. split; [exact Helin|]. apply existsb_exists.
    exists c. split; [exact Hcin|].
    rewrite py_eq_sym; auto.
  - intros [el [Helin Hex]]. apply existsb_exists in Hex as [c [Hcin Heq]].
    exists c. split; [exact Hcin|]. apply existsb_exists.
    exists el. split; [exact Helin|].
    rewrite py_eq_sym; auto.
Qed.

Lemma check_in_spec (actual : value) (ops : list (string * value))
  (candidates : list value) :
  wf_value actual = true ->
  forallb wf_value candidates = true ->
  dict_get "$in" ops = Some (VList candidates) ->
  check_in actual ops = Ok (in_spec actual candidates).
Proof.
  intros Hwa Hwc Hin. unfold check_in. rewrite Hin.
  destruct actual as [| b | z | s | items | d]; try reflexivity.
  simpl. rewrite any_in_swap by assumption. reflexivity.
Qed.

(** C3, as the code has it: under a membership constraint with a list of
    candidates, a document whose field holds a sequence passes exactly
    when one element of the sequence appears among the candidates, and a
    document whose field holds anything else passes exactly when that
    value appears among them.  A path that does not resolve counts as the
    value [None]: a document without the field passes exactly when [None]
    is a candidate.  A document that does not pass is not selected,
    whatever else the filter asks; with no range constraint beside it, a
    document that passes matches. *)
Theorem C3_membership (document : value) (key : string)
  (ops : list (string * value)) (candidates : list value) :
  wf_value document = true ->
  forallb wf_value candidates = true ->
  dict_get "$in" ops = Some (VList candidates) ->
  let passes :=
    match resolve document (split_dot key) with
    | Some resolved => in_spec resolved candidates
    | None => py_in VNone candidates
    end in
  check_in (_get_nested_value document key) ops = Ok passes /\
  (passes = false ->
   forall query, In (key, VDict ops) query ->
                 _matches_query document query <> Ok true) /\
  (dict_has "$gte" ops = false ->
   dict_has "$lte" ops = false ->
   _matches_query document [(key, VDict ops)] = Ok passes).
Proof.
  intros Hwd Hwc Hin passes.
  pose proof (wf_get_path (split_dot key) document Hwd) as Hwa.
  fold (_get_nested_value document key) in Hwa.
  pose proof (check_in_spec _ ops candidates Hwa Hwc Hin) as Hcheck.
  assert (Hpasses : in_spec (_get_nested_value document key) candidates = passes).
  { unfold passes, _get_nested_value. rewrite get_path_resolve.
    destruct (resolve document (split_dot key)); reflexivity. }
  rewrite Hpasses in Hcheck.
  split; [exact Hcheck|]. split.
  - intros Hout query Hq. rewrite matches_query_fields.
    apply matches_fields_in with (key := key) (expected := VDict ops);
      [exact Hq|].
    unfold field_holds. rewrite Hcheck, Hout. reflexivity.
  - intros Hgte Hlte. rewrite single_field.
    unfold field_holds. rewrite Hcheck.
    unfold check_gte, check_lte, dict_has in *.
    destruct (dict_get "$gte" ops); [discriminate|].
    destruct (dict_get "$lte" ops); [discriminate|].
    destruct passes; reflexivity.
Qed.

Lemma C3_membership_witness :
  _matches_query monday_friday
    [("schedule_details.days", VDict [("$in", VList [VStr "Monday"])])]
  = Ok true /\
  _matches_query tuesday_only
    [("schedule_details.days", VDict [("$in", VList [VStr "Monday"])])]
  = Ok false /\
  _matches_query tuesday_only
    [("room", VDict [("$in", VList [VStr "B12"; VNone])])]
  = Ok true.
Proof.
  split; [|split].
  - exact (proj2 (proj2
      (C3_membership monday_friday "schedule_details.days"
         [("$in", VList [VStr "Monday"])] [VStr "Monday"]
         eq_refl eq_refl eq_refl)) eq_refl eq_refl).
  - exact (proj2 (proj2
      (C3_membership tuesday_only "schedule_details.days"
         [("$in", VList [VStr "Monday"])] [VStr "Monday"]
         eq_refl eq_refl eq_refl)) eq_refl eq_refl).
  - exact (proj2 (proj2
      (C3_membership tuesday_only "room"
         [("$in", VList [VStr "B12"; VNone])] [VStr "B12"; VNone]
         eq_refl eq_refl eq_refl)) eq_refl eq_refl).
Defined.

(** C3 as stated fails: the path [room] does not resolve in the document,
    so there is no resolved value to look for among the candidates, and
    the membership constraint is satisfied all the same, by the candidate
    null. *)
Lemma C3_absent_among_candidates :
  resolve (VDict [("_id", VStr "Chess Club")]) (split_dot "room") = None /\
  _matches_query (VDict [("_id", VStr "Chess Club")])
    [("room", VDict [("$in", VList [VNone])])] = Ok true.
Proof. split; reflexivity. Qed.

(** ** [update_one] *)

Lemma dict_get_update {V : Type} (k : string) (f : V -> V) (d : list (string * V)) :
  dict_get k (dict_update k f d) = option_map f (dict_get k d).
Proof.
  induction d as [|[k' v] d IH]; simpl; [reflexivity|].
  destruct (String.eqb k' k) eqn:E; simpl; rewrite E; [reflexivity|exact IH].
Qed.

(** After the in-place change the path leads to the changed list. *)
Lemma get_update_path (f : list value -> list value) (parts : list string) :
  forall v xs,
    get_path v parts = VList xs ->
    get_path (update_path f parts v) parts = VList (f xs).
Proof.
  induction parts as [|part rest IH]; intros v xs Hget; simpl in *.
  - subst v. reflexivity.
  - destruct v; try discriminate. simpl.
    rewrite dict_get_update.
    destruct (dict_get part fields) as [x|]; [|discriminate]. simpl.
    apply IH. exact Hget.
Qed.

Lemma remove_first_split (v : value) (xs : list value) :
  py_in v xs = true ->
  exists before x after,
    xs = before ++ x :: after /\ py_eq x v = true /\
    py_in v before = false /\ remove_first v xs = before ++ after.
Proof.
  induction xs as [|x xs IH]; simpl; [discriminate|].
  destruct (py_eq x v) eqn:E; simpl.
  - intros _. exists [], x, xs. repeat split; auto.
  - intros Hin. destruct (IH Hin) as (b & y & a & Hxs & Hy & Hb & Hr).
    exists (x :: b), y, a. subst xs. simpl. rewrite E, Hr. auto.
Qed.

Lemma push_step_list (document : value) (modified : Z) (field : string)
  (v : value) (xs : list value) :
  _get_nested_value document field = VList xs ->
  exists document',
    push_step (document, modified) (field, v) = (document', 1) /\
    _get_nested_value document' field = VList (xs ++ [v]).
Proof.
  intros Hget. unfold push_step. rewrite Hget.
  eexists. split; [reflexivity|].
  apply (get_update_path (fun xs => xs ++ [v])). exact Hget.
Qed.

Lemma push_step_other (document : value) (modified : Z) (field : string)
  (v : value) :
  is_list (_get_nested_value document field) = false ->
  push_step (document, modified) (field, v) = (document, modified).
Proof.
  intros Hget. unfold push_step.
  destruct (_get_nested_value document field); try reflexivity.
  discriminate.
Qed.

Lemma pull_step_present (document : value) (modified : Z) (field : string)
  (v : value) (xs : list value) :
  _get_nested_value document field = VList xs ->
  py_in v xs = true ->
  exists document',
    pull_step (document, modified) (field, v) = (document', 1) /\
    _get_nested_value document' field = VList (remove_first v xs).
Proof.
  intros Hget Hin. unfold pull_step. rewrite Hget, Hin.
  eexists. split; [reflexivity|].
  apply (get_update_path (remove_first v)). exact Hget.
Qed.

Lemma pull_step_other (document : value) (modified : Z) (field : string)
  (v : value) :
  (forall xs, _get_nested_value document field = VList xs -> py_in v xs = false) ->
  pull_step (document, modified) (field, v) = (document, modified).
Proof.
  intros Hget. unfold pull_step.
  destruct (_get_nested_value document field); try reflexivity.
  rewrite (Hget items eq_refl). reflexivity.
Qed.

(** [update_one] runs the body on the first document the filter selects
    and puts the outcome in that document's slot. *)
Lemma update_first_hit (before after : collection) (identifier document : value)
  (query update : list (string * value)) :
  Forall (fun kv => _matches_query (snd kv) query = Ok false) before ->
  _matches_query document query = Ok true ->
  update_first (before ++ (identifier, document) :: after) query update =
  (before ++ (identifier, fst (apply_update document update)) :: after,
   snd (apply_update document update)).
Proof.
  intros Hb Hm. induction Hb as [|[k d] before Hd Hb IH]; simpl.
  - rewrite Hm. destruct (apply_update document update). reflexivity.
  - simpl in Hd. rewrite Hd, IH. reflexivity.
Qed.

Lemma update_first_miss (self : collection) (query update : list (string * value)) :
  Forall (fun kv => _matches_query (snd kv) query = Ok false) self ->
  update_first self query update = (self, Ok 0).
Proof.
  intros H. induction H as [|[k d] rest Hd Hr IH]; simpl; [reflexivity|].
  simpl in Hd. rewrite Hd, IH. reflexivity.
Qed.

Lemma push_step_flag (document : value) (modified : Z) (pair : string * value) :
  push_step (document, modified) pair = (document, modified) \/
  snd (push_step (document, modified) pair) = 1.
Proof.
  destruct pair as [field v]. unfold push_step.
  destruct (_get_nested_value document field); auto.
Qed.

Lemma pull_step_flag (document : value) (modified : Z) (pair : string * value) :
  pull_step (document, modified) pair = (document, modified) \/
  snd (pull_step (document, modified) pair) = 1.
Proof.
  destruct pair as [field v]. unfold pull_step.
  destruct (_get_nested_value document field); auto.
  destruct (py_in v items); auto.
Qed.

Section FoldFlag.
Variable step : value * Z -> string * value -> value * Z.
Hypothesis step_flag :
  forall document modified pair,
    step (document, modified) pair = (document, modified) \/
    snd (step (document, modified) pair) = 1.

Lemma fold_flag (pairs : list (string * value)) :
  forall document modified,
    fold_left step pairs (document, modified) = (document, modified) \/
    snd (fold_left step pairs (document, modified)) = 1.
Proof.
  induction pairs as [|pair pairs IH]; intros document modified; simpl.
  - left. reflexivity.
  - destruct (step_flag document modified pair) as [Hs | Hs].
    + rewrite Hs. apply IH.
    + destruct (step (document, modified) pair) as [d1 m1]. simpl in Hs.
      subst m1. right. destruct (IH d1 1) as [H | H]; [rewrite H|]; auto.
Qed.
End FoldFlag.

Lemma push_fold_flag (pairs : list (string * value)) :
  forall document modified,
    fold_left push_step pairs (document, modified) = (document, modified) \/
    snd (fold_left push_step pairs (document, modified)) = 1.
Proof. exact (fold_flag push_step push_step_flag pairs). Qed.

Lemma pull_fold_flag (pairs : list (string * value)) :
  forall document modified,
    fold_left pull_step pairs (document, modified) = (document, modified) \/
    snd (fold_left pull_step pairs (document, modified)) = 1.
Proof. exact (fold_flag pull_step pull_step_flag pairs). Qed.

Lemma apply_update_one_push (document : value) (field : string) (v : value) :
  apply_update document [("$push", VDict [(field, v)])] =
  (fst (push_step (document, 0) (field, v)),
   Ok (snd (push_step (document, 0) (field, v)))).
Proof. reflexivity. Qed.

Lemma apply_update_one_pull (document : value) (field : string) (v : value) :
  apply_update document [("$pull", VDict [(field, v)])] =
  (fst (pull_step (document, 0) (field, v)),
   Ok (snd (pull_step (document, 0) (field, v)))).
Proof. reflexivity. Qed.

(** *** A push and the pull of the same value *)

Lemma dict_update_ext {V : Type} (k : string) (f g : V -> V) (d : list (string * V)) :
  (forall v, f v = g v) -> dict_update k f d = dict_update k g d.
Proof.
  intros H. induction d as [|[k' v] d IH]; simpl; [reflexivity|].
  rewrite H, IH. reflexivity.
Qed.

Lemma dict_update_twice {V : Type} (k : string) (f g : V -> V) (d : list (string * V)) :
  dict_update k g (dict_update k f d) = dict_update k (fun v => g (f v)) d.
Proof.
  induction d as [|[k' v] d IH]; simpl; [reflexivity|].
  destruct (String.eqb k' k) eqn:E; simpl; rewrite E; [reflexivity|].
  rewrite IH. reflexivity.
Qed.

Lemma dict_update_same {V : Type} (k : string) (f : V -> V) (d : list (string * V)) :
  (forall v, dict_get k d = Some v -> f v = v) -> dict_update k f d = d.
Proof.
  induction d as [|[k' v] d IH]; simpl; [reflexivity|].
  destruct (String.eqb k' k) eqn:E; intros H.
  - rewrite (H v eq_refl). reflexivity.
  - rewrite (IH H). reflexivity.
Qed.

Lemma update_path_twice (f g : list value -> list value) (parts : list string) :
  forall document,
    update_path g parts (update_path f parts document) =
    update_path (fun xs => g (f xs)) parts document.
Proof.
  induction parts as [|part rest IH]; intros document; simpl.
  - destruct document; reflexivity.
  - destruct document; try reflexivity. simpl.
    rewrite dict_update_twice. f_equal. apply dict_update_ext. exact IH.
Qed.

Lemma update_path_same (f : list value -> list value) (parts : list string) :
  forall document xs,
    get_path document parts = VList xs -> f xs = xs ->
    update_path f parts document = document.
Proof.
  induction parts as [|part rest IH]; intros document xs Hget Hf; simpl in *.
  - subst document. rewrite Hf. reflexivity.
  - destruct document; try reflexivity. f_equal.
    apply dict_update_same. intros v Hv. rewrite Hv in Hget.
    apply (IH v xs); assumption.
Qed.

Lemma py_eq_refl : forall v, wf_value v = true -> py_eq v v = true.
Proof.
  induction v as [| b | z | s | xs IH | d IH] using value_nested_ind; intros Hw.
  - reflexivity.
  - destruct b; reflexivity.
  - apply Z.eqb_refl.
  - apply String.eqb_refl.
  - rewrite py_eq_list. rewrite wf_list in Hw.
    induction IH as [|x xs Hx _ IHxs]; [reflexivity|].
    simpl in *. apply andb_true_iff in Hw as [Hwx Hwxs].
    rewrite (Hx Hwx), (IHxs Hwxs). reflexivity.
  - rewrite py_eq_dict. rewrite wf_dict in Hw.
    apply andb_true_iff in Hw as [Hd Hw]. apply distinct_NoDup in Hd.
    rewrite Nat.eqb_refl. simpl. apply forallb_forall. intros [k x] Hin.
    unfold field_in. simpl. rewrite (In_dict_get k d x Hd Hin).
    rewrite Forall_forall in IH. apply (IH _ Hin).
    rewrite forallb_forall in Hw. apply (Hw _ Hin).
Qed.

Lemma remove_first_last (v : value) (xs : list value) :
  py_in v xs = false -> py_eq v v = true -> remove_first v (xs ++ [v]) = xs.
Proof.
  intros Hin Hv. induction xs as [|x xs IH]; simpl in *.
  - rewrite Hv. reflexivity.
  - apply orb_false_iff in Hin as [Hx Hin]. rewrite Hx, (IH Hin). reflexivity.
Qed.

(** The push of a new value and the pull of it cancel on the document. *)
Lemma push_pull_document (document : value) (field : string) (v : value)
  (xs : list value) :
  _get_nested_value document field = VList xs ->
  py_in v xs = false -> wf_value v = true ->
  exists pushed,
    push_step (document, 0) (field, v) = (pushed, 1) /\
    _get_nested_value pushed field = VList (xs ++ [v]) /\
    pull_step (pushed, 0) (field, v) = (document, 1).
Proof.
  intros Hget Hin Hw.
  exists (update_path (fun xs => xs ++ [v]) (split_dot field) document).
  assert (Hpushed : _get_nested_value
            (update_path (fun xs => xs ++ [v]) (split_dot field) document) field =
            VList (xs ++ [v])).
  { apply (get_update_path (fun xs => xs ++ [v])). exact Hget. }
  split; [unfold push_step; rewrite Hget; reflexivity|].
  split; [exact Hpushed|].
  unfold pull_step. rewrite Hpushed.
  unfold py_in at 1. rewrite existsb_app. simpl.
  rewrite (py_eq_refl v Hw), orb_true_r.
  rewrite update_path_twice. f_equal.
  apply (update_path_same _ _ _ xs); [exact Hget|].
  apply remove_first_last; [exact Hin | apply py_eq_refl; exact Hw].
Qed.



Lemma update_first_keys (self : collection) (query update : list (string * value)) :
  keys (fst (update_first self query update)) = keys self.
Proof.
  induction self as [|[k d] rest IH]; simpl; [reflexivity|].
  destruct (_matches_query d query) as [[|]|e]; simpl; try reflexivity.
  - destruct (apply_update d update). reflexivity.
  - destruct (update_first rest query update) as [rest' r]. simpl in *.
    rewrite IH. reflexivity.
Qed.

(** A slot that [update_one] changed is the slot of the first document the
    filter selects. *)
Lemma update_first_frame (query update : list (string * value)) :
  forall (self : collection) (i : nat),
    nth_error (fst (update_first self query update)) i <> nth_error self i ->
    (exists kd, nth_error self i = Some kd /\
                _matches_query (snd kd) query = Ok true) /\
    (forall j kd, (j < i)%nat -> nth_error self j = Some kd ->
                  _matches_query (snd kd) query = Ok false).
Proof.
  induction self as [|[k d] rest IH]; intros i Hne; simpl in Hne.
  - exfalso. apply Hne. reflexivity.
  - destruct (_matches_query d query) as [[|]|e] eqn:Hm.
    + destruct (apply_update d update) as [d' r]. simpl in Hne.
      destruct i as [|i]; simpl in *.
      * split; [exists (k, d); auto | intros j kd Hj; lia].
      * exfalso. apply Hne. reflexivity.
    + destruct (update_first rest query update) as [rest' r] eqn:Hu.
      simpl in *. destruct i as [|i]; simpl in *.
      * exfalso. apply Hne. reflexivity.
      * destruct (IH i Hne) as [Hhit Hprev]. split; [exact Hhit|].
        intros [|j] kd Hj Hnth; simpl in Hnth.
        -- inversion Hnth; subst. exact Hm.
        -- apply (Hprev j); [lia | exact Hnth].
    + exfalso. apply Hne. reflexivity.
Qed.

(** The body of [update_one] on a shaped update: no exception, a count of 0
    or 1, and the document as it was when the count is 0. *)
Lemma apply_update_shaped (document : value) (update : list (string * value)) :
  update_shaped update = true ->
  exists n, snd (apply_update document update) = Ok n /\
            (n = 0 \/ n = 1) /\
            (n = 0 -> fst (apply_update document update) = document).
Proof.
  unfold update_shaped, apply_update, run_push, run_pull.
  intros Hs. apply andb_true_iff in Hs as [Hpush Hpull].
  assert (Hstages : forall pushes pulls,
             let st := fold_left pull_step pulls
                         (fold_left push_step pushes (document, 0)) in
             (snd st = 0 \/ snd st = 1) /\ (snd st = 0 -> fst st = document)).
  { intros pushes pulls. simpl.
    destruct (push_fold_flag pushes document 0) as [H1 | H1].
    - rewrite H1.
      destruct (pull_fold_flag pulls document 0) as [H2 | H2].
      + rewrite H2. simpl. auto.
      + rewrite H2. split; [auto | lia].
    - destruct (fold_left push_step pushes (document, 0)) as [d1 m1].
      simpl in H1. subst m1.
      destruct (pull_fold_flag pulls d1 1) as [H2 | H2]; rewrite H2.
      + simpl. split; [auto | lia].
      + split; [auto | lia]. }
  destruct (dict_get "$push" update) as [[| | | | |pushes]|];
    try discriminate;
    destruct (dict_get "$pull" update) as [[| | | | |pulls]|];
    try discriminate; simpl.
  - destruct (Hstages pushes pulls) as [H1 H2]. eexists. eauto.
  - destruct (Hstages pushes []) as [H1 H2]. eexists. eauto.
  - destruct (Hstages [] pulls) as [H1 H2]. eexists. eauto.
  - exists 0. auto.
Qed.

Lemma update_first_shaped (query update : list (string * value)) :
  update_shaped update = true ->
  forall self : collection,
    (forall kd, In kd self -> exists b, _matches_query (snd kd) query = Ok b) ->
    exists n, snd (update_first self query update) = Ok n /\
              (n = 0 \/ n = 1) /\
              (n = 0 -> fst (update_first self query update) = self).
Proof.
  intros Hs. induction self as [|[k d] rest IH]; intros Hok; simpl.
  - exists 0. auto.
  - destruct (Hok (k, d) (or_introl eq_refl)) as [b Hb]. simpl in Hb.
    rewrite Hb. destruct b.
    + destruct (apply_update_shaped d update Hs) as (n & Hn & Hrange & Hsame).
      destruct (apply_update d update) as [d' r]. simpl in *.
      exists n. repeat split; auto. intros Hz. rewrite (Hsame Hz). reflexivity.
    + destruct IH as (n & Hn & Hrange & Hsame).
      { intros kd Hin. apply Hok. right. exact Hin. }
      destruct (update_first rest query update) as [rest' r]. simpl in *.
      exists n. repeat split; auto. intros Hz. rewrite (Hsame Hz). reflexivity.
Qed.

(** An exception of the filter on a document that is reached ends the
    call: the store is as it was. *)
Lemma update_first_raise (before after : collection) (identifier document : value)
  (query update : list (string * value)) (e : exn) :
  Forall (fun kv => _matches_query (snd kv) query = Ok false) before ->
  _matches_query document query = Raise e ->
  update_first (before ++ (identifier, document) :: after) query update =
  (before ++ (identifier, document) :: after, Raise e).
Proof.
  intros Hb Hm. induction Hb as [|[k d] before Hd Hb IH]; simpl.
  - rewrite Hm. reflexivity.
  - simpl in Hd. rewrite Hd, IH. reflexivity.
Qed.

(** C5, as the code has it: [update_one] keeps every identifier in its slot
    and changes at most one document, the first one in iteration order
    that the filter selects, however many it selects.  When the filter
    selects none the store is returned as it was with modified-count 0.
    With an update of the expected shape and a filter that can be
    evaluated on the documents, no exception is raised, the count is 0 or
    1, and a count of 0 means that nothing was changed.  When the filter
    raises on a document that is reached before any is selected, the call
    raises that exception and the store is as it was. *)
Theorem C5_first_match_only (self : collection)
  (query update : list (string * value)) :
  keys (fst (update_one self query update)) = keys self /\
  (forall i,
      nth_error (fst (update_one self query update)) i <> nth_error self i ->
      (exists kd, nth_error self i = Some kd /\
                  _matches_query (snd kd) query = Ok true) /\
      (forall j kd, (j < i)%nat -> nth_error self j = Some kd ->
                    _matches_query (snd kd) query = Ok false)) /\
  ((forall kd, In kd self -> _matches_query (snd kd) query = Ok false) ->
   update_one self query update = (self, Ok 0)) /\
  (update_shaped update = true ->
   (forall kd, In kd self -> exists b, _matches_query (snd kd) query = Ok b) ->
   exists n, snd (update_one self query update) = Ok n /\
             (n = 0 \/ n = 1) /\
             (n = 0 -> fst (update_one self query update) = self)) /\
  (forall before identifier document after e,
      self = before ++ (identifier, document) :: after ->
      (forall kd, In kd before -> _matches_query (snd kd) query = Ok false) ->
      _matches_query document query = Raise e ->
      update_one self query update = (self, Raise e)).
Proof.
  unfold update_one. split; [|split; [|split; [|split]]].
  - apply update_first_keys.
  - apply update_first_frame.
  - intros Hnone. apply update_first_miss. apply Forall_forall. exact Hnone.
  - intros Hs Hok. apply update_first_shaped; assumption.
  - intros before identifier document after e Hself Hbefore Hraise. subst self.
    apply update_first_raise; [apply Forall_forall; exact Hbefore | exact Hraise].
Qed.

Lemma C5_first_match_only_witness :
  update_one two_full_clubs [("_id", VStr "Drama Club")] add_student =
  (two_full_clubs, Ok 0) /\
  (exists n, snd (update_one two_full_clubs [] add_student) = Ok n /\
             (n = 0 \/ n = 1) /\
             (n = 0 -> fst (update_one two_full_clubs [] add_student) = two_full_clubs)) /\
  update_one two_full_clubs [("_id", VDict [("$gte", VInt 5)])] add_student =
  (two_full_clubs, Raise TypeError).
Proof.
  split; [|split].
  - apply (proj1 (proj2 (proj2
      (C5_first_match_only two_full_clubs [("_id", VStr "Drama Club")]
         add_student)))).
    intros kd [H | [H | []]]; subst kd; reflexivity.
  - apply (proj1 (proj2 (proj2 (proj2
      (C5_first_match_only two_full_clubs [] add_student))))).
    + reflexivity.
    + intros kd [H | [H | []]]; subst kd; exists true; reflexivity.
  - apply (proj2 (proj2 (proj2 (proj2
      (C5_first_match_only two_full_clubs [("_id", VDict [("$gte", VInt 5)])]
         add_student))))
      [] (VStr "Chess Club") chess_club [(VStr "Math Club", math_club)]
      TypeError eq_refl).
    + intros kd [].
    + reflexivity.
Defined.

(** C5 as stated fails: the filter selects neither document, the first
    has no number that large and the second cannot be compared at all, and
    [update_one] raises instead of returning modified-count 0. *)
Lemma C5_unmatched_filter_raises :
  (forall kd,
      In kd [(VInt 1, VDict [("_id", VInt 1); ("v", VInt 1)]);
             (VInt 2, VDict [("_id", VInt 2); ("v", VStr "s")])] ->
      _matches_query (snd kd) [("v", VDict [("$gte", VInt 5)])] <> Ok true) /\
  update_one [(VInt 1, VDict [("_id", VInt 1); ("v", VInt 1)]);
              (VInt 2, VDict [("_id", VInt 2); ("v", VStr "s")])]
             [("v", VDict [("$gte", VInt 5)])] add_student =
  ([(VInt 1, VDict [("_id", VInt 1); ("v", VInt 1)]);
    (VInt 2, VDict [("_id", VInt 2); ("v", VStr "s")])],
   Raise TypeError).
Proof.
  split; [|reflexivity].
  intros kd [H | [H | []]]; subst kd; discriminate.
Qed.

(** ** The store: identifiers and iteration order *)

Lemma deepcopy_id (v : value) : deepcopy v = v.
Proof.
  induction v as [| b | z | s | xs IH | d IH] using value_nested_ind;
    try reflexivity; simpl; f_equal.
  - induction IH as [|x xs Hx _ IHxs]; simpl; [reflexivity|].
    rewrite Hx, IHxs. reflexivity.
  - induction IH as [|[k x] d Hx _ IHd]; simpl in *; [reflexivity|].
    rewrite Hx, IHd. reflexivity.
Qed.

Lemma store_set_keys (k doc : value) (self : collection) :
  keys (store_set k doc self) =
  if py_in k (keys self) then keys self else keys self ++ [k].
Proof.
  induction self as [|[k' d] rest IH]; simpl; [reflexivity|].
  destruct (py_eq k' k); simpl; [reflexivity|].
  rewrite IH. fold (py_in k (keys rest)).
  destruct (py_in k (keys rest)); reflexivity.
Qed.

(** Assigning under a stored identifier fills the slot that identifier
    already has. *)
Lemma store_set_in_place (k doc : value) (self : collection) :
  py_in k (keys self) = true ->
  exists before k' old after,
    self = before ++ (k', old) :: after /\
    store_set k doc self = before ++ (k', doc) :: after /\
    py_eq k' k = true /\ py_in k (keys before) = false.
Proof.
  induction self as [|[k' d] rest IH]; simpl; [discriminate|].
  destruct (py_eq k' k) eqn:E; simpl.
  - intros _. exists [], k', d, rest. auto.
  - intros Hin. destruct (IH Hin) as (b & k0 & old & a & Hs & Hset & Hk & Hb).
    exists ((k', d) :: b), k0, old, a. simpl. rewrite Hs at 1. rewrite Hset, E.
    auto.
Qed.

Lemma unique_ids_app (ks : list value) (k : value) :
  unique_ids ks = true -> hashable k = true -> py_in k ks = false ->
  unique_ids (ks ++ [k]) = true.
Proof.
  induction ks as [|k' ks IH]; simpl; intros Hu Hh Hin.
  - rewrite Hh. reflexivity.
  - apply andb_true_iff in Hu as [Hu1 Hu]. apply andb_true_iff in Hu1 as [Hk' Hnot].
    apply orb_false_iff in Hin as [Hne Hin].
    rewrite Hk', IH by assumption. rewrite existsb_app. simpl.
    apply negb_true_iff in Hnot. rewrite Hnot, Hne. reflexivity.
Qed.

Lemma insert_one_ok (self : collection) (document : value) (self' : collection) :
  insert_one self document = Ok self' ->
  exists fields identifier,
    document = VDict fields /\ dict_get "_id" fields = Some identifier /\
    hashable identifier = true /\ self' = store_set identifier document self.
Proof.
  unfold insert_one. rewrite deepcopy_id.
  destruct document; try discriminate.
  destruct (dict_get "_id" fields) as [identifier|] eqn:Hid; [|discriminate].
  destruct (hashable identifier) eqn:Hh; [|discriminate].
  intros H. inversion H. exists fields, identifier. auto.
Qed.

Lemma run_op_unique (self : collection) (o : op) :
  unique_ids (keys self) = true -> unique_ids (keys (run_op self o)) = true.
Proof.
  intros Hu. destruct o as [document | query update]; simpl.
  - destruct (insert_one self document) as [self'|e] eqn:Hins; [|exact Hu].
    destruct (insert_one_ok _ _ _ Hins) as (fields & identifier & _ & _ & Hh & Hs).
    subst self'. rewrite store_set_keys.
    destruct (py_in identifier (keys self)) eqn:Hin; [exact Hu|].
    apply unique_ids_app; assumption.
  - unfold update_one. rewrite update_first_keys. exact Hu.
Qed.

Lemma run_ops_unique (ops : list op) :
  forall self, unique_ids (keys self) = true ->
               unique_ids (keys (fold_left run_op ops self)) = true.
Proof.
  induction ops as [|o ops IH]; intros self Hu; simpl; [exact Hu|].
  apply IH. apply run_op_unique. exact Hu.
Qed.

Lemma count_all (documents : list value) :
  count_matching documents [] = Ok (Z.of_nat (List.length documents)).
Proof.
  induction documents as [|d rest IH]; [reflexivity|].
  change (count_matching (d :: rest) [])
    with (n <- count_matching rest [] ;; Ok (1 + n)).
  rewrite IH. cbn [bind List.length]. f_equal. lia.
Qed.

Lemma count_documents_all (self : collection) :
  count_documents self [] = Ok (Z.of_nat (List.length self)).
Proof.
  unfold count_documents, values. rewrite count_all, length_map. reflexivity.
Qed.

Lemma store_get_slot {D : Type} (before after : list (value * D))
  (k identifier : value) (d : D) :
  py_in identifier (map fst before) = false ->
  py_eq k identifier = true ->
  store_get identifier (before ++ (k, d) :: after) = Some d.
Proof.
  intros Hb Hk. induction before as [|[k' d'] before IH]; simpl in *.
  - rewrite Hk. reflexivity.
  - apply orb_false_iff in Hb as [Hne Hb]. rewrite Hne. apply IH. exact Hb.
Qed.

(** C8: inserting a document under an identifier the store already holds
    raises nothing and fills the slot of that identifier with the new
    document, which is what the identifier then leads to: the identifiers
    and their order stay, so [count_documents({})], the number of stored
    documents, does not grow.  After every call that
    writes to the store, from the empty store on, no two identifiers are
    equal. *)
Theorem C8_duplicate_identifier :
  (forall (self : collection) (fields : list (string * value)) (identifier : value),
      dict_get "_id" fields = Some identifier ->
      hashable identifier = true ->
      py_in identifier (keys self) = true ->
      exists before k old after,
        self = before ++ (k, old) :: after /\
        py_eq k identifier = true /\ py_in identifier (keys before) = false /\
        insert_one self (VDict fields) =
          Ok (before ++ (k, VDict fields) :: after) /\
        store_get identifier (before ++ (k, VDict fields) :: after) =
          Some (VDict fields) /\
        keys (before ++ (k, VDict fields) :: after) = keys self /\
        count_documents (before ++ (k, VDict fields) :: after) [] =
          count_documents self [] /\
        count_documents self [] = Ok (Z.of_nat (List.length self))) /\
  (forall (self : collection) (o : op),
      unique_ids (keys self) = true ->
      unique_ids (keys (run_op self o)) = true) /\
  (forall ops : list op, unique_ids (keys (run_ops ops)) = true).
Proof.
  split; [|split].
  - intros self fields identifier Hid Hh Hin.
    destruct (store_set_in_place identifier (VDict fields) self Hin)
      as (before & k & old & after & Hself & Hset & Hk & Hb).
    exists before, k, old, after.
    assert (Hins : insert_one self (VDict fields) =
                   Ok (before ++ (k, VDict fields) :: after)).
    { unfold insert_one. rewrite deepcopy_id, Hid, Hh, Hset. reflexivity. }
    assert (Hkeys : keys (before ++ (k, VDict fields) :: after) = keys self).
    { rewrite Hself. unfold keys. rewrite !map_app. reflexivity. }
    repeat split; auto.
    + apply store_get_slot; assumption.
    + rewrite !count_documents_all. f_equal. f_equal.
      rewrite <- (length_map fst), <- (length_map fst self).
      fold (keys (before ++ (k, VDict fields) :: after)). fold (keys self).
      rewrite Hkeys. reflexivity.
    + apply count_documents_all.
  - apply run_op_unique.
  - intros ops. apply run_ops_unique. reflexivity.
Qed.

Lemma C8_duplicate_identifier_witness :
  (exists before k old after,
      two_full_clubs = before ++ (k, old) :: after /\
      py_eq k (VStr "Chess Club") = true /\
      py_in (VStr "Chess Club") (keys before) = false /\
      insert_one two_full_clubs (VDict chess_club_renewed) =
        Ok (before ++ (k, VDict chess_club_renewed) :: after) /\
      store_get (VStr "Chess Club")
        (before ++ (k, VDict chess_club_renewed) :: after) =
        Some (VDict chess_club_renewed) /\
      keys (before ++ (k, VDict chess_club_renewed) :: after) =
        keys two_full_clubs /\
      count_documents (before ++ (k, VDict chess_club_renewed) :: after) [] =
        count_documents two_full_clubs [] /\
      count_documents two_full_clubs [] = Ok 2) /\
  unique_ids (keys (run_op two_full_clubs (Insert (VDict chess_club_renewed))))
  = true.
Proof.
  split.
  - exact (proj1 C8_duplicate_identifier two_full_clubs chess_club_renewed
             (VStr "Chess Club") eq_refl eq_refl eq_refl).
  - apply (proj1 (proj2 C8_duplicate_identifier)). reflexivity.
Defined.

Lemma run_op_keys (self : collection) (o : op) :
  keys (run_op self o) = fold_left see (inserted_id o) (keys self).
Proof.
  destruct o as [document | query update]; simpl.
  - unfold insert_one. rewrite deepcopy_id.
    destruct document; try reflexivity.
    destruct (dict_get "_id" fields) as [identifier|]; [|reflexivity].
    destruct (hashable identifier); [|reflexivity].
    simpl. apply store_set_keys.
  - unfold update_one. apply update_first_keys.
Qed.

Lemma run_ops_keys (ops : list op) :
  forall self,
    keys (fold_left run_op ops self) =
    fold_left see (flat_map inserted_id ops) (keys self).
Proof.
  induction ops as [|o ops IH]; intros self; simpl; [reflexivity|].
  rewrite IH, run_op_keys, fold_left_app. reflexivity.
Qed.

Section Scan.
Variable query : list (string * value).

Lemma find_in_selected (documents : list value) :
  Forall (evaluates query) documents ->
  find_in documents query = gen_of_list (selected query documents).
Proof.
  induction 1 as [|d rest [b Hb] _ IH]; simpl; [reflexivity|].
  rewrite Hb. destruct b; simpl; rewrite IH, ?deepcopy_id; reflexivity.
Qed.

Lemma find_one_in_selected (documents : list value) :
  Forall (evaluates query) documents ->
  find_one_in documents query = Ok (hd_error (selected query documents)).
Proof.
  induction 1 as [|d rest [b Hb] _ IH]; simpl; [reflexivity|].
  rewrite Hb. destruct b; simpl; rewrite ?deepcopy_id; [reflexivity|exact IH].
Qed.

Lemma count_matching_selected (documents : list value) :
  Forall (evaluates query) documents ->
  count_matching documents query =
  Ok (Z.of_nat (List.length (selected query documents))).
Proof.
  induction 1 as [|d rest [b Hb] _ IH]; simpl; [reflexivity|].
  rewrite Hb, IH. destruct b; cbn [bind List.length]; f_equal; lia.
Qed.

(** The head of the selection is the document [update_one] works on. *)
Lemma selected_head (self : collection) (d : value) (others : list value) :
  Forall (evaluates query) (values self) ->
  selected query (values self) = d :: others ->
  exists before identifier after,
    self = before ++ (identifier, d) :: after /\
    Forall (fun kv => _matches_query (snd kv) query = Ok false) before /\
    _matches_query d query = Ok true.
Proof.
  induction self as [|[k x] rest IH]; simpl; intros Hev Hsel; [discriminate|].
  inversion Hev as [|? ? [b Hb] Hrest]; subst.
  rewrite Hb in Hsel. destruct b.
  - inversion Hsel; subst. exists [], k, rest. auto.
  - destruct (IH Hrest Hsel) as (before & identifier & after & Hs & Hb' & Hd).
    exists ((k, x) :: before), identifier, after. subst rest. auto.
Qed.
End Scan.

Lemma add_all_app (xs ys : list value) :
  forall days,
    add_all days (xs ++ ys) = (days' <- add_all days xs ;; add_all days' ys).
Proof.
  induction xs as [|x xs IH]; intros days; simpl; [reflexivity|].
  destruct (set_add days x) as [days'|e]; [|reflexivity]. simpl. apply IH.
Qed.

(** The set of days is filled document by document, in the order of the
    store, and item by item within a document. *)
Lemma collect_days_listed (documents : list value) :
  forallb days_listed documents = true ->
  forall days,
    collect_days days documents = add_all days (flat_map days_of documents).
Proof.
  induction documents as [|d rest IH]; intros Hl days; [reflexivity|].
  simpl in Hl. apply andb_true_iff in Hl as [Hd Hrest].
  cbn [collect_days flat_map]. rewrite add_all_app.
  unfold days_listed in Hd. unfold days_of.
  destruct (days_or_empty d) as [| | | |xs|]; try discriminate.
  cbn [py_iter bind].
  destruct (add_all days xs) as [days'|e]; [|reflexivity].
  cbn [bind]. apply IH. exact Hrest.
Qed.

(** A set keeps, of equal items, the one that was added first. *)
Lemma add_all_first_seen (items : list value) :
  forallb hashable items = true ->
  forall days, add_all days items = Ok (fold_left see items days).
Proof.
  induction items as [|x items IH]; intros Hh days; [reflexivity|].
  simpl in Hh. apply andb_true_iff in Hh as [Hx Hrest].
  cbn [add_all fold_left]. unfold set_add. rewrite Hx. cbn [bind].
  apply IH. exact Hrest.
Qed.

(** C10: the store iterates in the order in which identifiers were first
    inserted.  [insert_one] leaves the order alone when the identifier is
    stored already and puts a new identifier last; [update_one] leaves the
    order alone; so after any run of calls the order is that of the first
    insertions.  [find], [find_one] and [count_documents] go through the
    documents in that order, and [update_one] works on the first of them
    that the filter selects.  [aggregate] goes through them in that order
    too: it adds the days to its set document by document, so of equal
    days, [1] and [True] for one, the day of the earliest document is the
    one it yields. *)
Theorem C10_iteration_order :
  (forall (self self' : collection) (document : value),
      insert_one self document = Ok self' ->
      exists fields identifier,
        document = VDict fields /\ dict_get "_id" fields = Some identifier /\
        keys self' = if py_in identifier (keys self) then keys self
                     else keys self ++ [identifier]) /\
  (forall (self : collection) (query update : list (string * value)),
      keys (fst (update_one self query update)) = keys self) /\
  (forall ops : list op,
      keys (run_ops ops) = first_seen (flat_map inserted_id ops)) /\
  (forall (self : collection) (query : list (string * value)),
      Forall (evaluates query) (values self) ->
      find self query = gen_of_list (selected query (values self)) /\
      find_one self query = Ok (hd_error (selected query (values self))) /\
      count_documents self query =
        Ok (Z.of_nat (List.length (selected query (values self)))) /\
      forall update d others,
        selected query (values self) = d :: others ->
        exists before identifier after document',
          self = before ++ (identifier, d) :: after /\
          selected query (values before) = [] /\
          update_one self query update =
          (before ++ (identifier, document') :: after,
           snd (apply_update d update))) /\
  (forall (self : collection) (pipeline : list value),
      forallb days_listed (values self) = true ->
      aggregate self pipeline =
      match (days <- add_all [] (all_days self) ;; sorted days) with
      | Raise e => GRaise e
      | Ok days => gen_of_list (map (fun day => VDict [("_id", day)]) days)
      end /\
      (forallb hashable (all_days self) = true ->
       aggregate self pipeline =
       match sorted (first_seen (all_days self)) with
       | Raise e => GRaise e
       | Ok days => gen_of_list (map (fun day => VDict [("_id", day)]) days)
       end)) /\
  (aggregate [club "Chess Club" (VList [VInt 1]);
              club "Math Club" (VList [VBool true])] [] =
   GYield (VDict [("_id", VInt 1)]) GStop /\
   aggregate [club "Math Club" (VList [VBool true]);
              club "Chess Club" (VList [VInt 1])] [] =
   GYield (VDict [("_id", VBool true)]) GStop).
Proof.
  split; [|split; [|split; [|split; [|split]]]].
  - intros self self' document Hins.
    destruct (insert_one_ok _ _ _ Hins) as (fields & identifier & Hd & Hid & _ & Hs).
    exists fields, identifier. subst self'. rewrite store_set_keys. auto.
  - intros. apply update_first_keys.
  - intros ops. apply (run_ops_keys ops []).
  - intros self query Hev.
    split; [apply find_in_selected; exact Hev|].
    split; [apply find_one_in_selected; exact Hev|].
    split; [apply count_matching_selected; exact Hev|].
    intros update d others Hsel.
    destruct (selected_head query self d others Hev Hsel)
      as (before & identifier & after & Hs & Hb & Hd).
    exists before, identifier, after, (fst (apply_update d update)).
    split; [exact Hs|]. split.
    + clear - Hb. induction Hb as [|[k x] before Hx _ IH]; simpl; [reflexivity|].
      simpl in Hx. rewrite Hx. exact IH.
    + subst self. apply update_first_hit; assumption.
  - intros self pipeline Hl.
    assert (Hagg : aggregate self pipeline =
              match (days <- add_all [] (all_days self) ;; sorted days) with
              | Raise e => GRaise e
              | Ok days => gen_of_list (map (fun day => VDict [("_id", day)]) days)
              end).
    { unfold aggregate, all_days. rewrite (collect_days_listed _ Hl). reflexivity. }
    split; [exact Hagg|].
    intros Hh. rewrite Hagg, (add_all_first_seen _ Hh). reflexivity.
  - split; reflexivity.
Qed.

Lemma C10_iteration_order_witness :
  find two_full_clubs [("max_participants", VDict [("$gte", VInt 10)])] =
  GYield chess_club (GYield math_club GStop) /\
  find_one two_full_clubs [("max_participants", VDict [("$gte", VInt 10)])] =
  Ok (Some chess_club) /\
  keys (run_ops [Insert chess_club; Insert math_club;
                 Insert (VDict chess_club_renewed)]) =
  [VStr "Chess Club"; VStr "Math Club"] /\
  aggregate week [] =
  match sorted (first_seen (all_days week)) with
  | Raise e => GRaise e
  | Ok days => gen_of_list (map (fun day => VDict [("_id", day)]) days)
  end.
Proof.
  assert (Hev : Forall (evaluates [("max_participants", VDict [("$gte", VInt 10)])])
                  (values two_full_clubs)).
  { repeat constructor; exists true; reflexivity. }
  destruct (proj1 (proj2 (proj2 (proj2 C10_iteration_order))) two_full_clubs
              [("max_participants", VDict [("$gte", VInt 10)])] Hev)
    as (Hfind & Hone & _).
  split; [exact Hfind | split; [exact Hone|split]].
  - exact (proj1 (proj2 (proj2 C10_iteration_order))
             [Insert chess_club; Insert math_club;
              Insert (VDict chess_club_renewed)]).
  - exact (proj2 (proj1 (proj2 (proj2 (proj2 (proj2 C10_iteration_order))))
                    week [] eq_refl) eq_refl).
Defined.

(** ** [aggregate] *)

Section SortedDays.
(** A class of values that [sorted] can order: hashable, ordered totally
    and strictly by [<], with [==] the equality of that order. *)
Variable good : value -> bool.
Hypothesis good_hashable : forall a, good a = true -> hashable a = true.
Hypothesis good_refl : forall a, good a = true -> py_eq a a = true.
Hypothesis good_lt :
  forall a b, good a = true -> good b = true -> exists c, py_lt a b = Ok c.
Hypothesis good_total :
  forall a b, good a = true -> good b = true ->
              py_eq a b = false -> py_lt a b = Ok false -> py_lt b a = Ok true.
Hypothesis good_trans :
  forall a b c, good a = true -> good b = true -> good c = true ->
                py_lt a b = Ok true -> py_lt b c = Ok true -> py_lt a c = Ok true.
Hypothesis good_lt_neq :
  forall a b x, good a = true -> good b = true -> good x = true ->
                py_lt a b = Ok true -> py_eq a x = true -> py_eq b x = true -> False.

Lemma py_in_app (x : value) (xs ys : list value) :
  py_in x (xs ++ ys) = py_in x xs || py_in x ys.
Proof. unfold py_in. apply existsb_app. Qed.

Lemma pairwise_distinct_snoc (days : list value) (day : value) :
  pairwise_distinct days -> py_in day days = false ->
  pairwise_distinct (days ++ [day]).
Proof.
  unfold pairwise_distinct. intros Hd Hin.
  induction Hd as [|a l Ha Hl IH]; simpl in *.
  - constructor; constructor.
  - apply orb_false_iff in Hin as [Hne Hin]. constructor; [|apply IH; exact Hin].
    apply Forall_app. split; [exact Ha|]. constructor; [exact Hne|constructor].
Qed.

Lemma add_all_good (items : list value) :
  forall days,
    all_of good items -> all_of good days -> pairwise_distinct days ->
    exists days',
      add_all days items = Ok days' /\ all_of good days' /\
      pairwise_distinct days' /\
      (forall d, In d days' -> In d days \/ In d items) /\
      (forall x, py_in x days = true \/ In x items -> py_in x days' = true).
Proof.
  induction items as [|day items IH]; intros days Hi Hg Hd; simpl.
  - exists days. repeat split; auto. intros x [H | []]. exact H.
  - inversion Hi as [|? ? Hday Hitems]; subst.
    unfold set_add. rewrite (good_hashable day Hday). simpl.
    destruct (py_in day days) eqn:Hin.
    + destruct (IH days Hitems Hg Hd) as (days' & Hadd & Hg' & Hd' & Hsub & Hsup).
      exists days'. repeat split; auto.
      * intros d Hd0. destruct (Hsub d Hd0); auto.
      * intros x [Hx | [Hx | Hx]]; auto. subst x. auto.
    + destruct (IH (days ++ [day]) Hitems) as (days' & Hadd & Hg' & Hd' & Hsub & Hsup).
      { apply Forall_app. split; [exact Hg|]. constructor; [exact Hday|constructor]. }
      { apply pairwise_distinct_snoc; assumption. }
      exists days'. repeat split; auto.
      * intros d Hd0. destruct (Hsub d Hd0) as [H | H]; auto.
        apply in_app_or in H as [H | [H | []]]; auto.
      * intros x [Hx | [Hx | Hx]]; apply Hsup; auto.
        -- left. rewrite py_in_app, Hx. reflexivity.
        -- subst x. left. rewrite py_in_app. simpl.
           rewrite (good_refl day Hday). apply orb_true_r.
Qed.

Lemma collect_days_good (documents : list value) :
  forall days,
    Forall (fun d => days_listed d = true) documents ->
    all_of good (flat_map days_of documents) ->
    all_of good days -> pairwise_distinct days ->
    exists days',
      collect_days days documents = Ok days' /\ all_of good days' /\
      pairwise_distinct days' /\
      (forall d, In d days' -> In d days \/ In d (flat_map days_of documents)) /\
      (forall x, py_in x days = true \/ In x (flat_map days_of documents) ->
                 py_in x days' = true).
Proof.
  induction documents as [|doc rest IH]; intros days Hl Hi Hg Hd; simpl.
  - exists days. repeat split; auto. intros x [H | []]. exact H.
  - inversion Hl as [|? ? Hdoc Hrest]; subst.
    simpl in Hi. apply Forall_app in Hi as [Hi1 Hi2].
    unfold days_listed in Hdoc. unfold days_of in *.
    destruct (days_or_empty doc) as [| | | |items|]; try discriminate.
    simpl.
    destruct (add_all_good items days Hi1 Hg Hd)
      as (days1 & Hadd & Hg1 & Hd1 & Hsub1 & Hsup1).
    rewrite Hadd. simpl.
    destruct (IH days1 Hrest Hi2 Hg1 Hd1) as (days' & Hc & Hg' & Hd' & Hsub & Hsup).
    exists days'. repeat split; auto.
    + intros d Hin. destruct (Hsub d Hin) as [H | H].
      * destruct (Hsub1 d H); auto. right. apply in_or_app. auto.
      * right. apply in_or_app. auto.
    + intros x [Hx | Hx]; apply Hsup; auto.
      apply in_app_or in Hx as [Hx | Hx]; auto.
Qed.

Lemma insert_sorted_good (x : value) (l : list value) :
  good x = true -> all_of good l -> ascending l ->
  (forall y, In y l -> py_eq x y = false) ->
  exists l', insert_sorted x l = Ok l' /\ ascending l' /\ Permutation (x :: l) l'.
Proof.
  intros Hx. induction l as [|y rest IH]; intros Hg Hs Hne; simpl.
  - exists [x]. repeat split; auto. constructor; constructor.
  - inversion Hg as [|? ? Hy Hrest]; subst.
    apply StronglySorted_inv in Hs as [Hsrest Hlt].
    destruct (good_lt x y Hx Hy) as [c Hc]. rewrite Hc. simpl. destruct c.
    + exists (x :: y :: rest). repeat split; auto.
      constructor; [constructor; assumption|].
      constructor; [exact Hc|].
      rewrite Forall_forall in *. intros z Hz.
      apply (good_trans x y z); auto.
    + assert (Hyx : py_lt y x = Ok true).
      { apply good_total; auto. apply Hne. left. reflexivity. }
      destruct (IH Hrest Hsrest) as (l' & Hins & Hs' & Hp).
      { intros z Hz. apply Hne. right. exact Hz. }
      rewrite Hins. simpl. exists (y :: l'). repeat split.
      * constructor; [exact Hs'|].
        apply (Permutation_Forall Hp). constructor; assumption.
      * apply perm_trans with (y :: x :: rest); [apply perm_swap|].
        apply perm_skip. exact Hp.
Qed.

Lemma sorted_good (l : list value) :
  all_of good l -> pairwise_distinct l ->
  exists l', sorted l = Ok l' /\ ascending l' /\ Permutation l l'.
Proof.
  induction l as [|x rest IH]; intros Hg Hd; simpl.
  - exists []. repeat split; constructor.
  - inversion Hg as [|? ? Hx Hrest]; subst.
    inversion Hd as [|? ? Hne Hdrest]; subst.
    destruct (IH Hrest Hdrest) as (rest' & Hs & Hasc & Hp).
    rewrite Hs. simpl.
    destruct (insert_sorted_good x rest' Hx) as (l' & Hins & Hasc' & Hp'); auto.
    + apply (Permutation_Forall Hp). exact Hrest.
    + intros y Hy. rewrite Forall_forall in Hne. apply Hne.
      apply (Permutation_in _ (Permutation_sym Hp)). exact Hy.
    + exists l'. repeat split; auto.
      apply perm_trans with (x :: rest'); [apply perm_skip; exact Hp|exact Hp'].
Qed.

Lemma count_equal_le (x : value) (l : list value) :
  good x = true -> all_of good l -> ascending l -> (count_equal x l <= 1)%nat.
Proof.
  intros Hx Hg Hs. unfold count_equal.
  induction Hs as [|a l Hs IH Hlt]; simpl; [lia|].
  inversion Hg as [|? ? Ha Hl]; subst.
  destruct (py_eq a x) eqn:Ea; [|apply IH; exact Hl].
  assert (Hnone : filter (fun d => py_eq d x) l = []).
  { clear IH Hs Hg. induction l as [|b l IHl]; simpl; [reflexivity|].
    inversion Hlt as [|? ? Hab Hlt']; subst.
    inversion Hl as [|? ? Hb Hl']; subst.
    destruct (py_eq b x) eqn:Eb.
    - exfalso. apply (good_lt_neq a b x); auto.
    - apply IHl; assumption. }
  rewrite Hnone. simpl. lia.
Qed.

Lemma count_equal_ge (x : value) (l : list value) :
  py_in x l = true -> (1 <= count_equal x l)%nat.
Proof.
  unfold count_equal, py_in. induction l as [|a l IH]; simpl; [discriminate|].
  destruct (py_eq a x); simpl; [lia|exact IH].
Qed.

Lemma py_in_perm (x : value) (l l' : list value) :
  Permutation l l' -> py_in x l = true -> py_in x l' = true.
Proof.
  unfold py_in. intros Hp Hin. apply existsb_exists in Hin as [d [Hd He]].
  apply existsb_exists. exists d. split; [|exact He].
  apply (Permutation_in _ Hp). exact Hd.
Qed.

Lemma aggregate_good (self : collection) (pipeline : list value) :
  Forall (fun d => days_listed d = true) (values self) ->
  all_of good (all_days self) ->
  exists days,
    aggregate self pipeline =
    gen_of_list (map (fun day => VDict [("_id", day)]) days) /\
    ascending days /\
    (forall d, In d days -> In d (all_days self)) /\
    (forall x, In x (all_days self) -> count_equal x days = 1%nat).
Proof.
  intros Hl Hg. unfold aggregate.
  destruct (collect_days_good (values self) [] Hl Hg)
    as (days0 & Hc & Hg0 & Hd0 & Hsub & Hsup);
    [constructor | constructor |].
  destruct (sorted_good days0 Hg0 Hd0) as (days & Hs & Hasc & Hp).
  rewrite Hc. simpl. rewrite Hs.
  exists days. repeat split; auto.
  - intros d Hd. apply (Permutation_in _ (Permutation_sym Hp)) in Hd.
    destruct (Hsub d Hd) as [[] | H]. exact H.
  - intros x Hx.
    assert (Hgx : good x = true).
    { unfold all_of in Hg. rewrite Forall_forall in Hg. auto. }
    assert (Hle : (count_equal x days <= 1)%nat).
    { apply count_equal_le; auto. apply (Permutation_Forall Hp). exact Hg0. }
    assert (Hge : (1 <= count_equal x days)%nat).
    { apply count_equal_ge. apply (py_in_perm x days0 days Hp).
      apply Hsup. right. exact Hx. }
    lia.
Qed.
End SortedDays.

(** Strings under [<]. *)

Lemma ltb_compare (s t : string) :
  String.ltb s t = true <-> String.compare s t = Lt.
Proof.
  unfold String.ltb. destruct (String.compare s t); split; congruence.
Qed.

Lemma ltb_trans (a b c : string) :
  String.ltb a b = true -> String.ltb b c = true -> String.ltb a c = true.
Proof.
  rewrite !ltb_compare.
  change String.compare with OrderedTypeEx.String_as_OT.cmp.
  rewrite !OrderedTypeEx.String_as_OT.cmp_lt.
  apply OrderedTypeEx.String_as_OT.lt_trans.
Qed.

Lemma ltb_irrefl (a : string) : String.ltb a a = false.
Proof.
  destruct (String.ltb a a) eqn:E; [|reflexivity].
  apply ltb_compare in E. pose proof (String.compare_antisym a a) as H.
  rewrite E in H. discriminate.
Qed.

Lemma ltb_total (a b : string) :
  String.eqb a b = false -> String.ltb a b = false -> String.ltb b a = true.
Proof.
  intros Hne Hlt. apply ltb_compare. rewrite String.compare_antisym.
  unfold String.ltb in Hlt. destruct (String.compare a b) eqn:E.
  - apply String.compare_eq_iff in E. subst. rewrite String.eqb_refl in Hne.
    discriminate.
  - discriminate.
  - reflexivity.
Qed.

Lemma aggregate_strings (self : collection) (pipeline : list value) :
  Forall (fun d => days_listed d = true) (values self) ->
  Forall (fun x => is_str x = true) (all_days self) ->
  exists days,
    aggregate self pipeline =
    gen_of_list (map (fun day => VDict [("_id", day)]) days) /\
    ascending days /\
    (forall d, In d days -> In d (all_days self)) /\
    (forall x, In x (all_days self) -> count_equal x days = 1%nat).
Proof.
  apply (aggregate_good is_str).
  - intros [] H; try discriminate; reflexivity.
  - intros [] H; try discriminate. simpl. apply String.eqb_refl.
  - intros [] [] Ha Hb; try discriminate. simpl. eauto.
  - intros [] [] Ha Hb; try discriminate. simpl. intros Hne Hlt.
    injection Hlt as Hlt'. rewrite (ltb_total _ _ Hne Hlt').
    reflexivity.
  - intros [] [] [] Ha Hb Hc; try discriminate. simpl. intros H1 H2.
    injection H1 as H1'. injection H2 as H2'.
    rewrite (ltb_trans _ _ _ H1' H2'). reflexivity.
  - intros [] [] [] Ha Hb Hx; try discriminate. simpl. intros Hlt E1 E2.
    apply String.eqb_eq in E1, E2. subst. injection Hlt as Hlt'.
    rewrite ltb_irrefl in Hlt'. discriminate.
Qed.

(** Numbers under [<]: a [bool] counts as 0 or 1. *)

Lemma num_of_num (v : value) : is_num v = true -> exists x, num_of v = Some x.
Proof. destruct v; try discriminate; simpl; eauto. Qed.

Lemma py_eq_num (a b : value) (x y : Z) :
  num_of a = Some x -> num_of b = Some y -> py_eq a b = (x =? y).
Proof.
  destruct a, b; try discriminate; simpl; intros Ha Hb;
    inversion Ha; inversion Hb; subst; try reflexivity.
  destruct b, b0; reflexivity.
Qed.

Lemma py_lt_num (a b : value) (x y : Z) :
  num_of a = Some x -> num_of b = Some y -> py_lt a b = Ok (x <? y).
Proof.
  destruct a, b; try discriminate; simpl; intros Ha Hb;
    inversion Ha; inversion Hb; subst; reflexivity.
Qed.

Lemma aggregate_numbers (self : collection) (pipeline : list value) :
  Forall (fun d => days_listed d = true) (values self) ->
  Forall (fun x => is_num x = true) (all_days self) ->
  exists days,
    aggregate self pipeline =
    gen_of_list (map (fun day => VDict [("_id", day)]) days) /\
    ascending days /\
    (forall d, In d days -> In d (all_days self)) /\
    (forall x, In x (all_days self) -> count_equal x days = 1%nat).
Proof.
  apply (aggregate_good is_num).
  - intros [] H; try discriminate; reflexivity.
  - intros a Ha. destruct (num_of_num a Ha) as [x Hx].
    rewrite (py_eq_num a a x x Hx Hx). apply Z.eqb_refl.
  - intros a b Ha Hb.
    destruct (num_of_num a Ha) as [x Hx], (num_of_num b Hb) as [y Hy].
    rewrite (py_lt_num a b x y Hx Hy). eauto.
  - intros a b Ha Hb.
    destruct (num_of_num a Ha) as [x Hx], (num_of_num b Hb) as [y Hy].
    rewrite (py_eq_num a b x y Hx Hy), (py_lt_num a b x y Hx Hy),
      (py_lt_num b a y x Hy Hx).
    intros Hne Hlt. injection Hlt as Hlt'. f_equal.
    apply Z.eqb_neq in Hne. apply Z.ltb_ge in Hlt'. apply Z.ltb_lt. lia.
  - intros a b c Ha Hb Hc.
    destruct (num_of_num a Ha) as [x Hx], (num_of_num b Hb) as [y Hy],
      (num_of_num c Hc) as [z Hz].
    rewrite (py_lt_num a b x y Hx Hy), (py_lt_num b c y z Hy Hz),
      (py_lt_num a c x z Hx Hz).
    intros H1 H2. injection H1 as H1'. injection H2 as H2'. f_equal.
    apply Z.ltb_lt in H1', H2'. apply Z.ltb_lt. lia.
  - intros a b c Ha Hb Hc.
    destruct (num_of_num a Ha) as [x Hx], (num_of_num b Hb) as [y Hy],
      (num_of_num c Hc) as [z Hz].
    rewrite (py_lt_num a b x y Hx Hy), (py_eq_num a c x z Hx Hz),
      (py_eq_num b c y z Hy Hz).
    intros H1 E1 E2. injection H1 as H1'.
    apply Z.ltb_lt in H1'. apply Z.eqb_eq in E1, E2. lia.
Qed.

(** C6, as the code has it: when every document holds, under
    [schedule_details.days], nothing, a falsy value or a list, and the
    listed items are all strings or all numbers, [aggregate] (whatever the
    pipeline) yields the records [{"_id": day}] of a strictly ascending
    sequence of days; every day it yields is listed in some document, and
    every listed item has exactly one equal among the yielded days, however
    many documents list it.  A document in which the path is absent or
    holds a falsy value lists nothing. *)
Theorem C6_distinct_sorted_days (self : collection) (pipeline : list value) :
  forallb days_listed (values self) = true ->
  forallb is_str (all_days self) = true \/
  forallb is_num (all_days self) = true ->
  (exists days,
      aggregate self pipeline =
      gen_of_list (map (fun day => VDict [("_id", day)]) days) /\
      ascending days /\
      (forall d, In d days -> In d (all_days self)) /\
      (forall x, In x (all_days self) -> count_equal x days = 1%nat)) /\
  (forall document,
      truthy (_get_nested_value document days_path) = false ->
      days_listed document = true /\ days_of document = []).
Proof.
  intros Hl Hclass. split.
  - rewrite forallb_forall in Hl.
    destruct Hclass as [Hs | Hn]; rewrite forallb_forall in *.
    + apply aggregate_strings; apply Forall_forall; assumption.
    + apply aggregate_numbers; apply Forall_forall; assumption.
  - intros document Hfalsy. unfold days_listed, days_of, days_or_empty.
    rewrite Hfalsy. split; reflexivity.
Qed.

Lemma C6_distinct_sorted_days_witness :
  exists days,
    aggregate week [VDict [("$unwind", VStr "$schedule_details.days")]] =
    gen_of_list (map (fun day => VDict [("_id", day)]) days) /\
    ascending days /\
    (forall d, In d days -> In d (all_days week)) /\
    (forall x, In x (all_days week) -> count_equal x days = 1%nat).
Proof.
  exact (proj1 (C6_distinct_sorted_days week
                  [VDict [("$unwind", VStr "$schedule_details.days")]]
                  eq_refl (or_introl eq_refl))).
Defined.

Example aggregate_week :
  yielded (aggregate week []) =
  [VDict [("_id", VStr "Friday")]; VDict [("_id", VStr "Monday")];
   VDict [("_id", VStr "Thursday")]; VDict [("_id", VStr "Tuesday")]] /\
  raised (aggregate week []) = None.
Proof. split; reflexivity. Qed.

(** C6 as stated fails: a document whose [schedule_details.days] is a
    number does not hold a sequence there, and [aggregate] raises when it
    tries to iterate over it. *)
Lemma C6_number_as_days_raises :
  Forall (fun document =>
            is_list (_get_nested_value document days_path) = true \/
            _get_nested_value document days_path = VInt 4)
         (values days_as_number) /\
  aggregate days_as_number [] = GRaise TypeError.
Proof.
  split; [|reflexivity].
  constructor; [left; reflexivity|].
  constructor; [right; reflexivity|constructor].
Qed.


(** ** Objects, copies and the caller *)

Lemma length_write (h : Heap.heap) (l : Heap.loc) (c : Heap.cell) :
  List.length (Heap.write h l c) = List.length h.
Proof.
  revert l. induction h as [|c0 h IH]; intros [|l]; simpl; auto.
Qed.

Lemma nth_error_write_same (h : Heap.heap) (l : Heap.loc) (c : Heap.cell) :
  (l < List.length h)%nat -> nth_error (Heap.write h l c) l = Some c.
Proof.
  revert l. induction h as [|c0 h IH]; intros [|l] Hl; simpl in *;
    try lia; [reflexivity | apply IH; lia].
Qed.

Lemma nth_error_write_other (h : Heap.heap) (l l' : Heap.loc) (c : Heap.cell) :
  l <> l' -> nth_error (Heap.write h l c) l' = nth_error h l'.
Proof.
  revert l l'. induction h as [|c0 h IH]; intros [|l] [|l'] Hne; simpl;
    try reflexivity; try congruence.
  apply IH. congruence.
Qed.

Lemma nth_error_valid {A : Type} (xs : list A) (i : nat) (x : A) :
  nth_error xs i = Some x -> (i < List.length xs)%nat.
Proof. intros H. apply nth_error_Some. congruence. Qed.

(** *** The copy *)

Lemma copied_cons (m : Heap.memo) (l y k : Heap.loc) :
  Heap.copied ((l, y) :: m) k = if Nat.eqb l k then Some y else Heap.copied m k.
Proof. reflexivity. Qed.

Lemma tr_keyed (m m' : Heap.memo) (r : Heap.ref) :
  (forall l y, Heap.copied m l = Some y -> Heap.copied m' l = Some y) ->
  Heap.keyed m r -> Heap.tr m' r = Heap.tr m r /\ Heap.keyed m' r.
Proof.
  intros Hmono Hk. destruct r as [| | | |l]; simpl in *; auto.
  destruct (Heap.copied m l) as [y|] eqn:Hl; [|congruence].
  rewrite (Hmono l y Hl). split; [reflexivity | discriminate].
Qed.

Lemma map_cell_keyed (m m' : Heap.memo) (c : Heap.cell) :
  (forall l y, Heap.copied m l = Some y -> Heap.copied m' l = Some y) ->
  Forall (Heap.keyed m) (Heap.refs c) ->
  Heap.map_cell (Heap.tr m') c = Heap.map_cell (Heap.tr m) c /\
  Forall (Heap.keyed m') (Heap.refs c).
Proof.
  intros Hmono Hk. destruct c as [items | fields]; simpl in *.
  - induction Hk as [|r items Hr _ IH]; [auto|].
    destruct IH as [IH1 IH2]. destruct (tr_keyed m m' r Hmono Hr) as [Ht Hk'].
    simpl. split; [|constructor; assumption].
    injection IH1 as IH1. rewrite Ht, IH1. reflexivity.
  - induction fields as [|[k r] fields IH]; [auto|].
    simpl in Hk. inversion Hk as [|? ? Hr Hrest]; subst.
    destruct (IH Hrest) as [IH1 IH2].
    destruct (tr_keyed m m' r Hmono Hr) as [Ht Hk'].
    simpl. split; [|constructor; assumption].
    injection IH1 as IH1. rewrite Ht, IH1. reflexivity.
Qed.

Lemma finished_later (h0 h h' : Heap.heap) (m m' : Heap.memo) (l y : Heap.loc) :
  Heap.finished h0 h m l y ->
  nth_error h' y = nth_error h y ->
  (forall k z, Heap.copied m k = Some z -> Heap.copied m' k = Some z) ->
  Heap.finished h0 h' m' l y.
Proof.
  intros (c & Hc & Hy & Hk) Hsame Hmono.
  destruct (map_cell_keyed m m' c Hmono Hk) as [Hmap Hk'].
  exists c. rewrite Hsame, Hmap. auto.
Qed.

Lemma fresh_later (h0 h h' : Heap.heap) (r : Heap.ref) :
  (List.length h <= List.length h')%nat ->
  Heap.fresh h0 h r -> Heap.fresh h0 h' r.
Proof. destruct r; simpl; auto. lia. Qed.

Lemma tr_fresh (h0 h : Heap.heap) (m : Heap.memo) (r : Heap.ref) :
  Heap.copying h0 h m -> Heap.keyed m r -> Heap.fresh h0 h (Heap.tr m r).
Proof.
  intros Hc Hk. destruct r as [| | | |l]; simpl in *; auto.
  destruct (Heap.copied m l) as [y|] eqn:Hl; [|congruence].
  apply (Heap.cp_memo _ _ _ Hc l y Hl).
Qed.

(** Putting one more copied item into the object under construction. *)
Lemma copying_write (h0 h : Heap.heap) (m : Heap.memo) (y : Heap.loc)
  (c : Heap.cell) :
  Heap.copying h0 h m -> (List.length h0 <= y)%nat ->
  Forall (Heap.fresh h0 h) (Heap.refs c) ->
  Heap.copying h0 (Heap.write h y c) m.
Proof.
  intros Hc Hy Hrefs. constructor.
  - rewrite length_write. apply (Heap.cp_length _ _ _ Hc).
  - intros l Hl. rewrite nth_error_write_other by lia.
    apply (Heap.cp_source _ _ _ Hc l Hl).
  - intros l z Hl. destruct (Heap.cp_memo _ _ _ Hc l z Hl) as [H1 H2].
    split; [exact H1|]. simpl in *. rewrite length_write. exact H2.
  - intros l c' Hl Hc'.
    destruct (Nat.eq_dec y l) as [<- | Hne].
    + rewrite nth_error_write_same in Hc'
        by (apply nth_error_valid in Hc'; rewrite length_write in Hc'; exact Hc').
      injection Hc' as <-.
      eapply Forall_impl; [|exact Hrefs].
      intros r Hr. apply (fresh_later h0 h); [rewrite length_write; lia | exact Hr].
    + rewrite nth_error_write_other in Hc' by exact Hne.
      eapply Forall_impl; [|exact (Heap.cp_new _ _ _ Hc l c' Hl Hc')].
      intros r Hr. apply (fresh_later h0 h); [rewrite length_write; lia | exact Hr].
Qed.

Section CopySpec.
Variable h0 : Heap.heap.
Hypothesis Hclosed : Heap.closed h0.
Variable copy : Heap.memo -> Heap.heap -> Heap.ref ->
                result (Heap.heap * Heap.memo * Heap.ref).
Hypothesis Hcopy : Heap.copies_well h0 copy.

Lemma copy_items_spec (items : list Heap.ref) :
  forall m h yp filled h' m',
    Heap.copy_items copy m h yp items = Ok (h', m') ->
    Heap.copying h0 h m -> Forall (Heap.valid h0) items ->
    (List.length h0 <= yp)%nat ->
    nth_error h yp = Some (Heap.CList filled) ->
    Heap.copying h0 h' m' /\
    (List.length h <= List.length h')%nat /\
    (forall l, (l < List.length h)%nat -> l <> yp ->
               nth_error h' l = nth_error h l) /\
    (forall l y, Heap.copied m l = Some y -> Heap.copied m' l = Some y) /\
    (forall l y, Heap.copied m l = None -> Heap.copied m' l = Some y ->
                 (List.length h <= y)%nat /\ Heap.finished h0 h' m' l y) /\
    nth_error h' yp = Some (Heap.CList (filled ++ map (Heap.tr m') items)) /\
    Forall (Heap.keyed m') items.
Proof.
  induction items as [|a rest IH]; intros m h yp filled h' m' Hrun Hinv Hval Hyp Hcell.
  - simpl in Hrun. injection Hrun as <- <-. simpl. rewrite app_nil_r.
    split; [exact Hinv|]. split; [lia|]. split; [reflexivity|].
    split; [auto|]. split; [intros l y H1 H2; congruence|].
    split; [exact Hcell | constructor].
  - simpl in Hrun. inversion Hval as [|? ? Ha Hrest]; subst.
    destruct (copy m h a) as [[[h1 m1] a']|e] eqn:Hchild; [|discriminate].
    destruct (Hcopy m h a h1 m1 a' Hchild Hinv Ha)
      as (Hinv1 & Hlen1 & Hold1 & Hmono1 & Hnew1 & Ha' & Hka).
    pose proof (nth_error_valid _ _ _ Hcell) as Hyp_lt.
    assert (Hcell1 : nth_error h1 yp = Some (Heap.CList filled))
      by (rewrite Hold1 by exact Hyp_lt; exact Hcell).
    unfold Heap.append in Hrun. rewrite Hcell1 in Hrun.
    assert (Hfilled : Forall (Heap.fresh h0 h1) (filled ++ [a'])).
    { apply Forall_app. split.
      - exact (Heap.cp_new _ _ _ Hinv1 yp _ Hyp Hcell1).
      - constructor; [|constructor]. subst a'. apply tr_fresh; assumption. }
    pose proof (copying_write h0 h1 m1 yp (Heap.CList (filled ++ [a']))
                  Hinv1 Hyp Hfilled) as Hinv2.
    assert (Hcell2 : nth_error (Heap.write h1 yp (Heap.CList (filled ++ [a']))) yp =
                     Some (Heap.CList (filled ++ [a'])))
      by (apply nth_error_write_same; lia).
    destruct (IH m1 _ yp (filled ++ [a']) h' m' Hrun Hinv2 Hrest Hyp Hcell2)
      as (Hinv' & Hlen' & Hold' & Hmono' & Hnew' & Hcell' & Hkeys').
    rewrite length_write in *.
    split; [exact Hinv'|]. split; [lia|]. split; [|split; [|split; [|split]]].
    + intros l Hl Hne. rewrite Hold' by (auto; lia).
      rewrite nth_error_write_other by congruence. apply Hold1. exact Hl.
    + intros l y Hl. apply Hmono', Hmono1, Hl.
    + intros l y Hnone Hsome.
      destruct (Heap.copied m1 l) as [y1|] eqn:Hl1.
      * destruct (Hnew1 l y1 Hnone Hl1) as [Hy1 Hfin].
        rewrite (Hmono' l y1 Hl1) in Hsome. injection Hsome as <-.
        split; [exact Hy1|].
        apply (finished_later h0 h1 h' m1 m' l y1 Hfin); [|exact Hmono'].
        destruct (Heap.cp_memo _ _ _ Hinv1 l y1 Hl1) as [_ Hfresh]. simpl in Hfresh.
        rewrite Hold' by lia. apply nth_error_write_other. lia.
      * destruct (Hnew' l y Hl1 Hsome) as [Hy Hfin]. split; [lia | exact Hfin].
    + rewrite Hcell', <- app_assoc. simpl. subst a'.
      destruct (tr_keyed m1 m' a Hmono' Hka) as [-> _]. reflexivity.
    + constructor; [|exact Hkeys'].
      apply (tr_keyed m1 m' a Hmono' Hka).
Qed.

Lemma copy_fields_spec (fields : list (string * Heap.ref)) :
  forall m h yp filled h' m',
    Heap.copy_fields copy m h yp fields = Ok (h', m') ->
    Heap.copying h0 h m -> Forall (Heap.valid h0) (map snd fields) ->
    (List.length h0 <= yp)%nat ->
    nth_error h yp = Some (Heap.CDict filled) ->
    Heap.copying h0 h' m' /\
    (List.length h <= List.length h')%nat /\
    (forall l, (l < List.length h)%nat -> l <> yp ->
               nth_error h' l = nth_error h l) /\
    (forall l y, Heap.copied m l = Some y -> Heap.copied m' l = Some y) /\
    (forall l y, Heap.copied m l = None -> Heap.copied m' l = Some y ->
                 (List.length h <= y)%nat /\ Heap.finished h0 h' m' l y) /\
    nth_error h' yp =
    Some (Heap.CDict (filled ++
                      map (fun kr => (fst kr, Heap.tr m' (snd kr))) fields)) /\
    Forall (Heap.keyed m') (map snd fields).
Proof.
  induction fields as [|[k a] rest IH];
    intros m h yp filled h' m' Hrun Hinv Hval Hyp Hcell.
  - simpl in Hrun. injection Hrun as <- <-. simpl. rewrite app_nil_r.
    split; [exact Hinv|]. split; [lia|]. split; [reflexivity|].
    split; [auto|]. split; [intros l y H1 H2; congruence|].
    split; [exact Hcell | constructor].
  - simpl in Hrun, Hval. inversion Hval as [|? ? Ha Hrest]; subst.
    destruct (copy m h a) as [[[h1 m1] a']|e] eqn:Hchild; [|discriminate].
    destruct (Hcopy m h a h1 m1 a' Hchild Hinv Ha)
      as (Hinv1 & Hlen1 & Hold1 & Hmono1 & Hnew1 & Ha' & Hka).
    pose proof (nth_error_valid _ _ _ Hcell) as Hyp_lt.
    assert (Hcell1 : nth_error h1 yp = Some (Heap.CDict filled))
      by (rewrite Hold1 by exact Hyp_lt; exact Hcell).
    unfold Heap.assign in Hrun. rewrite Hcell1 in Hrun.
    assert (Hfilled : Forall (Heap.fresh h0 h1)
                        (Heap.refs (Heap.CDict (filled ++ [(k, a')])))).
    { simpl. rewrite map_app. apply Forall_app. split.
      - exact (Heap.cp_new _ _ _ Hinv1 yp _ Hyp Hcell1).
      - constructor; [|constructor]. subst a'. apply tr_fresh; assumption. }
    pose proof (copying_write h0 h1 m1 yp (Heap.CDict (filled ++ [(k, a')]))
                  Hinv1 Hyp Hfilled) as Hinv2.
    assert (Hcell2 : nth_error (Heap.write h1 yp (Heap.CDict (filled ++ [(k, a')]))) yp =
                     Some (Heap.CDict (filled ++ [(k, a')])))
      by (apply nth_error_write_same; lia).
    destruct (IH m1 _ yp (filled ++ [(k, a')]) h' m' Hrun Hinv2 Hrest Hyp Hcell2)
      as (Hinv' & Hlen' & Hold' & Hmono' & Hnew' & Hcell' & Hkeys').
    rewrite length_write in *.
    split; [exact Hinv'|]. split; [lia|]. split; [|split; [|split; [|split]]].
    + intros l Hl Hne. rewrite Hold' by (auto; lia).
      rewrite nth_error_write_other by congruence. apply Hold1. exact Hl.
    + intros l y Hl. apply Hmono', Hmono1, Hl.
    + intros l y Hnone Hsome.
      destruct (Heap.copied m1 l) as [y1|] eqn:Hl1.
      * destruct (Hnew1 l y1 Hnone Hl1) as [Hy1 Hfin].
        rewrite (Hmono' l y1 Hl1) in Hsome. injection Hsome as <-.
        split; [exact Hy1|].
        apply (finished_later h0 h1 h' m1 m' l y1 Hfin); [|exact Hmono'].
        destruct (Heap.cp_memo _ _ _ Hinv1 l y1 Hl1) as [_ Hfresh]. simpl in Hfresh.
        rewrite Hold' by lia. apply nth_error_write_other. lia.
      * destruct (Hnew' l y Hl1 Hsome) as [Hy Hfin]. split; [lia | exact Hfin].
    + rewrite Hcell', <- app_assoc. simpl. subst a'.
      destruct (tr_keyed m1 m' a Hmono' Hka) as [-> _]. reflexivity.
    + simpl. constructor; [|exact Hkeys'].
      apply (tr_keyed m1 m' a Hmono' Hka).
Qed.
End CopySpec.

Lemma copying_alloc (h0 h : Heap.heap) (m : Heap.memo) (l : Heap.loc)
  (c : Heap.cell) :
  Heap.copying h0 h m -> (l < List.length h0)%nat -> Heap.refs c = [] ->
  Heap.copying h0 (h ++ [c]) ((l, List.length h) :: m).
Proof.
  intros Hc Hl Hrefs. pose proof (Heap.cp_length _ _ _ Hc) as Hlen. constructor.
  - rewrite length_app. simpl. lia.
  - intros k Hk. rewrite nth_error_app1 by lia. apply (Heap.cp_source _ _ _ Hc k Hk).
  - intros k z. rewrite copied_cons. destruct (Nat.eqb_spec l k) as [<- | Hne].
    + intros H. injection H as <-. split; [exact Hl|]. simpl.
      rewrite length_app. simpl. lia.
    + intros H. destruct (Heap.cp_memo _ _ _ Hc k z H) as [H1 H2].
      split; [exact H1|]. simpl in *. rewrite length_app. simpl. lia.
  - intros k c' Hk Hc'.
    destruct (Nat.lt_ge_cases k (List.length h)) as [Hlt | Hge].
    + rewrite nth_error_app1 in Hc' by exact Hlt.
      eapply Forall_impl; [|exact (Heap.cp_new _ _ _ Hc k c' Hk Hc')].
      intros r Hr. apply (fresh_later h0 h); [rewrite length_app; lia | exact Hr].
    + rewrite nth_error_app2 in Hc' by exact Hge.
      destruct (k - List.length h)%nat as [|d]; simpl in Hc'.
      * injection Hc' as <-. rewrite Hrefs. constructor.
      * destruct d; discriminate.
Qed.

(** [copy.deepcopy] is a copier. *)
Lemma deepcopy_well (h0 : Heap.heap) :
  Heap.closed h0 -> forall n, Heap.copies_well h0 (Heap.deepcopy n).
Proof.
  intros Hclosed.
  assert (Hsame : forall m h x x',
            Heap.copying h0 h m -> x' = Heap.tr m x -> Heap.keyed m x ->
            Heap.copying h0 h m /\
            (List.length h <= List.length h)%nat /\
            (forall l, (l < List.length h)%nat -> nth_error h l = nth_error h l) /\
            (forall l y, Heap.copied m l = Some y -> Heap.copied m l = Some y) /\
            (forall l y, Heap.copied m l = None -> Heap.copied m l = Some y ->
                         (List.length h <= y)%nat /\ Heap.finished h0 h m l y) /\
            x' = Heap.tr m x /\ Heap.keyed m x).
  { intros m h x x' Hinv Hx Hk.
    split; [exact Hinv|]. split; [lia|]. split; [reflexivity|].
    split; [auto|]. split; [intros l y H1 H2; congruence|].
    split; assumption. }
  induction n as [|n IH]; intros m h x h' m' x' Hrun Hinv Hval.
  - destruct x as [| | | |l]; simpl in Hrun;
      try (injection Hrun as <- <- <-; apply Hsame; [assumption | reflexivity | exact I]).
    destruct (Heap.copied m l) as [y|] eqn:Hl; [|discriminate].
    injection Hrun as <- <- <-. apply Hsame; [assumption | |].
    + simpl. rewrite Hl. reflexivity.
    + simpl. congruence.
  - destruct x as [| | | |l]; simpl in Hrun;
      try (injection Hrun as <- <- <-; apply Hsame; [assumption | reflexivity | exact I]).
    destruct (Heap.copied m l) as [y|] eqn:Hl.
    { injection Hrun as <- <- <-. apply Hsame; [assumption | |].
      - simpl. rewrite Hl. reflexivity.
      - simpl. congruence. }
    simpl in Hval.
    pose proof (Heap.cp_length _ _ _ Hinv) as Hlen.
    rewrite (Heap.cp_source _ _ _ Hinv l Hval) in Hrun.
    destruct (nth_error h0 l) as [c|] eqn:Hc;
      [|apply nth_error_None in Hc; lia].
    pose proof (Hclosed l c Hc) as Hrefs.
    destruct c as [items | fields].
    + destruct (Heap.copy_items (Heap.deepcopy n) ((l, List.length h) :: m)
                  (h ++ [Heap.CList []]) (List.length h) items)
        as [[h1 m1]|e] eqn:Hloop; [|discriminate].
      simpl in Hrun. injection Hrun as <- <- <-.
      destruct (copy_items_spec h0 (Heap.deepcopy n) IH items _ _ _ [] h1 m1 Hloop
                  (copying_alloc h0 h m l (Heap.CList []) Hinv Hval eq_refl)
                  Hrefs Hlen)
        as (Hinv' & Hlen' & Hold' & Hmono' & Hnew' & Hcell' & Hkeys').
      { rewrite nth_error_app2 by lia. rewrite Nat.sub_diag. reflexivity. }
      rewrite length_app in *. simpl in *.
      assert (Hly : Heap.copied m1 l = Some (List.length h)).
      { apply Hmono'. rewrite Nat.eqb_refl. reflexivity. }
      split; [exact Hinv'|]. split; [lia|]. split; [|split; [|split; [|split]]].
      * intros k Hk. rewrite Hold' by lia. apply nth_error_app1. exact Hk.
      * intros k z Hk. apply Hmono'.
        destruct (Nat.eqb_spec l k) as [<- | Hne]; [congruence | exact Hk].
      * intros k z Hnone Hsome.
        destruct (Nat.eqb_spec l k) as [<- | Hne].
        -- rewrite Hly in Hsome. injection Hsome as <-.
           split; [lia|]. exists (Heap.CList items).
           split; [exact Hc|]. split; [exact Hcell' | exact Hkeys'].
        -- destruct (Hnew' k z) as [Hz Hfin].
           ++ destruct (Nat.eqb_spec l k); [congruence | exact Hnone].
           ++ exact Hsome.
           ++ split; [lia | exact Hfin].
      * simpl. rewrite Hly. reflexivity.
      * simpl. congruence.
    + destruct (Heap.copy_fields (Heap.deepcopy n) ((l, List.length h) :: m)
                  (h ++ [Heap.CDict []]) (List.length h) fields)
        as [[h1 m1]|e] eqn:Hloop; [|discriminate].
      simpl in Hrun. injection Hrun as <- <- <-.
      destruct (copy_fields_spec h0 (Heap.deepcopy n) IH fields _ _ _ [] h1 m1 Hloop
                  (copying_alloc h0 h m l (Heap.CDict []) Hinv Hval eq_refl)
                  Hrefs Hlen)
        as (Hinv' & Hlen' & Hold' & Hmono' & Hnew' & Hcell' & Hkeys').
      { rewrite nth_error_app2 by lia. rewrite Nat.sub_diag. reflexivity. }
      rewrite length_app in *. simpl in *.
      assert (Hly : Heap.copied m1 l = Some (List.length h)).
      { apply Hmono'. rewrite Nat.eqb_refl. reflexivity. }
      split; [exact Hinv'|]. split; [lia|]. split; [|split; [|split; [|split]]].
      * intros k Hk. rewrite Hold' by lia. apply nth_error_app1. exact Hk.
      * intros k z Hk. apply Hmono'.
        destruct (Nat.eqb_spec l k) as [<- | Hne]; [congruence | exact Hk].
      * intros k z Hnone Hsome.
        destruct (Nat.eqb_spec l k) as [<- | Hne].
        -- rewrite Hly in Hsome. injection Hsome as <-.
           split; [lia|]. exists (Heap.CDict fields).
           split; [exact Hc|]. split; [exact Hcell' | exact Hkeys'].
        -- destruct (Hnew' k z) as [Hz Hfin].
           ++ destruct (Nat.eqb_spec l k); [congruence | exact Hnone].
           ++ exact Hsome.
           ++ split; [lia | exact Hfin].
      * simpl. rewrite Hly. reflexivity.
      * simpl. congruence.
Qed.

(** *** Structural equality *)

Lemma same_scalar_eq (r r' : Heap.ref) :
  Heap.same_scalar r r' = true -> r = r' /\ Heap.scalar r <> None.
Proof.
  destruct r, r'; simpl; try discriminate; intros H.
  - split; [reflexivity | discriminate].
  - apply Bool.eqb_prop in H. subst. split; [reflexivity | discriminate].
  - apply Z.eqb_eq in H. subst. split; [reflexivity | discriminate].
  - apply String.eqb_eq in H. subst. split; [reflexivity | discriminate].
Qed.


Lemma alike_scalar (n : nat) (h h' : Heap.heap) (r : Heap.ref) :
  Heap.scalar r <> None -> Heap.alike n h r h' r = true.
Proof.
  intros Hr. destruct n; [reflexivity|].
  destruct r; simpl in *; try reflexivity; try congruence.
  - destruct b; reflexivity.
  - apply Z.eqb_refl.
  - apply String.eqb_refl.
Qed.

Lemma all2_Forall2 {A B : Type} (f : A -> B -> bool) (xs : list A) (ys : list B) :
  Heap.all2 f xs ys = true <-> Forall2 (fun x y => f x y = true) xs ys.
Proof.
  revert ys. induction xs as [|x xs IH]; intros [|y ys]; simpl.
  - split; [constructor | reflexivity].
  - split; [discriminate | intros H; inversion H].
  - split; [discriminate | intros H; inversion H].
  - rewrite andb_true_iff, IH. split.
    + intros [H1 H2]. constructor; assumption.
    + intros H. inversion H; subst. auto.
Qed.

(** The unfolding of [alike] on two objects. *)
Lemma alike_objects (n : nat) (h h' : Heap.heap) (l l' : Heap.loc) :
  Heap.alike (S n) h (Heap.RLoc l) h' (Heap.RLoc l') = true <->
  (exists xs ys,
      nth_error h l = Some (Heap.CList xs) /\
      nth_error h' l' = Some (Heap.CList ys) /\
      Forall2 (fun x y => Heap.alike n h x h' y = true) xs ys) \/
  (exists d d',
      nth_error h l = Some (Heap.CDict d) /\
      nth_error h' l' = Some (Heap.CDict d') /\
      Forall2 (fun kx ky => fst kx = fst ky /\
                            Heap.alike n h (snd kx) h' (snd ky) = true) d d').
Proof.
  simpl. split.
  - destruct (nth_error h l) as [[xs|d]|]; destruct (nth_error h' l') as [[ys|d']|];
      try discriminate; intros H.
    + left. exists xs, ys. rewrite all2_Forall2 in H. auto.
    + right. exists d, d'. rewrite all2_Forall2 in H.
      repeat split; auto.
      eapply Forall2_impl; [|exact H]. intros a b Hab. simpl in Hab.
      apply andb_true_iff in Hab as [Hk Ha]. apply String.eqb_eq in Hk. auto.
  - intros [(xs & ys & -> & -> & H) | (d & d' & -> & -> & H)].
    + apply all2_Forall2. exact H.
    + apply all2_Forall2. eapply Forall2_impl; [|exact H].
      intros a b [Hk Ha]. simpl. rewrite Hk, String.eqb_refl, Ha. reflexivity.
Qed.

Lemma alike_kinds (n : nat) (h h' : Heap.heap) (r r' : Heap.ref) :
  Heap.alike (S n) h r h' r' = true ->
  (exists l l', r = Heap.RLoc l /\ r' = Heap.RLoc l') \/
  (r = r' /\ Heap.scalar r <> None).
Proof.
  intros H. destruct r as [| | | |l], r' as [| | | |l'];
    try (right; apply same_scalar_eq; exact H);
    try (simpl in H; discriminate).
  left. eauto.
Qed.

Lemma alike_sym (n : nat) :
  forall h r h' r',
    Heap.alike n h r h' r' = true -> Heap.alike n h' r' h r = true.
Proof.
  induction n as [|n IH]; intros h r h' r' H; [reflexivity|].
  destruct (alike_kinds n h h' r r' H) as [(l & l' & -> & ->) | [<- Hs]];
    [|apply alike_scalar; exact Hs].
  apply alike_objects. apply alike_objects in H.
  destruct H as [(xs & ys & Hx & Hy & H) | (d & d' & Hx & Hy & H)].
  - left. exists ys, xs. repeat split; auto.
    apply Forall2_flip. eapply Forall2_impl; [|exact H]. simpl. auto.
  - right. exists d', d. repeat split; auto.
    apply Forall2_flip. eapply Forall2_impl; [|exact H]. simpl.
    intros a b [Hk Ha]. auto.
Qed.

Lemma Forall2_trans {A B C : Type} (P : A -> B -> Prop) (Q : B -> C -> Prop)
  (R : A -> C -> Prop) (xs : list A) (ys : list B) (zs : list C) :
  (forall x y z, P x y -> Q y z -> R x z) ->
  Forall2 P xs ys -> Forall2 Q ys zs -> Forall2 R xs zs.
Proof.
  intros H HP. revert zs. induction HP as [|x y xs ys Hxy _ IH]; intros zs HQ;
    inversion HQ; subst; constructor; eauto.
Qed.

Lemma alike_trans (n : nat) :
  forall h1 r1 h2 r2 h3 r3,
    Heap.alike n h1 r1 h2 r2 = true -> Heap.alike n h2 r2 h3 r3 = true ->
    Heap.alike n h1 r1 h3 r3 = true.
Proof.
  induction n as [|n IH]; intros h1 r1 h2 r2 h3 r3 H12 H23; [reflexivity|].
  destruct (alike_kinds n h1 h2 r1 r2 H12) as [(l1 & l2 & -> & ->) | [<- Hs]].
  2:{ destruct (alike_kinds n h2 h3 r1 r3 H23) as [(l2' & l3 & -> & _) | [<- _]];
        [simpl in Hs; congruence | apply alike_scalar; exact Hs]. }
  destruct (alike_kinds n h2 h3 _ r3 H23) as [(l2' & l3 & E & ->) | [<- Hs]];
    [|simpl in Hs; congruence].
  injection E as <-.
  apply alike_objects. apply alike_objects in H12, H23.
  destruct H12 as [(xs & ys & Hx & Hy & H12) | (d & d' & Hx & Hy & H12)];
    destruct H23 as [(ys' & zs & Hy' & Hz & H23) | (e & e' & Hy' & Hz & H23)];
    rewrite Hy in Hy'; try discriminate; injection Hy' as <-.
  - left. exists xs, zs. repeat split; auto.
    apply (Forall2_trans _ _ _ xs ys zs (fun x y z => IH h1 x h2 y h3 z) H12 H23).
  - right. exists d, e'. repeat split; auto.
    refine (Forall2_trans _ _ _ d d' e' _ H12 H23).
    intros x y z [Hk1 Ha1] [Hk2 Ha2]. split; [congruence|].
    apply (IH h1 _ h2 _ h3 _ Ha1 Ha2).
Qed.

Lemma traverse_Forall2_eq {A B C : Type} (f : A -> option C) (g : B -> option C)
  (xs : list A) (ys : list B) :
  Forall2 (fun x y => f x = g y) xs ys ->
  Heap.traverse f xs = Heap.traverse g ys.
Proof.
  induction 1 as [|x y xs ys Hxy _ IH]; simpl; [reflexivity|].
  rewrite Hxy, IH. reflexivity.
Qed.

(** Objects that are alike one level further than they are read read as
    the same tree, or both as none. *)
Lemma alike_read (n : nat) :
  forall h r h' r',
    Heap.alike (S n) h r h' r' = true -> Heap.read n h r = Heap.read n h' r'.
Proof.
  induction n as [|n IH]; intros h r h' r' H.
  - destruct (alike_kinds 0 h h' r r' H) as [(l & l' & -> & ->) | [<- Hs]];
      [reflexivity|].
    destruct r; reflexivity.
  - destruct (alike_kinds (S n) h h' r r' H) as [(l & l' & -> & ->) | [<- Hs]].
    + apply alike_objects in H.
      destruct H as [(xs & ys & Hx & Hy & H) | (d & d' & Hx & Hy & H)];
        simpl; rewrite Hx, Hy; f_equal.
      * apply traverse_Forall2_eq. eapply Forall2_impl; [|exact H].
        intros a b Hab. apply IH. exact Hab.
      * apply traverse_Forall2_eq. eapply Forall2_impl; [|exact H].
        intros a b [Hk Hab]. rewrite Hk, (IH h (snd a) h' (snd b) Hab).
        reflexivity.
    + destruct r; try reflexivity. simpl in Hs. congruence.
Qed.

(** *** What a copy is *)

Lemma alike_copy (h0 h' : Heap.heap) (m : Heap.memo) :
  (forall l y, Heap.copied m l = Some y -> Heap.finished h0 h' m l y) ->
  forall n x, Heap.keyed m x -> Heap.alike n h' (Heap.tr m x) h0 x = true.
Proof.
  intros Hfin. induction n as [|n IH]; intros x Hk; [reflexivity|].
  destruct x as [| | | |l]; try (apply alike_scalar; discriminate).
  simpl in Hk. simpl Heap.tr.
  destruct (Heap.copied m l) as [y|] eqn:Hl; [|congruence].
  destruct (Hfin l y Hl) as (c & Hc & Hy & Hkeys).
  apply alike_objects. destruct c as [items | fields]; simpl in *.
  - left. exists (map (Heap.tr m) items), items.
    split; [exact Hy|]. split; [exact Hc|].
    clear Hc Hy. induction items as [|r items IHitems]; simpl; [constructor|].
    inversion Hkeys; subst. constructor; [apply IH; assumption|].
    apply IHitems; assumption.
  - right. exists (map (fun kr => (fst kr, Heap.tr m (snd kr))) fields), fields.
    split; [exact Hy|]. split; [exact Hc|].
    clear Hc Hy. induction fields as [|[k r] fields IHfields]; simpl; [constructor|].
    simpl in Hkeys. inversion Hkeys; subst.
    constructor; [split; [reflexivity | apply IH; assumption]|].
    apply IHfields; assumption.
Qed.

Lemma reach_fresh (h0 h' : Heap.heap) :
  (forall l c, (List.length h0 <= l)%nat -> nth_error h' l = Some c ->
               Forall (Heap.fresh h0 h') (Heap.refs c)) ->
  forall r l, Heap.reach h' r l -> Heap.fresh h0 h' r ->
              (List.length h0 <= l < List.length h')%nat.
Proof.
  intros Hnew r l Hreach. induction Hreach as [l | l c r l' Hc Hin _ IH];
    intros Hfresh; simpl in Hfresh; [exact Hfresh|].
  apply IH. pose proof (Hnew l c (proj1 Hfresh) Hc) as Hall.
  rewrite Forall_forall in Hall. apply Hall. exact Hin.
Qed.

Lemma copying_start (h : Heap.heap) : Heap.copying h h [].
Proof.
  constructor; try lia; auto.
  - intros l y H. discriminate.
  - intros l c Hl Hc. apply nth_error_valid in Hc. lia.
Qed.

(** [copy.deepcopy(x)]: the objects there were are as they were; the copy
    is made of new objects that refer to new objects only, and it is
    structurally equal to [x]. *)
Lemma deepcopy_copy (fuel : nat) (h h' : Heap.heap) (m' : Heap.memo)
  (x x' : Heap.ref) :
  Heap.closed h -> Heap.valid h x ->
  Heap.deepcopy fuel [] h x = Ok (h', m', x') ->
  (List.length h <= List.length h')%nat /\
  (forall l, (l < List.length h)%nat -> nth_error h' l = nth_error h l) /\
  Heap.fresh h h' x' /\
  (forall l c, (List.length h <= l)%nat -> nth_error h' l = Some c ->
               Forall (Heap.fresh h h') (Heap.refs c)) /\
  (forall n, Heap.alike n h' x' h x = true).
Proof.
  intros Hclosed Hval Hrun.
  destruct (deepcopy_well h Hclosed fuel [] h x h' m' x' Hrun (copying_start h) Hval)
    as (Hinv & Hlen & Hold & _ & Hnew & Hx' & Hk).
  split; [exact Hlen|]. split; [exact Hold|]. split; [|split].
  - subst x'. apply tr_fresh; assumption.
  - apply (Heap.cp_new _ _ _ Hinv).
  - intros n. subst x'. apply alike_copy; [|exact Hk].
    intros l y Hl. apply (Hnew l y eq_refl Hl).
Qed.



(** *** What a read of the store looks at *)

Section Agreement.
Variable own : Heap.loc -> bool.
Variables h1 h2 : Heap.heap.
Hypothesis Hagree : Heap.agree own h1 h2.

Lemma list_at_agree (r : Heap.ref) :
  Heap.side own true r ->
  Heap.list_at h1 r = Heap.list_at h2 r /\
  forall items, Heap.list_at h1 r = Some items ->
                Forall (Heap.side own true) items.
Proof.
  destruct r as [| | | |l]; simpl; intros Hr;
    try (split; [reflexivity | discriminate]).
  destruct (Hagree l Hr) as (c & -> & -> & Hc).
  split; [reflexivity|]. destruct c; [|discriminate].
  intros items' E. injection E as <-. exact Hc.
Qed.

Lemma dict_at_agree (r : Heap.ref) :
  Heap.side own true r ->
  Heap.dict_at h1 r = Heap.dict_at h2 r /\
  forall fields, Heap.dict_at h1 r = Some fields ->
                 Forall (Heap.side own true) (map snd fields).
Proof.
  destruct r as [| | | |l]; simpl; intros Hr;
    try (split; [reflexivity | discriminate]).
  destruct (Hagree l Hr) as (c & -> & -> & Hc).
  split; [reflexivity|]. destruct c; [discriminate|].
  intros fields' E. injection E as <-. exact Hc.
Qed.

Lemma dict_get_side (k : string) (fields : list (string * Heap.ref)) (r : Heap.ref) :
  Forall (Heap.side own true) (map snd fields) ->
  dict_get k fields = Some r -> Heap.side own true r.
Proof.
  intros Hall Hg. apply dict_get_In in Hg.
  rewrite Forall_forall in Hall. apply Hall.
  apply (in_map snd) in Hg. exact Hg.
Qed.

Lemma get_path_agree (parts : list string) :
  forall r, Heap.side own true r ->
    Heap.get_path h1 r parts = Heap.get_path h2 r parts /\
    Heap.side own true (Heap.get_path h1 r parts).
Proof.
  induction parts as [|part rest IH]; intros r Hr; simpl; [auto|].
  destruct (dict_at_agree r Hr) as [<- Hfields].
  destruct (Heap.dict_at h1 r) as [fields|]; [|simpl; auto].
  destruct (dict_get part fields) as [r'|] eqn:Hg; [|simpl; auto].
  apply IH. apply (dict_get_side part fields r' (Hfields fields eq_refl) Hg).
Qed.

Lemma equals_agree :
  forall v r, Heap.side own true r -> Heap.equals h1 v r = Heap.equals h2 v r.
Proof.
  induction v as [| x | x | x | vs IH | d IH] using value_nested_ind;
    intros r Hr; try reflexivity.
  - simpl. destruct (list_at_agree r Hr) as [<- Hitems].
    destruct (Heap.list_at h1 r) as [rs|]; [|reflexivity].
    specialize (Hitems rs eq_refl). revert rs Hitems.
    induction IH as [|v vs Hv _ IHvs]; intros [|r' rs] Hrs; try reflexivity.
    inversion Hrs; subst. rewrite (Hv r') by assumption.
    rewrite IHvs by assumption. reflexivity.
  - simpl. destruct (dict_at_agree r Hr) as [<- Hfields].
    destruct (Heap.dict_at h1 r) as [fs|]; [|reflexivity].
    specialize (Hfields fs eq_refl). f_equal.
    induction IH as [|[k w] d Hw _ IHd]; [reflexivity|].
    simpl in Hw. rewrite IHd.
    destruct (dict_get k fs) as [r'|] eqn:Hg; [|reflexivity].
    rewrite (Hw r') by (apply (dict_get_side k fs r' Hfields Hg)).
    reflexivity.
Qed.

Lemma less_agree :
  forall v r, Heap.side own true r -> Heap.less h1 v r = Heap.less h2 v r.
Proof.
  induction v as [| x | x | x | vs IH | d IH] using value_nested_ind;
    intros r Hr; try reflexivity.
  simpl. destruct (list_at_agree r Hr) as [<- Hitems].
  destruct (Heap.list_at h1 r) as [rs|]; [|reflexivity].
  specialize (Hitems rs eq_refl). revert rs Hitems.
  induction IH as [|v vs Hv _ IHvs]; intros [|r' rs] Hrs; try reflexivity.
  inversion Hrs; subst. rewrite (equals_agree v r') by assumption.
  rewrite (Hv r') by assumption. rewrite IHvs by assumption. reflexivity.
Qed.

Lemma greater_agree :
  forall v r, Heap.side own true r -> Heap.greater h1 v r = Heap.greater h2 v r.
Proof.
  induction v as [| x | x | x | vs IH | d IH] using value_nested_ind;
    intros r Hr; try reflexivity.
  simpl. destruct (list_at_agree r Hr) as [<- Hitems].
  destruct (Heap.list_at h1 r) as [rs|]; [|reflexivity].
  specialize (Hitems rs eq_refl). revert rs Hitems.
  induction IH as [|v vs Hv _ IHvs]; intros [|r' rs] Hrs; try reflexivity.
  inversion Hrs; subst. rewrite (equals_agree v r') by assumption.
  rewrite (Hv r') by assumption. rewrite IHvs by assumption. reflexivity.
Qed.

Lemma existsb_ext_in {A : Type} (f g : A -> bool) (xs : list A) :
  (forall x, In x xs -> f x = g x) -> existsb f xs = existsb g xs.
Proof.
  induction xs as [|x xs IH]; intros H; simpl; [reflexivity|].
  rewrite (H x) by (left; reflexivity).
  rewrite IH by (intros y Hy; apply H; right; exact Hy). reflexivity.
Qed.

Lemma contains_agree (r : Heap.ref) (container : value) :
  Heap.side own true r ->
  Heap.contains h1 r container = Heap.contains h2 r container.
Proof.
  intros Hr. destruct container; try reflexivity. simpl. f_equal.
  apply existsb_ext_in. intros c _. apply equals_agree. exact Hr.
Qed.

Lemma check_in_agree (r : Heap.ref) (expected : list (string * value)) :
  Heap.side own true r ->
  Heap.check_in h1 r expected = Heap.check_in h2 r expected.
Proof.
  intros Hr. unfold Heap.check_in.
  destruct (dict_get "$in" expected) as [cands|]; [|reflexivity].
  destruct (list_at_agree r Hr) as [<- Hitems].
  destruct (Heap.list_at h1 r) as [items|]; [|apply contains_agree; exact Hr].
  specialize (Hitems items eq_refl).
  destruct (py_iter cands) as [cs|e]; [|reflexivity]. simpl. f_equal.
  apply existsb_ext_in. intros c _. apply existsb_ext_in. intros item Hin.
  apply equals_agree. rewrite Forall_forall in Hitems. apply Hitems. exact Hin.
Qed.

Lemma check_gte_agree (r : Heap.ref) (expected : list (string * value)) :
  Heap.side own true r ->
  Heap.check_gte h1 r expected = Heap.check_gte h2 r expected.
Proof.
  intros Hr. unfold Heap.check_gte.
  destruct (dict_get "$gte" expected) as [bound|]; [|reflexivity].
  rewrite (less_agree bound r Hr). reflexivity.
Qed.

Lemma check_lte_agree (r : Heap.ref) (expected : list (string * value)) :
  Heap.side own true r ->
  Heap.check_lte h1 r expected = Heap.check_lte h2 r expected.
Proof.
  intros Hr. unfold Heap.check_lte.
  destruct (dict_get "$lte" expected) as [bound|]; [|reflexivity].
  rewrite (greater_agree bound r Hr). reflexivity.
Qed.

Lemma field_holds_agree (document : Heap.ref) (key : string) (expected : value) :
  Heap.side own true document ->
  Heap.field_holds h1 document key expected =
  Heap.field_holds h2 document key expected.
Proof.
  intros Hd. unfold Heap.field_holds, Heap._get_nested_value.
  destruct (get_path_agree (split_dot key) document Hd) as [<- Hr].
  destruct expected; try (rewrite (equals_agree _ _ Hr); reflexivity).
  rewrite (check_in_agree _ _ Hr), (check_gte_agree _ _ Hr),
    (check_lte_agree _ _ Hr). reflexivity.
Qed.

Lemma matches_query_agree (document : Heap.ref) (query : list (string * value)) :
  Heap.side own true document ->
  Heap._matches_query h1 document query = Heap._matches_query h2 document query.
Proof.
  intros Hd. unfold Heap._matches_query. destruct query as [|kv query]; [reflexivity|].
  generalize (kv :: query). clear kv query.
  induction l as [|[key expected] rest IH]; simpl; [reflexivity|].
  rewrite (field_holds_agree document key expected Hd), IH. reflexivity.
Qed.

End Agreement.

(** *** A copy looks at what it copies only *)

Section CopyAgreement.
Variable own : Heap.loc -> bool.

Lemma agree_bound (h1 h2 : Heap.heap) (l : Heap.loc) :
  Heap.agree own h1 h2 -> own l = true ->
  (l < List.length h1)%nat /\ (l < List.length h2)%nat.
Proof.
  intros H Hl. destruct (H l Hl) as (c & H1 & H2 & _).
  split; eapply nth_error_valid; eassumption.
Qed.

Lemma agree_end (h1 h2 : Heap.heap) :
  Heap.agree own h1 h2 ->
  own (List.length h1) = false /\ own (List.length h2) = false.
Proof.
  intros H. split.
  - destruct (own (List.length h1)) eqn:E; [|reflexivity].
    destruct (agree_bound h1 h2 _ H E). lia.
  - destruct (own (List.length h2)) eqn:E; [|reflexivity].
    destruct (agree_bound h1 h2 _ H E). lia.
Qed.

Lemma agree_app (h1 h2 : Heap.heap) (c1 c2 : Heap.cell) :
  Heap.agree own h1 h2 -> Heap.agree own (h1 ++ [c1]) (h2 ++ [c2]).
Proof.
  intros H l Hl. destruct (H l Hl) as (c & H1 & H2 & Hc). exists c.
  rewrite !nth_error_app1 by (eapply nth_error_valid; eassumption). auto.
Qed.

Lemma agree_write (h1 h2 : Heap.heap) (y1 y2 : Heap.loc) (c1 c2 : Heap.cell) :
  Heap.agree own h1 h2 -> own y1 = false -> own y2 = false ->
  Heap.agree own (Heap.write h1 y1 c1) (Heap.write h2 y2 c2).
Proof.
  intros H Hy1 Hy2 l Hl. destruct (H l Hl) as (c & H1 & H2 & Hc). exists c.
  rewrite !nth_error_write_other by congruence. auto.
Qed.

Lemma agree_append (h1 h2 : Heap.heap) (y1 y2 : Heap.loc) (a1 a2 : Heap.ref) :
  Heap.agree own h1 h2 -> own y1 = false -> own y2 = false ->
  Heap.agree own (Heap.append h1 y1 a1) (Heap.append h2 y2 a2).
Proof.
  intros H Hy1 Hy2. unfold Heap.append.
  assert (Hl : forall c, Heap.agree own (Heap.write h1 y1 c) h2).
  { intros c l Hl. destruct (H l Hl) as (c' & H1 & H2 & Hc). exists c'.
    rewrite nth_error_write_other by congruence. auto. }
  assert (Hr : forall c, Heap.agree own h1 (Heap.write h2 y2 c)).
  { intros c l Hl'. destruct (H l Hl') as (c' & H1 & H2 & Hc). exists c'.
    rewrite nth_error_write_other by congruence. auto. }
  destruct (nth_error h1 y1) as [[xs1|d1]|]; destruct (nth_error h2 y2) as [[xs2|d2]|];
    auto using agree_write.
Qed.

Lemma agree_assign (h1 h2 : Heap.heap) (y1 y2 : Heap.loc) (k : string)
  (a1 a2 : Heap.ref) :
  Heap.agree own h1 h2 -> own y1 = false -> own y2 = false ->
  Heap.agree own (Heap.assign h1 y1 k a1) (Heap.assign h2 y2 k a2).
Proof.
  intros H Hy1 Hy2. unfold Heap.assign.
  assert (Hl : forall c, Heap.agree own (Heap.write h1 y1 c) h2).
  { intros c l Hl. destruct (H l Hl) as (c' & H1 & H2 & Hc). exists c'.
    rewrite nth_error_write_other by congruence. auto. }
  assert (Hr : forall c, Heap.agree own h1 (Heap.write h2 y2 c)).
  { intros c l Hl'. destruct (H l Hl') as (c' & H1 & H2 & Hc). exists c'.
    rewrite nth_error_write_other by congruence. auto. }
  destruct (nth_error h1 y1) as [[xs1|d1]|]; destruct (nth_error h2 y2) as [[xs2|d2]|];
    auto using agree_write.
Qed.

Lemma copied_same_keys (m1 m2 : Heap.memo) (l : Heap.loc) :
  map fst m1 = map fst m2 ->
  (Heap.copied m1 l = None <-> Heap.copied m2 l = None).
Proof.
  revert m2. induction m1 as [|[x1 y1] m1 IH]; intros [|[x2 y2] m2] H;
    simpl in *; try discriminate; [tauto|].
  injection H as -> H. destruct (Nat.eqb x2 l); [|apply IH; exact H].
  split; discriminate.
Qed.

Section Items.
Variable copy : Heap.memo -> Heap.heap -> Heap.ref ->
                result (Heap.heap * Heap.memo * Heap.ref).
Hypothesis Hcopy :
  forall m1 m2 h1 h2 x,
    map fst m1 = map fst m2 -> Heap.agree own h1 h2 -> Heap.side own true x ->
    match copy m1 h1 x, copy m2 h2 x with
    | Ok (h1', m1', _), Ok (h2', m2', _) =>
        map fst m1' = map fst m2' /\ Heap.agree own h1' h2'
    | Raise e1, Raise e2 => e1 = e2
    | _, _ => False
    end.

Lemma copy_items_agree (items : list Heap.ref) :
  forall m1 m2 h1 h2 y1 y2,
    map fst m1 = map fst m2 -> Heap.agree own h1 h2 ->
    Forall (Heap.side own true) items -> own y1 = false -> own y2 = false ->
    match Heap.copy_items copy m1 h1 y1 items,
          Heap.copy_items copy m2 h2 y2 items with
    | Ok (h1', m1'), Ok (h2', m2') =>
        map fst m1' = map fst m2' /\ Heap.agree own h1' h2'
    | Raise e1, Raise e2 => e1 = e2
    | _, _ => False
    end.
Proof.
  induction items as [|a items IH]; intros m1 m2 h1 h2 y1 y2 Hm Hh Hall Hy1 Hy2;
    simpl; [auto|].
  inversion Hall as [|? ? Ha Hrest]; subst.
  pose proof (Hcopy m1 m2 h1 h2 a Hm Hh Ha) as Hc.
  destruct (copy m1 h1 a) as [[[h1' m1'] a1]|e1];
    destruct (copy m2 h2 a) as [[[h2' m2'] a2]|e2]; try contradiction;
    [|exact Hc].
  destruct Hc as [Hm' Hh'].
  apply IH; auto using agree_append.
Qed.

Lemma copy_fields_agree (fields : list (string * Heap.ref)) :
  forall m1 m2 h1 h2 y1 y2,
    map fst m1 = map fst m2 -> Heap.agree own h1 h2 ->
    Forall (Heap.side own true) (map snd fields) ->
    own y1 = false -> own y2 = false ->
    match Heap.copy_fields copy m1 h1 y1 fields,
          Heap.copy_fields copy m2 h2 y2 fields with
    | Ok (h1', m1'), Ok (h2', m2') =>
        map fst m1' = map fst m2' /\ Heap.agree own h1' h2'
    | Raise e1, Raise e2 => e1 = e2
    | _, _ => False
    end.
Proof.
  induction fields as [|[k a] fields IH];
    intros m1 m2 h1 h2 y1 y2 Hm Hh Hall Hy1 Hy2; simpl; [auto|].
  simpl in Hall. inversion Hall as [|? ? Ha Hrest]; subst.
  pose proof (Hcopy m1 m2 h1 h2 a Hm Hh Ha) as Hc.
  destruct (copy m1 h1 a) as [[[h1' m1'] a1]|e1];
    destruct (copy m2 h2 a) as [[[h2' m2'] a2]|e2]; try contradiction;
    [|exact Hc].
  destruct Hc as [Hm' Hh'].
  apply IH; auto using agree_assign.
Qed.
End Items.

(** Whether a copy is made, and what it raises, is the same in two heaps
    that hold the same objects of the store. *)
Lemma deepcopy_agree (n : nat) :
  forall m1 m2 h1 h2 x,
    map fst m1 = map fst m2 -> Heap.agree own h1 h2 -> Heap.side own true x ->
    match Heap.deepcopy n m1 h1 x, Heap.deepcopy n m2 h2 x with
    | Ok (h1', m1', _), Ok (h2', m2', _) =>
        map fst m1' = map fst m2' /\ Heap.agree own h1' h2'
    | Raise e1, Raise e2 => e1 = e2
    | _, _ => False
    end.
Proof.
  induction n as [|n IH]; intros m1 m2 h1 h2 x Hm Hh Hx.
  - destruct x as [| | | |l]; simpl; auto.
    pose proof (copied_same_keys m1 m2 l Hm) as Hk.
    destruct (Heap.copied m1 l) as [y1|]; destruct (Heap.copied m2 l) as [y2|];
      auto.
    + destruct Hk as [_ Hk]. specialize (Hk eq_refl). discriminate.
    + destruct Hk as [Hk _]. specialize (Hk eq_refl). discriminate.
  - destruct x as [| | | |l]; simpl; auto.
    pose proof (copied_same_keys m1 m2 l Hm) as Hk.
    destruct (Heap.copied m1 l) as [y1|]; destruct (Heap.copied m2 l) as [y2|];
      auto.
    + destruct Hk as [_ Hk]. specialize (Hk eq_refl). discriminate.
    + destruct Hk as [Hk _]. specialize (Hk eq_refl). discriminate.
    + simpl in Hx. destruct (Hh l Hx) as (c & -> & -> & Hc).
      destruct (agree_end h1 h2 Hh) as [He1 He2].
      assert (Hm' : map fst ((l, List.length h1) :: m1) =
                    map fst ((l, List.length h2) :: m2)).
      { simpl. f_equal. exact Hm. }
      destruct c as [items | fields].
      * pose proof (copy_items_agree (Heap.deepcopy n) IH items _ _
                      (h1 ++ [Heap.CList []]) (h2 ++ [Heap.CList []])
                      (List.length h1) (List.length h2) Hm'
                      (agree_app h1 h2 _ _ Hh) Hc He1 He2) as Hr.
        destruct (Heap.copy_items (Heap.deepcopy n) ((l, List.length h1) :: m1)
                    (h1 ++ [Heap.CList []]) (List.length h1) items)
          as [[h1' m1']|e1];
          destruct (Heap.copy_items (Heap.deepcopy n) ((l, List.length h2) :: m2)
                      (h2 ++ [Heap.CList []]) (List.length h2) items)
            as [[h2' m2']|e2]; simpl; exact Hr.
      * pose proof (copy_fields_agree (Heap.deepcopy n) IH fields _ _
                      (h1 ++ [Heap.CDict []]) (h2 ++ [Heap.CDict []])
                      (List.length h1) (List.length h2) Hm'
                      (agree_app h1 h2 _ _ Hh) Hc He1 He2) as Hr.
        destruct (Heap.copy_fields (Heap.deepcopy n) ((l, List.length h1) :: m1)
                    (h1 ++ [Heap.CDict []]) (List.length h1) fields)
          as [[h1' m1']|e1];
          destruct (Heap.copy_fields (Heap.deepcopy n) ((l, List.length h2) :: m2)
                      (h2 ++ [Heap.CDict []]) (List.length h2) fields)
            as [[h2' m2']|e2]; simpl; exact Hr.
Qed.

Lemma alike_agree (h1 h2 : Heap.heap) :
  Heap.agree own h1 h2 ->
  forall n x, Heap.side own true x -> Heap.alike n h1 x h2 x = true.
Proof.
  intros Hh. induction n as [|n IH]; intros x Hx; [reflexivity|].
  destruct x as [| | | |l]; try (apply alike_scalar; discriminate).
  simpl in Hx. destruct (Hh l Hx) as (c & H1 & H2 & Hc).
  apply alike_objects. destruct c as [items | fields]; simpl in Hc.
  - left. exists items, items. repeat split; auto.
    clear H1 H2. induction Hc; constructor; auto.
  - right. exists fields, fields. split; [exact H1|]. split; [exact H2|].
    clear H1 H2. induction fields as [|[k r] fields IHf]; [constructor|].
    simpl in Hc. inversion Hc; subst. constructor; [split; auto|].
    apply IHf; assumption.
Qed.

(** The copies of one document of the store, made in two heaps that hold
    the same objects of the store, are equal down to every level. *)
Lemma deepcopy_same (fuel : nat) (h1 h2 : Heap.heap) (x : Heap.ref) :
  Heap.agree own h1 h2 -> Heap.closed h1 -> Heap.closed h2 ->
  Heap.side own true x -> Heap.valid h1 x -> Heap.valid h2 x ->
  Heap.same_copy (Heap.deepcopy fuel [] h1 x) (Heap.deepcopy fuel [] h2 x).
Proof.
  intros Hh Hc1 Hc2 Hx Hv1 Hv2.
  pose proof (deepcopy_agree fuel [] [] h1 h2 x eq_refl Hh Hx) as Hr.
  unfold Heap.same_copy.
  destruct (Heap.deepcopy fuel [] h1 x) as [[[h1' m1'] r1]|e1] eqn:E1;
    destruct (Heap.deepcopy fuel [] h2 x) as [[[h2' m2'] r2]|e2] eqn:E2;
    try contradiction; [|exact Hr].
  intros n.
  destruct (deepcopy_copy fuel h1 h1' m1' x r1 Hc1 Hv1 E1) as (_ & _ & _ & _ & Ha1).
  destruct (deepcopy_copy fuel h2 h2' m2' x r2 Hc2 Hv2 E2) as (_ & _ & _ & _ & Ha2).
  apply (alike_trans n h1' r1 h1 x h2' r2 (Ha1 n)).
  apply (alike_trans n h1 x h2 x h2' r2 (alike_agree h1 h2 Hh n x Hx)).
  apply alike_sym. apply Ha2.
Qed.

End CopyAgreement.

(** *** The store and the caller apart *)

Lemma separated_closed (own : Heap.loc -> bool) (cfg : Heap.config) :
  Heap.separated own cfg -> Heap.closed (Heap.cells cfg).
Proof.
  intros Hsep l c Hc. eapply Forall_impl; [|apply (Heap.sep_cells _ _ Hsep l c Hc)].
  simpl. tauto.
Qed.

Lemma separated_agree (own : Heap.loc -> bool) (cfg : Heap.config) (h' : Heap.heap) :
  Heap.separated own cfg ->
  (forall l, own l = true -> nth_error h' l = nth_error (Heap.cells cfg) l) ->
  Heap.agree own (Heap.cells cfg) h'.
Proof.
  intros Hsep Hsame l Hl.
  pose proof (Heap.sep_own _ _ Hsep l Hl) as Hlt.
  destruct (nth_error (Heap.cells cfg) l) as [c|] eqn:Hc;
    [|apply nth_error_None in Hc; lia].
  exists c. split; [reflexivity|]. split; [rewrite Hsame; assumption|].
  eapply Forall_impl; [|apply (Heap.sep_cells _ _ Hsep l c Hc)].
  simpl. intros r [_ Hr]. rewrite Hl in Hr. exact Hr.
Qed.

Lemma own_beyond (own : Heap.loc -> bool) (cfg : Heap.config) (l : Heap.loc) :
  Heap.separated own cfg -> (List.length (Heap.cells cfg) <= l)%nat ->
  own l = false.
Proof.
  intros Hsep Hl. destruct (own l) eqn:E; [|reflexivity].
  pose proof (Heap.sep_own _ _ Hsep l E). lia.
Qed.

Lemma reach_side (own : Heap.loc -> bool) (cfg : Heap.config) (b : bool) :
  Heap.separated own cfg ->
  forall r l, Heap.reach (Heap.cells cfg) r l ->
    Heap.valid (Heap.cells cfg) r -> Heap.side own b r ->
    (l < List.length (Heap.cells cfg))%nat /\ own l = b.
Proof.
  intros Hsep r l Hreach.
  induction Hreach as [l | l c r l' Hc Hin _ IH]; intros Hv Hs; [auto|].
  simpl in Hs. pose proof (Heap.sep_cells _ _ Hsep l c Hc) as Hall.
  rewrite Forall_forall in Hall. destruct (Hall r Hin) as [Hvr Hsr].
  rewrite Hs in Hsr. auto.
Qed.

(** What the caller can get at is its own. *)
Lemma held_side (own : Heap.loc -> bool) (cfg : Heap.config) (r : Heap.ref) :
  Heap.separated own cfg -> Heap.held cfg r ->
  Heap.valid (Heap.cells cfg) r /\ Heap.side own false r.
Proof.
  intros Hsep Hheld. destruct r as [| | | |l]; simpl; auto.
  destruct Hheld as (root & Hin & Hreach).
  pose proof (Heap.sep_roots _ _ Hsep) as Hroots.
  rewrite Forall_forall in Hroots. destruct (Hroots root Hin) as [Hv Hs].
  apply (reach_side own cfg false Hsep root l Hreach Hv Hs).
Qed.

Lemma separated_gens (own : Heap.loc -> bool) (h : Heap.heap)
  (ds : Heap.documents) (rs : list Heap.ref)
  (gs gs' : list (list (string * value) * Heap.generator)) :
  Heap.separated own (Heap.Config h ds rs gs) ->
  Heap.separated own (Heap.Config h ds rs gs').
Proof. intros [H1 H2 H3 H4]. constructor; assumption. Qed.

Lemma separated_root (own : Heap.loc -> bool) (h : Heap.heap)
  (ds : Heap.documents) (rs : list Heap.ref)
  (gs : list (list (string * value) * Heap.generator)) (r : Heap.ref) :
  Heap.separated own (Heap.Config h ds rs gs) ->
  Heap.valid h r -> Heap.side own false r ->
  Heap.separated own (Heap.Config h ds (r :: rs) gs).
Proof.
  intros [H1 H2 H3 H4] Hv Hs. constructor; simpl in *; auto.
Qed.

Lemma Forall_store_set {D : Type} (P : value * D -> Prop) (k : value) (d : D)
  (self : list (value * D)) :
  (forall k', P (k', d)) -> Forall P self -> Forall P (store_set k d self).
Proof.
  intros Hd. induction 1 as [|[k' d'] self Hx Hrest IH]; simpl.
  - constructor; [apply Hd | constructor].
  - destruct (py_eq k' k); constructor; auto.
Qed.

Lemma separated_doc (own : Heap.loc -> bool) (h : Heap.heap)
  (ds : Heap.documents) (rs : list Heap.ref)
  (gs : list (list (string * value) * Heap.generator)) (k : value) (r : Heap.ref) :
  Heap.separated own (Heap.Config h ds rs gs) ->
  Heap.valid h r -> Heap.side own true r ->
  Heap.separated own (Heap.Config h (store_set k r ds) rs gs).
Proof.
  intros [H1 H2 H3 H4] Hv Hs. constructor; simpl in *; auto.
  apply Forall_store_set; auto.
Qed.

(** New objects on top of the heap, for one side. *)
Lemma separated_extend (own own' : Heap.loc -> bool) (h h' : Heap.heap)
  (ds : Heap.documents) (rs : list Heap.ref)
  (gs : list (list (string * value) * Heap.generator)) :
  Heap.separated own (Heap.Config h ds rs gs) ->
  (List.length h <= List.length h')%nat ->
  (forall l, (l < List.length h)%nat -> nth_error h' l = nth_error h l) ->
  (forall l c, (List.length h <= l)%nat -> nth_error h' l = Some c ->
               Forall (fun r => Heap.valid h' r /\ Heap.side own' (own' l) r)
                      (Heap.refs c)) ->
  (forall l, (l < List.length h)%nat -> own' l = own l) ->
  (forall l, own' l = true -> (l < List.length h')%nat) ->
  Heap.separated own' (Heap.Config h' ds rs gs).
Proof.
  intros [H1 H2 H3 H4] Hlen Hold Hnew Hown Hbound. simpl in *.
  assert (Hside : forall b r, Heap.valid h r -> Heap.side own b r ->
                              Heap.valid h' r /\ Heap.side own' b r).
  { intros b r Hv Hs. destruct r as [| | | |l]; simpl in *; auto.
    split; [lia|]. rewrite Hown; assumption. }
  constructor; simpl.
  - intros l c Hc. destruct (Nat.lt_ge_cases l (List.length h)) as [Hl | Hl].
    + rewrite Hold in Hc by exact Hl.
      eapply Forall_impl; [|apply (H1 l c Hc)]. simpl.
      intros r [Hv Hs]. rewrite (Hown l Hl). apply Hside; assumption.
    + apply Hnew; assumption.
  - exact Hbound.
  - eapply Forall_impl; [|exact H3]. simpl. intros kr [Hv Hs].
    apply Hside; assumption.
  - eapply Forall_impl; [|exact H4]. simpl. intros r [Hv Hs].
    apply Hside; assumption.
Qed.

(** A change of one object, by the side it belongs to. *)
Lemma separated_write (own : Heap.loc -> bool) (h : Heap.heap)
  (ds : Heap.documents) (rs : list Heap.ref)
  (gs : list (list (string * value) * Heap.generator))
  (l : Heap.loc) (c : Heap.cell) :
  Heap.separated own (Heap.Config h ds rs gs) ->
  Forall (fun r => Heap.valid h r /\ Heap.side own (own l) r) (Heap.refs c) ->
  Heap.separated own (Heap.Config (Heap.write h l c) ds rs gs).
Proof.
  intros [H1 H2 H3 H4] Hc. simpl in *.
  assert (Hv : forall r, Heap.valid h r -> Heap.valid (Heap.write h l c) r).
  { intros r. destruct r; simpl; auto. rewrite length_write. auto. }
  constructor; simpl.
  - intros l' c' Hc'. destruct (Nat.eq_dec l l') as [<- | Hne].
    + assert (Hl : (l < List.length h)%nat).
      { apply nth_error_valid in Hc'. rewrite length_write in Hc'. exact Hc'. }
      rewrite nth_error_write_same in Hc' by exact Hl. injection Hc' as <-.
      eapply Forall_impl; [|exact Hc]. simpl. intros r [Hr Hs]. auto.
    + rewrite nth_error_write_other in Hc' by exact Hne.
      eapply Forall_impl; [|apply (H1 l' c' Hc')]. simpl. intros r [Hr Hs]. auto.
  - intros l' Hl'. rewrite length_write. auto.
  - eapply Forall_impl; [|exact H3]. simpl. intros kr [Hr Hs]. auto.
  - eapply Forall_impl; [|exact H4]. simpl. intros r [Hr Hs]. auto.
Qed.

(** A copy for the caller. *)
Lemma separated_copy_out (own : Heap.loc -> bool) (fuel : nat) (h h' : Heap.heap)
  (ds : Heap.documents) (rs : list Heap.ref)
  (gs : list (list (string * value) * Heap.generator))
  (m : Heap.memo) (x r : Heap.ref) :
  Heap.separated own (Heap.Config h ds rs gs) -> Heap.valid h x ->
  Heap.deepcopy fuel [] h x = Ok (h', m, r) ->
  Heap.separated own (Heap.Config h' ds (r :: rs) gs) /\
  (forall l, (l < List.length h)%nat -> nth_error h' l = nth_error h l).
Proof.
  intros Hsep Hx Hrun.
  destruct (deepcopy_copy fuel h h' m x r (separated_closed _ _ Hsep) Hx Hrun)
    as (Hlen & Hold & Hfresh & Hnew & _).
  assert (Hbeyond : forall l, (List.length h <= l)%nat -> own l = false).
  { intros l Hl. apply (own_beyond own _ l Hsep). exact Hl. }
  assert (Hf : forall r0, Heap.fresh h h' r0 ->
                          Heap.valid h' r0 /\ Heap.side own false r0).
  { intros r0. destruct r0 as [| | | |l]; simpl; auto.
    intros [H1 H2]. split; [exact H2 | apply Hbeyond; exact H1]. }
  split; [|exact Hold].
  apply separated_root; [|apply Hf; exact Hfresh..].
  apply (separated_extend own own h h' ds rs gs Hsep Hlen Hold); auto.
  - intros l c Hl Hc. rewrite (Hbeyond l Hl).
    eapply Forall_impl; [|apply (Hnew l c Hl Hc)]. exact Hf.
  - intros l Hl. pose proof (Heap.sep_own _ _ Hsep l Hl). simpl in *. lia.
Qed.

(** A copy for the store. *)
Lemma separated_copy_in (own : Heap.loc -> bool) (fuel : nat) (h h' : Heap.heap)
  (ds : Heap.documents) (rs : list Heap.ref)
  (gs : list (list (string * value) * Heap.generator))
  (m : Heap.memo) (x r : Heap.ref) (k : value) :
  Heap.separated own (Heap.Config h ds rs gs) -> Heap.valid h x ->
  Heap.deepcopy fuel [] h x = Ok (h', m, r) ->
  Heap.separated (Heap.grow own h h') (Heap.Config h' (store_set k r ds) rs gs).
Proof.
  intros Hsep Hx Hrun.
  destruct (deepcopy_copy fuel h h' m x r (separated_closed _ _ Hsep) Hx Hrun)
    as (Hlen & Hold & Hfresh & Hnew & _).
  assert (Hbeyond : forall l, (List.length h <= l)%nat -> own l = false).
  { intros l Hl. apply (own_beyond own _ l Hsep). exact Hl. }
  assert (Hg : forall l, (List.length h <= l < List.length h')%nat ->
                         Heap.grow own h h' l = true).
  { intros l [H1 H2]. unfold Heap.grow.
    apply Nat.leb_le in H1. apply Nat.ltb_lt in H2. rewrite H1, H2.
    apply orb_true_r. }
  assert (Hf : forall r0, Heap.fresh h h' r0 ->
                          Heap.valid h' r0 /\ Heap.side (Heap.grow own h h') true r0).
  { intros r0. destruct r0 as [| | | |l]; simpl; auto.
    intros H. split; [lia | apply Hg; exact H]. }
  apply separated_doc; [|apply Hf; exact Hfresh..].
  apply (separated_extend own (Heap.grow own h h') h h' ds rs gs Hsep Hlen Hold).
  - intros l c Hl Hc. apply nth_error_valid in Hc as Hlt.
    rewrite (Hg l) by lia.
    eapply Forall_impl; [|apply (Hnew l c Hl Hc)]. exact Hf.
  - intros l Hl. unfold Heap.grow.
    replace (List.length h <=? l)%nat with false by (symmetry; apply Nat.leb_gt; lia).
    simpl. apply orb_false_r.
  - intros l Hl. unfold Heap.grow in Hl. apply orb_true_iff in Hl as [Hl | Hl].
    + pose proof (Heap.sep_own _ _ Hsep l Hl). simpl in *. lia.
    + apply andb_true_iff in Hl as [_ Hl]. apply Nat.ltb_lt in Hl. exact Hl.
Qed.

(** *** What the reads hand out *)

Lemma find_one_in_spec (fuel : nat) (h : Heap.heap) (query : list (string * value)) :
  forall ds h' found,
    Heap.find_one_in fuel h ds query = Ok (h', found) ->
    match found with
    | Some r =>
        exists before document after m,
          ds = before ++ document :: after /\
          Forall (fun d => Heap._matches_query h d query = Ok false) before /\
          Heap._matches_query h document query = Ok true /\
          Heap.deepcopy fuel [] h document = Ok (h', m, r)
    | None =>
        h' = h /\ Forall (fun d => Heap._matches_query h d query = Ok false) ds
    end.
Proof.
  induction ds as [|d ds IH]; intros h' found Hrun; simpl in Hrun.
  - injection Hrun as <- <-. auto.
  - destruct (Heap._matches_query h d query) as [[|]|e] eqn:Hm; simpl in Hrun;
      [| |discriminate].
    + destruct (Heap.deepcopy fuel [] h d) as [[[h1 m1] r1]|e] eqn:Hc;
        simpl in Hrun; [|discriminate].
      injection Hrun as <- <-. exists [], d, ds, m1. auto.
    + specialize (IH h' found Hrun). destruct found as [r|].
      * destruct IH as (before & document & after & m & -> & Hb & Hd & Hc).
        exists (d :: before), document, after, m. auto.
      * destruct IH as [-> Hall]. auto.
Qed.

Lemma scan_spec (fuel : nat) (h : Heap.heap) (query : list (string * value)) :
  forall ds used pos h' r g,
    Heap.scan fuel h ds query used pos = Heap.Yielded h' r g ->
    exists before document after m,
      ds = before ++ document :: after /\
      Forall (fun d => Heap._matches_query h d query = Ok false) before /\
      Heap._matches_query h document query = Ok true /\
      Heap.deepcopy fuel [] h document = Ok (h', m, r) /\
      g = Heap.Running used (S (pos + List.length before)).
Proof.
  induction ds as [|d ds IH]; intros used pos h' r g Hrun; simpl in Hrun;
    [discriminate|].
  destruct (Heap._matches_query h d query) as [[|]|e] eqn:Hm; [| |discriminate].
  - destruct (Heap.deepcopy fuel [] h d) as [[[h1 m1] r1]|e] eqn:Hc;
      [|discriminate].
    injection Hrun as <- <- <-. exists [], d, ds, m1. simpl.
    rewrite Nat.add_0_r. auto.
  - destruct (IH used (S pos) h' r g Hrun)
      as (before & document & after & m & -> & Hb & Hd & Hc & ->).
    exists (d :: before), document, after, m. simpl.
    rewrite <- plus_n_Sm. auto.
Qed.

Lemma resume_spec (fuel : nat) (h : Heap.heap) (self : Heap.documents)
  (query : list (string * value)) (g : Heap.generator)
  (h' : Heap.heap) (r : Heap.ref) (g' : Heap.generator) :
  Heap.resume fuel h self query g = Heap.Yielded h' r g' ->
  exists document m,
    In document (map snd self) /\
    Heap._matches_query h document query = Ok true /\
    Heap.deepcopy fuel [] h document = Ok (h', m, r).
Proof.
  intros Hrun. destruct g as [|used pos|]; simpl in Hrun; [| |discriminate].
  - destruct (scan_spec fuel h query _ _ _ _ _ _ Hrun)
      as (before & document & after & m & E & _ & Hd & Hc & _).
    exists document, m. rewrite E. split; [|auto].
    apply in_or_app. right. left. reflexivity.
  - destruct (Nat.eqb used (List.length self)); [|discriminate].
    destruct (scan_spec fuel h query _ _ _ _ _ _ Hrun)
      as (before & document & after & m & E & _ & Hd & Hc & _).
    exists document, m. split; [|auto].
    rewrite <- (firstn_skipn pos (map snd self)). rewrite E.
    apply in_or_app. right. apply in_or_app. right. left. reflexivity.
Qed.

Lemma docs_valid (own : Heap.loc -> bool) (cfg : Heap.config) (document : Heap.ref) :
  Heap.separated own cfg -> In document (map snd (Heap.docs cfg)) ->
  Heap.valid (Heap.cells cfg) document /\ Heap.side own true document.
Proof.
  intros Hsep Hin. apply in_map_iff in Hin as (kr & <- & Hin).
  pose proof (Heap.sep_docs _ _ Hsep) as Hall. rewrite Forall_forall in Hall.
  apply Hall. exact Hin.
Qed.

(** *** The steps keep the two sides apart *)

(** A step of the caller leaves the objects of the store, and the store,
    as they are. *)
Lemma caller_step_frame (own : Heap.loc -> bool) (fuel : nat)
  (cfg cfg' : Heap.config) :
  Heap.separated own cfg -> Heap.caller_step fuel cfg cfg' ->
  Heap.separated own cfg' /\
  Heap.docs cfg' = Heap.docs cfg /\
  (forall l, own l = true ->
             nth_error (Heap.cells cfg') l = nth_error (Heap.cells cfg) l).
Proof.
  intros Hsep Hstep.
  assert (Hcfg : forall h ds rs gs,
             Heap.separated own (Heap.Config h ds rs gs) ->
             forall l, own l = true -> (l < List.length h)%nat).
  { intros h ds rs gs H l Hl. apply (Heap.sep_own _ _ H l Hl). }
  destruct Hstep as [cfg c Hc | cfg l old c Hl Hold Hkind Hc
                     | cfg query h' found Hrun | cfg query
                     | cfg i query g r Hg Hrun]; simpl.
  - destruct cfg as [h ds rs gs]; simpl in *.
    split; [|split; [reflexivity|]].
    + assert (Hend : own (List.length h) = false).
      { apply (own_beyond own _ _ Hsep). simpl. lia. }
      apply separated_root; [|simpl; rewrite length_app; simpl; lia | exact Hend].
      apply (separated_extend own own h (h ++ [c]) ds rs gs Hsep).
      * rewrite length_app. simpl. lia.
      * intros l Hl. apply nth_error_app1. exact Hl.
      * intros l c' Hl Hc'. apply nth_error_valid in Hc' as Hlt.
        rewrite length_app in Hlt. simpl in Hlt.
        assert (l = List.length h) by lia. subst l.
        rewrite nth_error_app2, Nat.sub_diag in Hc' by lia.
        injection Hc' as <-. rewrite Hend.
        eapply Forall_impl; [|exact Hc]. intros r Hr.
        destruct (held_side own _ r Hsep Hr) as [Hv Hs]. split; [|exact Hs].
        simpl in Hv. destruct r; simpl in *; auto.
        rewrite length_app. simpl. lia.
      * reflexivity.
      * intros l Hl. rewrite length_app. simpl.
        pose proof (Hcfg _ _ _ _ Hsep l Hl). lia.
    + intros l Hl. apply nth_error_app1. apply (Hcfg _ _ _ _ Hsep l Hl).
  - destruct cfg as [h ds rs gs]; simpl in *.
    destruct (held_side own _ (Heap.RLoc l) Hsep Hl) as [Hv Hs]. simpl in Hv, Hs.
    split; [|split; [reflexivity|]].
    + apply separated_write; [exact Hsep|]. rewrite Hs.
      eapply Forall_impl; [|exact Hc]. intros r Hr.
      apply (held_side own _ r Hsep Hr).
    + intros l' Hl'. apply nth_error_write_other. congruence.
  - destruct cfg as [h ds rs gs]; simpl in *.
    apply find_one_in_spec in Hrun. destruct found as [r|]; simpl.
    + destruct Hrun as (before & document & after & m & E & _ & _ & Hcopy).
      assert (Hin : In document (map snd ds)).
      { unfold Heap.documents in *. rewrite E. apply in_or_app.
        right. left. reflexivity. }
      destruct (docs_valid own _ document Hsep Hin) as [Hv _].
      destruct (separated_copy_out own fuel h h' ds rs gs m document r Hsep Hv Hcopy)
        as [Hsep' Hold].
      split; [exact Hsep'|]. split; [reflexivity|].
      intros l Hl. apply Hold. apply (Hcfg _ _ _ _ Hsep l Hl).
    + destruct Hrun as [-> _]. auto.
  - destruct cfg as [h ds rs gs]; simpl in *.
    split; [|auto]. apply (separated_gens own h ds rs gs). exact Hsep.
  - destruct cfg as [h ds rs gs]; simpl in *.
    destruct r as [h' r g' | | e |]; simpl;
      try (split; [apply (separated_gens own h ds rs gs); exact Hsep | auto]).
    destruct (resume_spec fuel h ds query g h' r g' Hrun)
      as (document & m & Hin & _ & Hcopy).
    destruct (docs_valid own _ document Hsep Hin) as [Hv _].
    destruct (separated_copy_out own fuel h h' ds rs gs m document r Hsep Hv Hcopy)
      as [Hsep' Hold].
    split; [|split; [reflexivity|]].
    + eapply separated_gens. exact Hsep'.
    + intros l Hl. apply Hold. apply (Hcfg _ _ _ _ Hsep l Hl).
Qed.

Lemma caller_run_frame (own : Heap.loc -> bool) (fuel : nat)
  (cfg cfg' : Heap.config) :
  Heap.separated own cfg -> Heap.run (Heap.caller_step fuel) cfg cfg' ->
  Heap.separated own cfg' /\
  Heap.docs cfg' = Heap.docs cfg /\
  (forall l, own l = true ->
             nth_error (Heap.cells cfg') l = nth_error (Heap.cells cfg) l).
Proof.
  intros Hsep Hrun. induction Hrun as [cfg | cfg cfg1 cfg2 Hstep _ IH]; [auto|].
  destruct (caller_step_frame own fuel cfg cfg1 Hsep Hstep) as (Hsep1 & Hd1 & Hc1).
  destruct (IH Hsep1) as (Hsep2 & Hd2 & Hc2).
  split; [exact Hsep2|]. split; [congruence|].
  intros l Hl. rewrite Hc2, Hc1; auto.
Qed.

Lemma insert_step_separated (own : Heap.loc -> bool) (fuel : nat)
  (cfg cfg' : Heap.config) :
  Heap.separated own cfg -> Heap.insert_step fuel cfg cfg' ->
  exists own', Heap.separated own' cfg'.
Proof.
  intros Hsep Hstep. destruct Hstep as [cfg document h' docs' Hheld Hrun].
  destruct cfg as [h ds rs gs]; simpl in *.
  unfold Heap.insert_one in Hrun.
  destruct (Heap.deepcopy fuel [] h document) as [[[h1 m1] r1]|e] eqn:Hc;
    simpl in Hrun; [|discriminate].
  destruct (Heap.subscript h document "_id") as [identifier|e]; simpl in Hrun;
    [|discriminate].
  destruct (Heap.scalar identifier) as [k|]; [|discriminate].
  injection Hrun as <- <-.
  destruct (held_side own _ document Hsep Hheld) as [Hv _].
  exists (Heap.grow own h h1).
  apply (separated_copy_in own fuel h h1 ds rs gs m1 document r1 k Hsep Hv Hc).
Qed.

(** *** An update that pushes scalars *)

Section ScalarUpdate.
Variable own : Heap.loc -> bool.
Variable fuel : nat.
Variable ds : Heap.documents.
Variable rs : list Heap.ref.
Variable gs : list (list (string * value) * Heap.generator).

Lemma target_owned (h : Heap.heap) (document : Heap.ref) (field : string)
  (l : Heap.loc) (items : list Heap.ref) :
  Heap.separated own (Heap.Config h ds rs gs) ->
  Heap.side own true document ->
  Heap._get_nested_value h document field = Heap.RLoc l ->
  nth_error h l = Some (Heap.CList items) ->
  own l = true /\
  Forall (fun r => Heap.valid h r /\ Heap.side own true r) items.
Proof.
  intros Hsep Hd Hget Hl.
  pose proof (separated_agree own _ h Hsep (fun l _ => eq_refl)) as Hagree.
  simpl in Hagree.
  destruct (get_path_agree own h h Hagree (split_dot field) document Hd) as [_ Hs].
  unfold Heap._get_nested_value in Hget. rewrite Hget in Hs. simpl in Hs.
  split; [exact Hs|].
  pose proof (Heap.sep_cells _ _ Hsep l _ Hl) as Hall. simpl in Hall.
  rewrite Hs in Hall. exact Hall.
Qed.

Lemma push_step_separated (document : Heap.ref) (st : Heap.heap * Z)
  (kv : string * Heap.ref) :
  Heap.separated own (Heap.Config (fst st) ds rs gs) ->
  Heap.side own true document -> Heap.scalar (snd kv) <> None ->
  Heap.separated own
    (Heap.Config (fst (Heap.push_step document st kv)) ds rs gs).
Proof.
  destruct st as [h modified], kv as [field v]. simpl. intros Hsep Hd Hv.
  destruct (Heap._get_nested_value h document field) as [| | | |l] eqn:Hget;
    try exact Hsep.
  destruct (nth_error h l) as [[items|fields]|] eqn:Hl; try exact Hsep. simpl.
  destruct (target_owned h document field l items Hsep Hd Hget Hl) as [Ho Hitems].
  apply separated_write; [exact Hsep|]. rewrite Ho. simpl.
  apply Forall_app. split; [exact Hitems|]. constructor; [|constructor].
  destruct v; simpl in *; auto. congruence.
Qed.

Lemma push_fold_separated (document : Heap.ref) (pairs : list (string * Heap.ref)) :
  forall st,
    Heap.separated own (Heap.Config (fst st) ds rs gs) ->
    Heap.side own true document ->
    Forall (fun kv => Heap.scalar (snd kv) <> None) pairs ->
    Heap.separated own
      (Heap.Config (fst (fold_left (Heap.push_step document) pairs st)) ds rs gs).
Proof.
  induction pairs as [|kv pairs IH]; intros st Hsep Hd Hall; simpl; [exact Hsep|].
  inversion Hall; subst. apply IH; auto using push_step_separated.
Qed.

Lemma pull_sub (P : Heap.ref -> Prop) (h : Heap.heap) (v : Heap.ref) :
  forall items items',
    Heap.pull fuel h v items = Ok (Some items') ->
    Forall P items -> Forall P items'.
Proof.
  induction items as [|x items IH]; intros items' Hrun Hall; simpl in Hrun;
    [discriminate|].
  inversion Hall; subst.
  destruct (Heap.same fuel h x v) as [[|]|e]; simpl in Hrun; [| |discriminate].
  - injection Hrun as <-. assumption.
  - destruct (Heap.pull fuel h v items) as [[found|]|e]; simpl in Hrun;
      try discriminate.
    injection Hrun as <-. constructor; auto.
Qed.

Lemma pull_step_separated (document : Heap.ref) (st st' : Heap.heap * Z)
  (kv : string * Heap.ref) :
  Heap.separated own (Heap.Config (fst st) ds rs gs) ->
  Heap.side own true document ->
  Heap.pull_step fuel document st kv = Ok st' ->
  Heap.separated own (Heap.Config (fst st') ds rs gs).
Proof.
  destruct st as [h modified], kv as [field v]. simpl. intros Hsep Hd Hrun.
  destruct (Heap._get_nested_value h document field) as [| | | |l] eqn:Hget;
    try (injection Hrun as <-; exact Hsep).
  destruct (nth_error h l) as [[items|fields]|] eqn:Hl;
    try (injection Hrun as <-; exact Hsep).
  destruct (Heap.pull fuel h v items) as [[items'|]|e] eqn:Hp; simpl in Hrun;
    [| |discriminate]; injection Hrun as <-; [|exact Hsep]. simpl.
  destruct (target_owned h document field l items Hsep Hd Hget Hl) as [Ho Hitems].
  apply separated_write; [exact Hsep|]. rewrite Ho. simpl.
  apply (pull_sub _ h v items items' Hp Hitems).
Qed.

Lemma pull_all_separated (document : Heap.ref) (pairs : list (string * Heap.ref)) :
  forall st,
    Heap.separated own (Heap.Config (fst st) ds rs gs) ->
    Heap.side own true document ->
    Heap.separated own
      (Heap.Config (fst (Heap.pull_all fuel document st pairs)) ds rs gs).
Proof.
  induction pairs as [|kv pairs IH]; intros st Hsep Hd; simpl; [exact Hsep|].
  destruct (Heap.pull_step fuel document st kv) as [st'|e] eqn:Hrun;
    [|exact Hsep].
  apply IH; [|exact Hd]. apply (pull_step_separated document st st' kv Hsep Hd Hrun).
Qed.

Lemma apply_update_separated (h : Heap.heap) (document : Heap.ref)
  (update : list (string * Heap.ref)) :
  Heap.separated own (Heap.Config h ds rs gs) ->
  Heap.side own true document -> Heap.pushes_scalars h update ->
  Heap.separated own
    (Heap.Config (fst (Heap.apply_update fuel h document update)) ds rs gs).
Proof.
  intros Hsep Hd Hpush. unfold Heap.apply_update.
  destruct (Heap.operand h update "$push") as [pushes|e] eqn:Hop; [|exact Hsep].
  assert (Hall : Forall (fun kv => Heap.scalar (snd kv) <> None) pushes).
  { unfold Heap.operand in Hop.
    destruct (dict_get "$push" update) as [r|] eqn:Hg.
    - destruct (Heap.dict_at h r) as [pairs|] eqn:Hat; [|discriminate].
      injection Hop as <-. apply (Hpush r pairs Hg Hat).
    - injection Hop as <-. constructor. }
  pose proof (push_fold_separated document pushes (h, 0) Hsep Hd Hall) as Hsep1.
  destruct (Heap.operand (fst (fold_left (Heap.push_step document) pushes (h, 0)))
              update "$pull") as [pulls|e]; [|exact Hsep1].
  apply pull_all_separated; assumption.
Qed.

Lemma update_first_separated (h : Heap.heap) (query : list (string * value))
  (update : list (string * Heap.ref)) :
  Heap.separated own (Heap.Config h ds rs gs) ->
  Heap.pushes_scalars h update ->
  forall documents,
    Forall (Heap.side own true) documents ->
    Heap.separated own
      (Heap.Config (fst (Heap.update_first fuel h documents query update)) ds rs gs).
Proof.
  intros Hsep Hpush. induction documents as [|d documents IH]; intros Hall;
    simpl; [exact Hsep|].
  inversion Hall; subst.
  destruct (Heap._matches_query h d query) as [[|]|e]; [| |exact Hsep].
  - apply apply_update_separated; assumption.
  - apply IH. assumption.
Qed.

End ScalarUpdate.

Lemma scalar_update_step_separated (own : Heap.loc -> bool) (fuel : nat)
  (cfg cfg' : Heap.config) :
  Heap.separated own cfg -> Heap.scalar_update_step fuel cfg cfg' ->
  Heap.separated own cfg'.
Proof.
  intros Hsep Hstep.
  destruct Hstep as [cfg query update h' r Hheld Hpush Hrun].
  destruct cfg as [h ds rs gs]; simpl in *.
  replace h' with (fst (Heap.update_one fuel h ds query update))
    by (rewrite Hrun; reflexivity).
  apply update_first_separated; [exact Hsep | exact Hpush |].
  apply Forall_forall. intros d Hin.
  apply (docs_valid own _ d Hsep Hin).
Qed.

Lemma initial_separated : Heap.separated (fun _ => false) Heap.initial.
Proof.
  constructor; simpl; try constructor.
  - intros l c Hc. destruct l; discriminate.
  - discriminate.
Qed.

(** Whatever has been inserted, read and changed by the caller, and
    updated with scalars to push: the store and the caller share no
    object. *)
Lemma plain_run_separated (fuel : nat) (cfg cfg' : Heap.config) :
  Heap.run (Heap.plain_step fuel) cfg cfg' ->
  forall own, Heap.separated own cfg -> exists own', Heap.separated own' cfg'.
Proof.
  induction 1 as [cfg | cfg cfg1 cfg2 Hstep _ IH]; intros own Hsep; [eauto|].
  destruct Hstep as [Hstep | Hstep | Hstep].
  - apply (IH own). apply (caller_step_frame own fuel cfg cfg1 Hsep Hstep).
  - destruct (insert_step_separated own fuel cfg cfg1 Hsep Hstep) as [own1 Hsep1].
    apply (IH own1 Hsep1).
  - apply (IH own). apply (scalar_update_step_separated own fuel cfg cfg1 Hsep Hstep).
Qed.

(** *** No mutation by the caller shows in a read *)

Section ReadsAgree.
Variable own : Heap.loc -> bool.
Variable fuel : nat.
Variables h1 h2 : Heap.heap.
Hypothesis Hagree : Heap.agree own h1 h2.
Hypothesis Hclosed1 : Heap.closed h1.
Hypothesis Hclosed2 : Heap.closed h2.

Lemma find_one_in_same (query : list (string * value)) (ds : list Heap.ref) :
  Forall (fun d => Heap.side own true d /\ Heap.valid h1 d /\ Heap.valid h2 d) ds ->
  Heap.same_found (Heap.find_one_in fuel h1 ds query)
                  (Heap.find_one_in fuel h2 ds query).
Proof.
  induction 1 as [|d ds (Hs & Hv1 & Hv2) _ IH]; simpl; [exact I|].
  rewrite <- (matches_query_agree own h1 h2 Hagree d query Hs).
  destruct (Heap._matches_query h1 d query) as [[|]|e]; simpl;
    [| exact IH | reflexivity].
  pose proof (deepcopy_same own fuel h1 h2 d Hagree Hclosed1 Hclosed2 Hs Hv1 Hv2)
    as Hc.
  unfold Heap.same_copy in Hc.
  destruct (Heap.deepcopy fuel [] h1 d) as [[[h1' m1] r1]|e1];
    destruct (Heap.deepcopy fuel [] h2 d) as [[[h2' m2] r2]|e2]; simpl; exact Hc.
Qed.

Lemma scan_same (query : list (string * value)) (used : nat) (ds : list Heap.ref) :
  Forall (fun d => Heap.side own true d /\ Heap.valid h1 d /\ Heap.valid h2 d) ds ->
  forall pos,
    Heap.same_resumed (Heap.scan fuel h1 ds query used pos)
                      (Heap.scan fuel h2 ds query used pos).
Proof.
  induction 1 as [|d ds (Hs & Hv1 & Hv2) _ IH]; intros pos; simpl; [exact I|].
  rewrite <- (matches_query_agree own h1 h2 Hagree d query Hs).
  destruct (Heap._matches_query h1 d query) as [[|]|e]; simpl;
    [| apply IH | reflexivity].
  pose proof (deepcopy_same own fuel h1 h2 d Hagree Hclosed1 Hclosed2 Hs Hv1 Hv2)
    as Hc.
  unfold Heap.same_copy in Hc.
  destruct (Heap.deepcopy fuel [] h1 d) as [[[h1' m1] r1]|e1];
    destruct (Heap.deepcopy fuel [] h2 d) as [[[h2' m2] r2]|e2]; simpl;
    try exact Hc. split; [reflexivity | exact Hc].
Qed.

Lemma resume_same (self : Heap.documents) (query : list (string * value))
  (g : Heap.generator) :
  Forall (fun d => Heap.side own true d /\ Heap.valid h1 d /\ Heap.valid h2 d)
         (map snd self) ->
  Heap.same_resumed (Heap.resume fuel h1 self query g)
                    (Heap.resume fuel h2 self query g).
Proof.
  intros Hall. destruct g as [|used pos|]; simpl; [| |exact I].
  - apply scan_same. exact Hall.
  - destruct (Nat.eqb used (List.length self)); [|exact I].
    apply scan_same. rewrite Forall_forall in *. intros d Hd. apply Hall.
    rewrite <- (firstn_skipn pos (map snd self)). apply in_or_app. right. exact Hd.
Qed.

End ReadsAgree.

(** After any steps of the caller, [find_one] and a resumed [find] give
    what they would have given before. *)
Lemma caller_run_reads (own : Heap.loc -> bool) (fuel : nat)
  (cfg cfg' : Heap.config) :
  Heap.separated own cfg -> Heap.run (Heap.caller_step fuel) cfg cfg' ->
  Heap.docs cfg' = Heap.docs cfg /\
  (forall query,
      Heap.same_found
        (Heap.find_one fuel (Heap.cells cfg) (Heap.docs cfg) query)
        (Heap.find_one fuel (Heap.cells cfg') (Heap.docs cfg') query)) /\
  (forall query g,
      Heap.same_resumed
        (Heap.resume fuel (Heap.cells cfg) (Heap.docs cfg) query g)
        (Heap.resume fuel (Heap.cells cfg') (Heap.docs cfg') query g)).
Proof.
  intros Hsep Hrun.
  destruct (caller_run_frame own fuel cfg cfg' Hsep Hrun) as (Hsep' & Hdocs & Hcells).
  pose proof (separated_agree own cfg (Heap.cells cfg') Hsep Hcells) as Hagree.
  assert (Hall : Forall (fun d => Heap.side own true d /\
                                  Heap.valid (Heap.cells cfg) d /\
                                  Heap.valid (Heap.cells cfg') d)
                        (map snd (Heap.docs cfg))).
  { apply Forall_forall. intros d Hd.
    destruct (docs_valid own cfg d Hsep Hd) as [Hv Hs].
    rewrite <- Hdocs in Hd. destruct (docs_valid own cfg' d Hsep' Hd) as [Hv' _].
    auto. }
  split; [exact Hdocs|]. rewrite Hdocs. split.
  - intros query. unfold Heap.find_one.
    apply (find_one_in_same own fuel _ _ Hagree
             (separated_closed own cfg Hsep) (separated_closed own cfg' Hsep')).
    exact Hall.
  - intros query g.
    apply (resume_same own fuel _ _ Hagree
             (separated_closed own cfg Hsep) (separated_closed own cfg' Hsep')).
    exact Hall.
Qed.

(** *** Enough fuel *)

Lemma filter_length_le {A : Type} (f g : A -> bool) (xs : list A) :
  (forall x, f x = true -> g x = true) ->
  (List.length (filter f xs) <= List.length (filter g xs))%nat.
Proof.
  intros H. induction xs as [|x xs IH]; simpl; [lia|].
  destruct (f x) eqn:Hf.
  - rewrite (H x Hf). simpl. lia.
  - destruct (g x); simpl; lia.
Qed.

Lemma filter_length_lt {A : Type} (f g : A -> bool) (xs : list A) (a : A) :
  (forall x, f x = true -> g x = true) ->
  In a xs -> f a = false -> g a = true ->
  (List.length (filter f xs) < List.length (filter g xs))%nat.
Proof.
  intros H. induction xs as [|x xs IH]; simpl; [contradiction|].
  intros [-> | Hin] Hf Hg.
  - rewrite Hf, Hg. simpl. pose proof (filter_length_le f g xs H). lia.
  - specialize (IH Hin Hf Hg). destruct (f x) eqn:Hfx.
    + rewrite (H x Hfx). simpl. lia.
    + destruct (g x); simpl; lia.
Qed.

Lemma pending_le (m m' : Heap.memo) (h0 : Heap.heap) :
  (forall l y, Heap.copied m l = Some y -> Heap.copied m' l = Some y) ->
  (Heap.pending m' h0 <= Heap.pending m h0)%nat.
Proof.
  intros Hmono. apply filter_length_le. intros l Hl.
  destruct (Heap.copied m l) as [y|] eqn:E; [|reflexivity].
  rewrite (Hmono l y E) in Hl. discriminate.
Qed.

Lemma pending_lt (m : Heap.memo) (h0 : Heap.heap) (l y : Heap.loc) :
  Heap.copied m l = None -> (l < List.length h0)%nat ->
  (Heap.pending ((l, y) :: m) h0 < Heap.pending m h0)%nat.
Proof.
  intros Hl Hlt. apply (filter_length_lt _ _ _ l).
  - intros k Hk. simpl in Hk. destruct (Nat.eqb l k); [discriminate|].
    exact Hk.
  - apply in_seq. lia.
  - simpl. rewrite Nat.eqb_refl. reflexivity.
  - rewrite Hl. reflexivity.
Qed.

Lemma pending_start (h0 : Heap.heap) : Heap.pending [] h0 = List.length h0.
Proof.
  unfold Heap.pending. simpl.
  assert (H : forall xs : list nat, filter (fun _ => true) xs = xs).
  { induction xs as [|x xs IH]; simpl; congruence. }
  rewrite H. apply length_seq.
Qed.

Lemma copying_append (h0 h : Heap.heap) (m : Heap.memo) (y : Heap.loc)
  (a : Heap.ref) :
  Heap.copying h0 h m -> (List.length h0 <= y)%nat -> Heap.fresh h0 h a ->
  Heap.copying h0 (Heap.append h y a) m.
Proof.
  intros Hc Hy Ha. unfold Heap.append.
  destruct (nth_error h y) as [[items|fields]|] eqn:E; try exact Hc.
  apply copying_write; [exact Hc | exact Hy |]. simpl.
  apply Forall_app. split; [|constructor; [exact Ha | constructor]].
  apply (Heap.cp_new _ _ _ Hc y _ Hy E).
Qed.

Lemma copying_assign (h0 h : Heap.heap) (m : Heap.memo) (y : Heap.loc)
  (k : string) (a : Heap.ref) :
  Heap.copying h0 h m -> (List.length h0 <= y)%nat -> Heap.fresh h0 h a ->
  Heap.copying h0 (Heap.assign h y k a) m.
Proof.
  intros Hc Hy Ha. unfold Heap.assign.
  destruct (nth_error h y) as [[items|fields]|] eqn:E; try exact Hc.
  apply copying_write; [exact Hc | exact Hy |]. simpl.
  rewrite map_app. apply Forall_app. split; [|constructor; [exact Ha | constructor]].
  apply (Heap.cp_new _ _ _ Hc y _ Hy E).
Qed.

Section Total.
Variable h0 : Heap.heap.
Hypothesis Hclosed : Heap.closed h0.
Variable n : nat.
Variable copy : Heap.memo -> Heap.heap -> Heap.ref ->
                result (Heap.heap * Heap.memo * Heap.ref).
Hypothesis Hcopy : Heap.copies_well h0 copy.
Hypothesis Htotal :
  forall m h x,
    Heap.copying h0 h m -> Heap.valid h0 x -> (Heap.pending m h0 <= n)%nat ->
    exists h' m' x', copy m h x = Ok (h', m', x').

Lemma copy_items_total (items : list Heap.ref) :
  forall m h yp,
    Heap.copying h0 h m -> Forall (Heap.valid h0) items ->
    (List.length h0 <= yp)%nat -> (Heap.pending m h0 <= n)%nat ->
    exists h' m', Heap.copy_items copy m h yp items = Ok (h', m').
Proof.
  induction items as [|a items IH]; intros m h yp Hc Hall Hyp Hn; simpl; [eauto|].
  inversion Hall as [|? ? Ha Hrest]; subst.
  destruct (Htotal m h a Hc Ha Hn) as (h1 & m1 & a1 & Hrun). rewrite Hrun.
  destruct (Hcopy m h a h1 m1 a1 Hrun Hc Ha) as (Hc1 & _ & _ & Hmono & _ & -> & Hk).
  apply IH; auto.
  - apply copying_append; [exact Hc1 | exact Hyp |]. apply tr_fresh; assumption.
  - pose proof (pending_le m m1 h0 Hmono). lia.
Qed.

Lemma copy_fields_total (fields : list (string * Heap.ref)) :
  forall m h yp,
    Heap.copying h0 h m -> Forall (Heap.valid h0) (map snd fields) ->
    (List.length h0 <= yp)%nat -> (Heap.pending m h0 <= n)%nat ->
    exists h' m', Heap.copy_fields copy m h yp fields = Ok (h', m').
Proof.
  induction fields as [|[k a] fields IH]; intros m h yp Hc Hall Hyp Hn; simpl;
    [eauto|].
  simpl in Hall. inversion Hall as [|? ? Ha Hrest]; subst.
  destruct (Htotal m h a Hc Ha Hn) as (h1 & m1 & a1 & Hrun). rewrite Hrun.
  destruct (Hcopy m h a h1 m1 a1 Hrun Hc Ha) as (Hc1 & _ & _ & Hmono & _ & -> & Hk).
  apply IH; auto.
  - apply copying_assign; [exact Hc1 | exact Hyp |]. apply tr_fresh; assumption.
  - pose proof (pending_le m m1 h0 Hmono). lia.
Qed.
End Total.

Lemma deepcopy_total (h0 : Heap.heap) :
  Heap.closed h0 ->
  forall n m h x,
    Heap.copying h0 h m -> Heap.valid h0 x -> (Heap.pending m h0 <= n)%nat ->
    exists h' m' x', Heap.deepcopy n m h x = Ok (h', m', x').
Proof.
  intros Hclosed. induction n as [|n IH]; intros m h x Hc Hx Hn.
  - destruct x as [| | | |l]; simpl; eauto.
    destruct (Heap.copied m l) as [y|] eqn:Hl; [eauto|].
    simpl in Hx. pose proof (pending_lt m h0 l 0%nat Hl Hx). lia.
  - destruct x as [| | | |l]; simpl; eauto.
    destruct (Heap.copied m l) as [y|] eqn:Hl; [eauto|].
    simpl in Hx. rewrite (Heap.cp_source _ _ _ Hc l Hx).
    destruct (nth_error h0 l) as [c|] eqn:Hcell; [|eauto].
    pose proof (pending_lt m h0 l (List.length h) Hl Hx) as Hlt.
    pose proof (Heap.cp_length _ _ _ Hc) as Hlen.
    assert (Hc' : forall c0, Heap.refs c0 = [] ->
                    Heap.copying h0 (h ++ [c0]) ((l, List.length h) :: m)).
    { intros c0 Hc0. apply copying_alloc; assumption. }
    destruct c as [items | fields].
    + destruct (copy_items_total h0 n (Heap.deepcopy n)
                  (deepcopy_well h0 Hclosed n) IH items
                  ((l, List.length h) :: m) (h ++ [Heap.CList []]) (List.length h))
        as (h' & m' & Hrun); [apply Hc'; reflexivity | | lia | |].
      * apply (Hclosed l _ Hcell).
      * apply Nat.lt_succ_r. apply (Nat.lt_le_trans _ _ _ Hlt Hn).
      * rewrite Hrun. simpl. eauto.
    + destruct (copy_fields_total h0 n (Heap.deepcopy n)
                  (deepcopy_well h0 Hclosed n) IH fields
                  ((l, List.length h) :: m) (h ++ [Heap.CDict []]) (List.length h))
        as (h' & m' & Hrun); [apply Hc'; reflexivity | | lia | |].
      * apply (Hclosed l _ Hcell).
      * apply Nat.lt_succ_r. apply (Nat.lt_le_trans _ _ _ Hlt Hn).
      * rewrite Hrun. simpl. eauto.
Qed.

(** With a recursion limit of at least the number of objects there are,
    [copy.deepcopy] returns. *)
Lemma deepcopy_returns (fuel : nat) (h : Heap.heap) (x : Heap.ref) :
  Heap.closed h -> Heap.valid h x -> (List.length h <= fuel)%nat ->
  exists h' m r, Heap.deepcopy fuel [] h x = Ok (h', m, r).
Proof.
  intros Hclosed Hx Hfuel.
  apply (deepcopy_total h Hclosed fuel [] h x (copying_start h) Hx).
  rewrite pending_start. exact Hfuel.
Qed.

(** *** The sample runs *)

Lemma made_run : Heap.run (Heap.plain_step 5) Heap.initial made.
Proof.
  eapply Heap.run_more.
  { apply Heap.plain_caller. apply (Heap.step_new 5 Heap.initial members).
    repeat constructor. }
  eapply Heap.run_more.
  { apply Heap.plain_caller.
    apply (Heap.step_new 5
             (Heap.Config [members] [] [Heap.RLoc 0%nat] []) chess_object).
    constructor; [exact I|]. constructor; [|constructor].
    exists (Heap.RLoc 0%nat). split; [left; reflexivity | constructor]. }
  eapply Heap.run_more.
  { apply Heap.plain_caller.
    apply (Heap.step_new 5
             (Heap.Config [members; chess_object] []
                [Heap.RLoc 1%nat; Heap.RLoc 0%nat] []) push_members).
    constructor; [|constructor].
    exists (Heap.RLoc 0%nat). split; [right; left; reflexivity | constructor]. }
  apply Heap.run_done.
Qed.

Lemma inserted_step : Heap.insert_step 5 made inserted.
Proof.
  apply (Heap.step_insert 5 made (Heap.RLoc 1%nat)); [|reflexivity].
  exists (Heap.RLoc 1%nat). split; [right; left; reflexivity | constructor].
Qed.

Lemma inserted_run : Heap.run (Heap.plain_step 5) Heap.initial inserted.
Proof.
  assert (Hmore : forall a b c : Heap.config,
             Heap.run (Heap.plain_step 5) a b -> Heap.plain_step 5 b c ->
             Heap.run (Heap.plain_step 5) a c).
  { intros a b c Hab Hbc. induction Hab as [a | a a' b Hstep _ IH].
    - eapply Heap.run_more; [exact Hbc | apply Heap.run_done].
    - eapply Heap.run_more; [exact Hstep | apply IH; exact Hbc]. }
  apply (Hmore _ made); [exact made_run|].
  apply Heap.plain_store. exact inserted_step.
Qed.

Lemma tamper_step : Heap.caller_step 5 inserted tampered.
Proof.
  apply (Heap.step_write 5 inserted 0%nat members members_changed).
  - exists (Heap.RLoc 0%nat). split; [right; right; left; reflexivity | constructor].
  - reflexivity.
  - reflexivity.
  - repeat constructor.
Qed.

Lemma lend_step : Heap.update_step 5 inserted lent.
Proof.
  apply (Heap.step_update 5 inserted (by_id (VStr "Chess Club"))
           [("$push", Heap.RLoc 2%nat)] _ (Ok 1)); [|reflexivity].
  constructor; [|constructor].
  exists (Heap.RLoc 2%nat). split; [left; reflexivity | constructor].
Qed.

Lemma lent_change_step : Heap.caller_step 5 lent lent_changed.
Proof.
  apply (Heap.step_write 5 lent 0%nat members members_changed).
  - exists (Heap.RLoc 0%nat). split; [right; right; left; reflexivity | constructor].
  - reflexivity.
  - reflexivity.
  - repeat constructor.
Qed.

Lemma map_snd_split {A B : Type} (self : list (A * B)) (before after : list B)
  (d : B) :
  map snd self = before ++ d :: after ->
  exists before' k after',
    self = before' ++ (k, d) :: after' /\ map snd before' = before.
Proof.
  revert self. induction before as [|b before IH]; intros [|[k x] self] H;
    simpl in H; try discriminate.
  - injection H as -> _. exists [], k, self. auto.
  - injection H as -> H. destruct (IH self H) as (before' & k' & after' & -> & <-).
    exists ((k, b) :: before'), k', after'. auto.
Qed.

Lemma copy_apart (fuel : nat) (h h' : Heap.heap) (m : Heap.memo)
  (x r : Heap.ref) :
  Heap.closed h -> Heap.valid h x ->
  Heap.deepcopy fuel [] h x = Ok (h', m, r) ->
  (forall l, (l < List.length h)%nat -> nth_error h' l = nth_error h l) /\
  (forall l, Heap.reach h' r l -> (List.length h <= l)%nat) /\
  (forall n, Heap.alike n h' r h x = true).
Proof.
  intros Hclosed Hx Hrun.
  destruct (deepcopy_copy fuel h h' m x r Hclosed Hx Hrun)
    as (_ & Hold & Hfresh & Hnew & Halike).
  split; [exact Hold|]. split; [|exact Halike].
  intros l Hreach. apply (reach_fresh h h' Hnew r l Hreach Hfresh).
Qed.



(** * Further properties of the code *)

(** ** Dotted keys *)

Lemma split_dot_nonempty (s : string) : split_dot s <> [].
Proof.
  destruct s as [|c rest]; simpl; [discriminate|].
  destruct (Ascii.eqb c dot); [discriminate|].
  destruct (split_dot rest); discriminate.
Qed.

Lemma join_dot_cons (c : ascii) (hd : string) (tl : list string) :
  join_dot (String c hd :: tl) = String c (join_dot (hd :: tl)).
Proof. destruct tl; reflexivity. Qed.

Lemma join_split_dot (s : string) : join_dot (split_dot s) = s.
Proof.
  induction s as [|c rest IH]; simpl; [reflexivity|].
  destruct (Ascii.eqb_spec c dot) as [Hc | Hc].
  - subst c. pose proof (split_dot_nonempty rest) as Hne.
    destruct (split_dot rest) as [|hd tl]; [congruence|].
    change (join_dot (EmptyString :: hd :: tl))
      with (String dot (join_dot (hd :: tl))).
    rewrite IH. reflexivity.
  - pose proof (split_dot_nonempty rest) as Hne.
    destruct (split_dot rest) as [|hd tl]; [congruence|].
    rewrite join_dot_cons, IH. reflexivity.
Qed.

Lemma split_dot_dotted (a b : string) :
  split_dot (dotted a b) = split_dot a ++ split_dot b.
Proof.
  unfold dotted. induction a as [|c a IH]; simpl.
  - reflexivity.
  - destruct (Ascii.eqb c dot); rewrite IH; [reflexivity|].
    pose proof (split_dot_nonempty a) as Hne.
    destruct (split_dot a) as [|hd tl]; [congruence | reflexivity].
Qed.

Lemma split_dot_plain (s : string) : has_dot s = false -> split_dot s = [s].
Proof.
  induction s as [|c rest IH]; simpl; [reflexivity|].
  intros H. apply orb_false_iff in H as [Hc Hrest].
  rewrite Hc, (IH Hrest). reflexivity.
Qed.

Lemma split_dot_segments (s : string) :
  Forall (fun part => has_dot part = false) (split_dot s).
Proof.
  induction s as [|c rest IH]; simpl.
  - constructor; [reflexivity | constructor].
  - destruct (Ascii.eqb c dot) eqn:Hc.
    + constructor; [reflexivity | exact IH].
    + pose proof (split_dot_nonempty rest) as Hne.
      destruct (split_dot rest) as [|hd tl]; [congruence|].
      inversion IH; subst. constructor; [|assumption].
      simpl. rewrite Hc. assumption.
Qed.

Lemma split_join_dot (parts : list string) :
  parts <> [] -> Forall (fun part => has_dot part = false) parts ->
  split_dot (join_dot parts) = parts.
Proof.
  induction parts as [|part rest IH]; intros Hne Hall; [congruence|].
  inversion Hall as [|? ? Hpart Hrest]; subst.
  destruct rest as [|next rest].
  - simpl. apply split_dot_plain. exact Hpart.
  - change (join_dot (part :: next :: rest))
      with (dotted part (join_dot (next :: rest))).
    rewrite split_dot_dotted, (split_dot_plain _ Hpart), IH;
      [reflexivity | discriminate | exact Hrest].
Qed.

Lemma get_path_app (p q : list string) :
  q <> [] ->
  forall v, get_path v (p ++ q) = get_path (get_path v p) q.
Proof.
  intros Hq. induction p as [|part rest IH]; intros v; simpl; [reflexivity|].
  destruct v; try (destruct q; [congruence | reflexivity]).
  destruct (dict_get part fields); [apply IH|].
  destruct q; [congruence | reflexivity].
Qed.

Lemma get_path_blocked (v : value) (parts : list string) :
  is_dict v = false -> parts <> [] -> get_path v parts = VNone.
Proof.
  intros Hv Hne. destruct parts; [congruence|].
  destruct v; try reflexivity. discriminate.
Qed.

Lemma dict_get_assign_other (k k' : string) (v : value) (d : list (string * value)) :
  k' <> k -> dict_get k' (dict_assign k v d) = dict_get k' d.
Proof.
  intros Hne. induction d as [|[k0 v0] d IH]; simpl.
  - destruct (String.eqb_spec k k'); [congruence | reflexivity].
  - destruct (String.eqb_spec k0 k); simpl.
    + subst k0. destruct (String.eqb_spec k k'); [congruence | reflexivity].
    + destruct (String.eqb k0 k'); [reflexivity | exact IH].
Qed.

(** X1: splitting at the dots undoes joining dot-free segments with dots,
    so a key made that way is read by going down the document one segment
    at a time, through dicts only. *)
Theorem X1_dotted_key_descends (document : value) (parts : list string) :
  parts <> [] ->
  Forall (fun part => has_dot part = false) parts ->
  split_dot (join_dot parts) = parts /\
  _get_nested_value document (join_dot parts) = get_path document parts.
Proof.
  intros Hne Hall. unfold _get_nested_value.
  rewrite split_join_dot by assumption. split; reflexivity.
Qed.

Lemma X1_dotted_key_descends_witness :
  split_dot (join_dot ["schedule_details"; "days"]) =
  ["schedule_details"; "days"] /\
  _get_nested_value monday_friday (join_dot ["schedule_details"; "days"]) =
  get_path monday_friday ["schedule_details"; "days"].
Proof.
  apply X1_dotted_key_descends; [discriminate|].
  repeat constructor.
Defined.

(** X2: reading [a.b] is reading [b] in what [a] leads to, for any two
    keys; so nothing is found below a value that is not a dict. *)
Theorem X2_path_composition (document : value) (a b : string) :
  _get_nested_value document (dotted a b) =
  _get_nested_value (_get_nested_value document a) b /\
  (is_dict (_get_nested_value document a) = false ->
   _get_nested_value document (dotted a b) = VNone).
Proof.
  unfold _get_nested_value. rewrite split_dot_dotted.
  rewrite get_path_app by apply split_dot_nonempty.
  split; [reflexivity|].
  intros Hd. apply get_path_blocked; [exact Hd | apply split_dot_nonempty].
Qed.

Lemma X2_path_composition_witness :
  _get_nested_value chess_club (dotted "participants" "0") =
  _get_nested_value (_get_nested_value chess_club "participants") "0" /\
  _get_nested_value chess_club (dotted "participants" "0") = VNone.
Proof.
  split.
  - apply (proj1 (X2_path_composition chess_club "participants" "0")).
  - apply (proj2 (X2_path_composition chess_club "participants" "0")).
    reflexivity.
Defined.

(** X3: a key without a dot is a lookup of that field in the document;
    and a field whose own name contains a dot is out of reach: assigning
    to it changes what no key reads. *)
Theorem X3_plain_and_dotted_names (d : list (string * value)) (key : string) :
  (has_dot key = false ->
   _get_nested_value (VDict d) key =
   match dict_get key d with Some v => v | None => VNone end) /\
  (forall name v,
     has_dot name = true ->
     _get_nested_value (VDict (dict_assign name v d)) key =
     _get_nested_value (VDict d) key).
Proof.
  split.
  - intros Hk. unfold _get_nested_value. rewrite (split_dot_plain _ Hk).
    simpl. destruct (dict_get key d); reflexivity.
  - intros name v Hn. unfold _get_nested_value.
    pose proof (split_dot_segments key) as Hseg.
    pose proof (split_dot_nonempty key) as Hne.
    destruct (split_dot key) as [|part rest]; [congruence|].
    inversion Hseg as [|? ? Hpart _]; subst. simpl.
    rewrite dict_get_assign_other; [reflexivity|].
    intros ->. congruence.
Qed.

Lemma X3_plain_and_dotted_names_witness :
  _get_nested_value (VDict [("a", VInt 1)]) "a" = VInt 1 /\
  _get_nested_value (VDict (dict_assign "a.b" (VInt 2) [("a", VInt 1)])) "a.b" =
  _get_nested_value (VDict [("a", VInt 1)]) "a.b".
Proof.
  split.
  - apply (proj1 (X3_plain_and_dotted_names [("a", VInt 1)] "a")). reflexivity.
  - apply (proj2 (X3_plain_and_dotted_names [("a", VInt 1)] "a.b")). reflexivity.
Defined.

(** ** Filters *)

Lemma matches_fields_app (document : value) (q1 q2 : list (string * value)) :
  matches_fields document (q1 ++ q2) =
  (holds <- matches_fields document q1 ;;
   if holds then matches_fields document q2 else Ok false).
Proof.
  induction q1 as [|[k e] q1 IH]; [reflexivity|].
  cbn [app matches_fields].
  destruct (field_holds document k e) as [[|]|err]; cbn [bind];
    [exact IH | reflexivity | reflexivity].
Qed.

Lemma matches_fields_verdict (document : value) (query : list (string * value)) :
  Forall (field_evaluates document) query ->
  matches_fields document query = Ok (forallb (verdict document) query).
Proof.
  induction 1 as [|[k e] rest [b Hb] _ IH]; [reflexivity|].
  cbn [matches_fields forallb]. unfold verdict at 1. simpl fst in *.
  simpl snd in *. rewrite Hb. cbn [bind].
  destruct b; [exact IH | reflexivity].
Qed.

Lemma forallb_perm {A : Type} (f : A -> bool) (l l' : list A) :
  Permutation l l' -> forallb f l = forallb f l'.
Proof.
  induction 1 as [| x l l' _ IH | x y l | l l' l'' _ IH1 _ IH2]; simpl.
  - reflexivity.
  - rewrite IH. reflexivity.
  - destruct (f x), (f y); reflexivity.
  - congruence.
Qed.

Lemma matches_fields_true (document : value) (query : list (string * value)) :
  matches_fields document query = Ok true <->
  Forall (fun kv => field_holds document (fst kv) (snd kv) = Ok true) query.
Proof.
  induction query as [|[k e] rest IH]; cbn [matches_fields].
  - split; [constructor | reflexivity].
  - split.
    + intros H. destruct (field_holds document k e) as [[|]|err] eqn:Hf;
        cbn [bind] in H; try discriminate.
      constructor; [exact Hf | apply IH; exact H].
    + intros H. inversion H as [|? ? Hf Hrest]; subst. simpl in Hf.
      rewrite Hf. cbn [bind]. apply IH. exact Hrest.
Qed.

Lemma field_holds_literal (document : value) (key : string) (expected : value) :
  is_dict expected = false ->
  field_holds document key expected =
  Ok (py_eq (_get_nested_value document key) expected).
Proof. destruct expected; intros H; try reflexivity. discriminate. Qed.

Lemma count_matching_none (documents : list value) (query : list (string * value)) :
  Forall (fun document => _matches_query document query = Ok false) documents ->
  count_matching documents query = Ok 0.
Proof.
  induction 1 as [|d rest Hd _ IH]; [reflexivity|].
  cbn [count_matching]. rewrite Hd, IH. reflexivity.
Qed.

Lemma find_in_none (documents : list value) (query : list (string * value)) :
  Forall (fun document => _matches_query document query = Ok false) documents ->
  find_in documents query = GStop.
Proof.
  induction 1 as [|d rest Hd _ IH]; [reflexivity|].
  cbn [find_in]. rewrite Hd. exact IH.
Qed.

Lemma check_in_empty (actual : value) (ops : list (string * value)) :
  dict_get "$in" ops = Some (VList []) -> check_in actual ops = Ok false.
Proof.
  intros H. unfold check_in. rewrite H. destruct actual; reflexivity.
Qed.

Lemma check_in_atom (actual candidates : value) (ops : list (string * value)) :
  dict_get "$in" ops = Some candidates -> is_atom candidates = true ->
  check_in actual ops = Raise TypeError.
Proof.
  intros H Ha. unfold check_in. rewrite H.
  destruct candidates; try discriminate; destruct actual; reflexivity.
Qed.

(** X4: a filter made of the fields of [q1] followed by those of [q2]
    holds when both hold; [q2] is not looked at, and can raise nothing,
    once [q1] has failed or raised. *)
Theorem X4_filter_conjunction (document : value) (q1 q2 : list (string * value)) :
  _matches_query document (q1 ++ q2) =
  (holds <- _matches_query document q1 ;;
   if holds then _matches_query document q2 else Ok false).
Proof.
  rewrite !matches_query_fields. apply matches_fields_app.
Qed.

(** X5: the order of the fields of a filter does not change its verdict.
    When every field can be evaluated, every order gives the same result;
    and a verdict reached in one order is the verdict of any other order
    that raises nothing.  The order does decide whether an exception is
    reached at all. *)
Theorem X5_field_order :
  (forall document q q',
     Permutation q q' ->
     (Forall (field_evaluates document) q ->
      _matches_query document q' = _matches_query document q) /\
     (forall b,
        _matches_query document q = Ok b ->
        _matches_query document q' = Ok b \/
        exists e, _matches_query document q' = Raise e)) /\
  (exists document q q',
     Permutation q q' /\
     _matches_query document q = Ok false /\
     _matches_query document q' = Raise TypeError).
Proof.
  split.
  - intros document q q' Hp. rewrite !matches_query_fields. split.
    + intros Hev.
      rewrite (matches_fields_verdict document q Hev).
      rewrite (matches_fields_verdict document q'
                 (Permutation_Forall Hp Hev)).
      f_equal. symmetry. apply forallb_perm. exact Hp.
    + assert (Hmove : forall l l', Permutation l l' ->
                matches_fields document l = Ok true ->
                matches_fields document l' = Ok true).
      { intros l l' Hl H. apply matches_fields_true.
        apply (Permutation_Forall Hl). apply matches_fields_true. exact H. }
      intros b Hb.
      destruct (matches_fields document q') as [b'|e] eqn:Hb';
        [left | right; exists e; reflexivity].
      destruct b, b'; try reflexivity.
      * rewrite (Hmove q q' Hp Hb) in Hb'. discriminate.
      * rewrite (Hmove q' q (Permutation_sym Hp) Hb') in Hb. discriminate.
  - exists (VDict [("a", VInt 1)]),
           [("b", VInt 2); ("a", VDict [("$gte", VStr "x")])],
           [("a", VDict [("$gte", VStr "x")]); ("b", VInt 2)].
    split; [apply perm_swap | split; reflexivity].
Qed.

Lemma X5_field_order_witness :
  _matches_query chess_club
    [("max_participants", VInt 12); ("_id", VStr "Chess Club")] =
  _matches_query chess_club
    [("_id", VStr "Chess Club"); ("max_participants", VInt 12)] /\
  (_matches_query chess_club
     [("max_participants", VInt 10); ("_id", VStr "Chess Club")] = Ok false \/
   exists e,
     _matches_query chess_club
       [("max_participants", VInt 10); ("_id", VStr "Chess Club")] = Raise e).
Proof.
  split.
  - apply (proj1 (proj1 X5_field_order chess_club
                    [("_id", VStr "Chess Club"); ("max_participants", VInt 12)]
                    [("max_participants", VInt 12); ("_id", VStr "Chess Club")]
                    (perm_swap _ _ _))).
    constructor; [exists true; reflexivity|].
    constructor; [exists true; reflexivity | constructor].
  - apply (proj2 (proj1 X5_field_order chess_club
                    [("_id", VStr "Chess Club"); ("max_participants", VInt 10)]
                    [("max_participants", VInt 10); ("_id", VStr "Chess Club")]
                    (perm_swap _ _ _))).
    reflexivity.
Defined.

(** X6: a filter that gives a plain value for every field raises nothing;
    it holds exactly when every field it names is equal to the value
    given, an absent field being read as [None]. *)
Theorem X6_literal_filter (document : value) (query : list (string * value)) :
  Forall (fun kv => is_dict (snd kv) = false) query ->
  _matches_query document query =
  Ok (forallb (fun kv => py_eq (_get_nested_value document (fst kv)) (snd kv))
              query).
Proof.
  intros Hq. rewrite matches_query_fields.
  induction Hq as [|[k e] rest He _ IH]; [reflexivity|].
  cbn [matches_fields forallb fst snd]. simpl in He.
  rewrite (field_holds_literal document k e He). cbn [bind].
  destruct (py_eq (_get_nested_value document k) e); [exact IH | reflexivity].
Qed.

Lemma X6_literal_filter_witness :
  _matches_query chess_club
    [("_id", VStr "Chess Club"); ("max_participants", VInt 12)] =
  Ok (forallb (fun kv => py_eq (_get_nested_value chess_club (fst kv)) (snd kv))
        [("_id", VStr "Chess Club"); ("max_participants", VInt 12)]).
Proof.
  apply X6_literal_filter. repeat constructor.
Defined.

(** X7: the edges of [$in].  With an empty list of candidates the filter
    holds for no document, so nothing is counted or found; with [None] or
    a number in the place of the candidates it raises [TypeError] on
    every document; with a string there, a string field matches when it
    occurs inside that string. *)
Theorem X7_in_edges (key : string) (ops rest : list (string * value)) :
  (dict_get "$in" ops = Some (VList []) ->
   forall self,
     (forall document,
        _matches_query document ((key, VDict ops) :: rest) = Ok false) /\
     count_documents self ((key, VDict ops) :: rest) = Ok 0 /\
     find self ((key, VDict ops) :: rest) = GStop /\
     find_one self ((key, VDict ops) :: rest) = Ok None) /\
  (forall candidates,
     dict_get "$in" ops = Some candidates -> is_atom candidates = true ->
     forall document,
       _matches_query document ((key, VDict ops) :: rest) = Raise TypeError) /\
  (forall document part whole,
     _get_nested_value document key = VStr part ->
     _matches_query document [(key, VDict [("$in", VStr whole)])] =
     Ok (substring_of part whole)).
Proof.
  split; [|split].
  - intros Hin self.
    assert (Hno : forall document,
              _matches_query document ((key, VDict ops) :: rest) = Ok false).
    { intros document. cbn [_matches_query matches_fields].
      unfold field_holds. rewrite (check_in_empty _ _ Hin). reflexivity. }
    split; [exact Hno|].
    assert (Hall : Forall (fun document =>
                     _matches_query document ((key, VDict ops) :: rest) = Ok false)
                     (values self)).
    { apply Forall_forall. intros d _. apply Hno. }
    split; [apply count_matching_none; exact Hall|].
    split; [apply find_in_none; exact Hall|].
    unfold find_one.
    induction Hall as [|d ds Hd _ IH]; [reflexivity|].
    cbn [find_one_in]. rewrite Hd. exact IH.
  - intros candidates Hin Ha document. cbn [_matches_query matches_fields].
    unfold field_holds. rewrite (check_in_atom _ _ _ Hin Ha). reflexivity.
  - intros document part whole Hget. rewrite single_field.
    unfold field_holds. rewrite Hget. simpl.
    destruct (substring_of part whole); reflexivity.
Qed.

Lemma X7_in_edges_witness :
  count_documents two_clubs [("_id", VDict [("$in", VList [])])] = Ok 0 /\
  _matches_query chess_club [("_id", VDict [("$in", VInt 3)])] =
  Raise TypeError /\
  _matches_query chess_club [("_id", VDict [("$in", VStr "Chess Club Juniors")])] =
  Ok (substring_of "Chess Club" "Chess Club Juniors").
Proof.
  split; [|split].
  - apply (proj1 (X7_in_edges "_id" [("$in", VList [])] []) eq_refl two_clubs).
  - apply (proj1 (proj2 (X7_in_edges "_id" [("$in", VInt 3)] []))
             (VInt 3) eq_refl eq_refl).
  - apply (proj2 (proj2 (X7_in_edges "_id" [] []))). reflexivity.
Defined.

(** ** The three scans *)

Lemma find_one_in_find (documents : list value) (query : list (string * value)) :
  find_one_in documents query =
  match find_in documents query with
  | GStop => Ok None
  | GRaise e => Raise e
  | GYield document _ => Ok (Some document)
  end.
Proof.
  induction documents as [|d rest IH]; [reflexivity|].
  cbn [find_one_in find_in].
  destruct (_matches_query d query) as [[|]|e]; cbn [bind];
    [reflexivity | exact IH | reflexivity].
Qed.

Lemma count_matching_find (documents : list value) (query : list (string * value)) :
  count_matching documents query =
  match raised (find_in documents query) with
  | Some e => Raise e
  | None => Ok (Z.of_nat (List.length (yielded (find_in documents query))))
  end.
Proof.
  induction documents as [|d rest IH]; [reflexivity|].
  cbn [count_matching find_in].
  destruct (_matches_query d query) as [[|]|e]; cbn [bind raised yielded];
    [| |reflexivity]; rewrite IH;
    destruct (raised (find_in rest query)); cbn [bind List.length];
    try reflexivity; f_equal; lia.
Qed.

(** X8: the three scans agree, exceptions included.  [find_one] gives the
    first thing [find] does: its first document, [None] when it ends at
    once, the exception when it starts with one.  [count_documents] is the
    number of documents [find] yields when [find] runs to its end, and
    raises what [find] raises otherwise. *)
Theorem X8_scans_agree (self : collection) (query : list (string * value)) :
  find_one self query =
  match find self query with
  | GStop => Ok None
  | GRaise e => Raise e
  | GYield document _ => Ok (Some document)
  end /\
  count_documents self query =
  match raised (find self query) with
  | Some e => Raise e
  | None => Ok (Z.of_nat (List.length (yielded (find self query))))
  end.
Proof.
  split; [apply find_one_in_find | apply count_matching_find].
Qed.

(** ** Identifiers *)

Lemma py_eq_hashable_refl (a : value) : hashable a = true -> py_eq a a = true.
Proof.
  destruct a; simpl; try discriminate; intros _.
  - reflexivity.
  - destruct b; reflexivity.
  - apply Z.eqb_refl.
  - apply String.eqb_refl.
Qed.

Lemma py_eq_hashable_left (a b : value) :
  py_eq a b = true -> hashable b = true -> hashable a = true.
Proof. destruct a, b; simpl; intros; try reflexivity; discriminate. Qed.

(** On hashable values [==] is an equivalence: equal keys answer every
    comparison alike. *)
Lemma py_eq_hashable_trans (a b c : value) :
  hashable b = true -> py_eq a b = true -> py_eq a c = py_eq b c.
Proof.
  intros Hb Hab.
  destruct a, b; simpl in Hb, Hab; try discriminate;
    try (apply Z.eqb_eq in Hab); try (apply String.eqb_eq in Hab);
    try (apply Bool.eqb_prop in Hab); subst; try reflexivity;
    destruct c; simpl; try reflexivity;
    repeat match goal with x : bool |- _ => destruct x end; reflexivity.
Qed.

Lemma dict_get_update_other {V : Type} (k k' : string) (f : V -> V)
  (d : list (string * V)) :
  k' <> k -> dict_get k' (dict_update k f d) = dict_get k' d.
Proof.
  intros Hne. induction d as [|[k0 v0] d IH]; simpl; [reflexivity|].
  destruct (String.eqb_spec k0 k); simpl.
  - subst k0. destruct (String.eqb_spec k k'); [congruence | reflexivity].
  - destruct (String.eqb k0 k'); [reflexivity | exact IH].
Qed.

Lemma filed_inv (k d : value) :
  filed (k, d) = true ->
  exists fields identifier,
    d = VDict fields /\ dict_get "_id" fields = Some identifier /\
    hashable identifier = true /\ py_eq k identifier = true.
Proof.
  unfold filed, id_of. simpl. destruct d; try discriminate.
  destruct (dict_get "_id" fields) as [identifier|] eqn:Hid; [|discriminate].
  intros H. apply andb_true_iff in H as [Hh He].
  exists fields, identifier. repeat split; assumption.
Qed.

(** On a slot filed under [k] the filter [{"_id": i}] is the test
    [k == i]. *)
Lemma id_query (k d i : value) :
  filed (k, d) = true -> hashable i = true ->
  _matches_query d (by_id i) = Ok (py_eq k i).
Proof.
  intros Hf Hi. destruct (filed_inv _ _ Hf) as (fields & identifier & -> & Hid & Hh & Hk).
  unfold by_id. rewrite single_field, field_holds_literal
    by (destruct i; try reflexivity; discriminate).
  unfold _get_nested_value.
  change (split_dot "_id") with ["_id"]. simpl. rewrite Hid.
  rewrite (py_eq_hashable_trans k identifier i Hh Hk). reflexivity.
Qed.

Lemma by_id_find (self : collection) (i : value) :
  consistent self = true -> hashable i = true ->
  find_one self (by_id i) = Ok (store_get i self).
Proof.
  intros Hc Hi. unfold find_one.
  induction self as [|[k d] rest IH]; [reflexivity|].
  simpl in Hc. apply andb_true_iff in Hc as [Hf Hc].
  cbn [values map snd find_one_in store_get].
  rewrite (id_query k d i Hf Hi). cbn [bind].
  destruct (py_eq k i); [rewrite deepcopy_id; reflexivity | apply IH; exact Hc].
Qed.

Lemma unique_head (k i : value) (rest : list value) :
  unique_ids (k :: rest) = true -> py_eq k i = true -> hashable i = true ->
  py_in i rest = false.
Proof.
  simpl. intros Hu Hk Hi.
  apply andb_true_iff in Hu as [Hu _]. apply andb_true_iff in Hu as [Hh Hnot].
  apply negb_true_iff in Hnot.
  destruct (py_in i rest) eqn:Hin; [|reflexivity].
  apply existsb_exists in Hin as [k' [Hin Hk']].
  assert (existsb (fun later => py_eq k later) rest = true); [|congruence].
  apply existsb_exists. exists k'. split; [exact Hin|].
  rewrite (py_eq_hashable_trans k i k' Hi Hk).
  assert (Hk'h : hashable k' = true) by (apply (py_eq_hashable_left k' i); assumption).
  rewrite py_eq_sym; [exact Hk' | |]; [destruct i | destruct k'];
    try reflexivity; discriminate.
Qed.

Lemma by_id_absent (self : collection) (i : value) :
  consistent self = true -> hashable i = true ->
  py_in i (keys self) = false ->
  count_documents self (by_id i) = Ok 0.
Proof.
  intros Hc Hi Hin. apply count_matching_none.
  induction self as [|[k d] rest IH]; [constructor|].
  simpl in Hc, Hin. apply andb_true_iff in Hc as [Hf Hc].
  apply orb_false_iff in Hin as [Hk Hin].
  constructor; [|apply IH; assumption].
  cbn [snd]. rewrite (id_query k d i Hf Hi), Hk. reflexivity.
Qed.

Lemma by_id_count (self : collection) (i : value) :
  consistent self = true -> unique_ids (keys self) = true ->
  hashable i = true ->
  count_documents self (by_id i) =
  Ok (if py_in i (keys self) then 1 else 0).
Proof.
  intros Hc Hu Hi.
  induction self as [|[k d] rest IH]; [reflexivity|].
  pose proof Hu as Hu'. simpl in Hc, Hu.
  apply andb_true_iff in Hc as [Hf Hc]. apply andb_true_iff in Hu as [_ Hrest].
  unfold count_documents. cbn [values map snd count_matching keys fst py_in existsb].
  rewrite (id_query k d i Hf Hi). cbn [bind].
  destruct (py_eq k i) eqn:Hk; cbn [orb].
  - pose proof (unique_head k i (keys rest) Hu' Hk Hi) as Hin.
    fold (values rest). fold (count_documents rest (by_id i)).
    rewrite (by_id_absent rest i Hc Hi Hin). reflexivity.
  - fold (values rest). fold (count_documents rest (by_id i)).
    rewrite (IH Hc Hrest). cbn [bind].
    fold (keys rest). fold (py_in i (keys rest)).
    destruct (py_in i (keys rest)); reflexivity.
Qed.

Lemma store_get_set {D : Type} (i : value) (doc : D) (self : list (value * D)) :
  hashable i = true -> store_get i (store_set i doc self) = Some doc.
Proof.
  intros Hi. induction self as [|[k d] rest IH]; simpl.
  - rewrite (py_eq_hashable_refl i Hi). reflexivity.
  - destruct (py_eq k i) eqn:Hk; simpl; rewrite Hk; [reflexivity | exact IH].
Qed.

Lemma store_set_twice {D : Type} (i : value) (d1 d2 : D) (self : list (value * D)) :
  hashable i = true ->
  store_set i d2 (store_set i d1 self) = store_set i d2 self.
Proof.
  intros Hi. induction self as [|[k d] rest IH]; simpl.
  - rewrite (py_eq_hashable_refl i Hi). reflexivity.
  - destruct (py_eq k i) eqn:Hk; simpl; rewrite Hk; [reflexivity|].
    rewrite IH. reflexivity.
Qed.

Lemma store_get_in (i : value) (self : collection) :
  py_in i (keys self) = match store_get i self with Some _ => true | None => false end.
Proof.
  induction self as [|[k d] rest IH]; simpl; [reflexivity|].
  destruct (py_eq k i); [reflexivity | exact IH].
Qed.

(** *** What the writes keep *)

Lemma update_path_keeps_id (f : list value -> list value) (parts : list string)
  (document i : value) (xs : list value) :
  get_path document parts = VList xs ->
  id_of document = Some i -> hashable i = true ->
  id_of (update_path f parts document) = Some i.
Proof.
  intros Hget Hid Hi. destruct document; try discriminate.
  destruct parts as [|part rest]; [discriminate|].
  simpl in *. destruct (String.eqb_spec part "_id") as [-> | Hne].
  - rewrite Hid in Hget. exfalso.
    destruct rest; simpl in Hget; [subst i; discriminate|].
    destruct i; discriminate.
  - apply not_eq_sym in Hne.
    rewrite (dict_get_update_other part "_id" _ fields Hne). exact Hid.
Qed.

Lemma push_step_keeps_id (i : value) (st : value * Z) (pair : string * value) :
  hashable i = true -> id_of (fst st) = Some i ->
  id_of (fst (push_step st pair)) = Some i.
Proof.
  intros Hi Hid. destruct st as [document modified], pair as [field v].
  unfold push_step.
  destruct (_get_nested_value document field) eqn:Hg; try exact Hid.
  simpl. apply (update_path_keeps_id _ _ _ _ items); assumption.
Qed.

Lemma pull_step_keeps_id (i : value) (st : value * Z) (pair : string * value) :
  hashable i = true -> id_of (fst st) = Some i ->
  id_of (fst (pull_step st pair)) = Some i.
Proof.
  intros Hi Hid. destruct st as [document modified], pair as [field v].
  unfold pull_step.
  destruct (_get_nested_value document field) eqn:Hg; try exact Hid.
  destruct (py_in v items); [|exact Hid].
  simpl. apply (update_path_keeps_id _ _ _ _ items); assumption.
Qed.

Lemma fold_keeps_id (step : value * Z -> string * value -> value * Z) (i : value) :
  (forall st pair, id_of (fst st) = Some i -> id_of (fst (step st pair)) = Some i) ->
  forall pairs st,
    id_of (fst st) = Some i -> id_of (fst (fold_left step pairs st)) = Some i.
Proof.
  intros Hstep. induction pairs as [|pair pairs IH]; intros st Hid; simpl.
  - exact Hid.
  - apply IH. apply Hstep. exact Hid.
Qed.

Lemma apply_update_keeps_id (document i : value) (update : list (string * value)) :
  id_of document = Some i -> hashable i = true ->
  id_of (fst (apply_update document update)) = Some i.
Proof.
  intros Hid Hi.
  assert (Hpush : forall st, id_of (fst st) = Some i ->
            forall st', run_push st update = Ok st' -> id_of (fst st') = Some i).
  { intros st Hst st'. unfold run_push.
    destruct (dict_get "$push" update) as [[| | | | |pairs]|]; try discriminate;
      intros H; inversion H; subst; [|exact Hst].
    apply fold_keeps_id; [|exact Hst].
    intros; apply push_step_keeps_id; assumption. }
  assert (Hpull : forall st, id_of (fst st) = Some i ->
            forall st', run_pull st update = Ok st' -> id_of (fst st') = Some i).
  { intros st Hst st'. unfold run_pull.
    destruct (dict_get "$pull" update) as [[| | | | |pairs]|]; try discriminate;
      intros H; inversion H; subst; [|exact Hst].
    apply fold_keeps_id; [|exact Hst].
    intros; apply pull_step_keeps_id; assumption. }
  unfold apply_update.
  destruct (run_push (document, 0) update) as [st1|e] eqn:H1; [|exact Hid].
  pose proof (Hpush (document, 0) Hid _ H1) as Hid1.
  destruct (run_pull st1 update) as [st2|e] eqn:H2; [|exact Hid1].
  exact (Hpull _ Hid1 _ H2).
Qed.

Lemma filed_id (k d i : value) :
  filed (k, d) = true -> id_of d = Some i ->
  hashable i = true /\ py_eq k i = true.
Proof.
  unfold filed. simpl. intros H Hid. rewrite Hid in H.
  apply andb_true_iff in H. exact H.
Qed.

Lemma apply_update_filed (k d : value) (update : list (string * value)) :
  filed (k, d) = true -> filed (k, fst (apply_update d update)) = true.
Proof.
  intros Hf. destruct (filed_inv _ _ Hf) as (fields & i & -> & Hid & Hh & Hk).
  unfold filed. cbn [snd fst].
  rewrite (apply_update_keeps_id (VDict fields) i update Hid Hh).
  rewrite Hh, Hk. reflexivity.
Qed.

Lemma update_first_consistent (self : collection)
  (query update : list (string * value)) :
  consistent self = true ->
  consistent (fst (update_first self query update)) = true.
Proof.
  induction self as [|[k d] rest IH]; intros Hc; [reflexivity|].
  simpl in Hc. apply andb_true_iff in Hc as [Hf Hc].
  cbn [update_first].
  destruct (_matches_query d query) as [[|]|e].
  - pose proof (apply_update_filed k d update Hf) as Hf'.
    destruct (apply_update d update) as [d' r]. simpl in *.
    rewrite Hf', Hc. reflexivity.
  - specialize (IH Hc).
    destruct (update_first rest query update) as [rest' r]. simpl in *.
    rewrite Hf, IH. reflexivity.
  - simpl. rewrite Hf, Hc. reflexivity.
Qed.

Lemma store_set_consistent (self : collection) (document i : value) :
  consistent self = true -> id_of document = Some i -> hashable i = true ->
  consistent (store_set i document self) = true.
Proof.
  intros Hc Hid Hi. induction self as [|[k d] rest IH]; simpl.
  - unfold filed. simpl. rewrite Hid, Hi, (py_eq_hashable_refl i Hi). reflexivity.
  - simpl in Hc. apply andb_true_iff in Hc as [Hf Hc].
    destruct (py_eq k i) eqn:Hk; simpl.
    + unfold filed at 1. simpl. rewrite Hid, Hi, Hk, Hc. reflexivity.
    + rewrite Hf, (IH Hc). reflexivity.
Qed.

Lemma insert_one_consistent (self self' : collection) (document : value) :
  consistent self = true -> insert_one self document = Ok self' ->
  consistent self' = true.
Proof.
  intros Hc Hins.
  destruct (insert_one_ok _ _ _ Hins) as (fields & i & -> & Hid & Hh & ->).
  apply store_set_consistent; assumption.
Qed.

Lemma run_op_consistent (self : collection) (o : op) :
  consistent self = true -> consistent (run_op self o) = true.
Proof.
  intros Hc. destruct o as [document | query update]; simpl.
  - destruct (insert_one self document) as [self'|e] eqn:Hins; [|exact Hc].
    apply (insert_one_consistent self self' document); assumption.
  - apply update_first_consistent. exact Hc.
Qed.

Lemma run_ops_consistent (ops : list op) :
  forall self, consistent self = true ->
               consistent (fold_left run_op ops self) = true.
Proof.
  induction ops as [|o ops IH]; intros self Hc; simpl; [exact Hc|].
  apply IH. apply run_op_consistent. exact Hc.
Qed.

(** X9: every document is stored under its own [_id].  [update_one] never
    changes the identifier of a document, whatever paths the update names;
    so after any calls that write to the store, from the empty store on,
    each slot holds a dict whose [_id] is hashable and equal to the key of
    the slot. *)
Theorem X9_filed_under_own_id :
  (forall document update identifier,
     id_of document = Some identifier -> hashable identifier = true ->
     id_of (fst (apply_update document update)) = Some identifier) /\
  (forall ops, consistent (run_ops ops) = true).
Proof.
  split.
  - intros. apply apply_update_keeps_id; assumption.
  - intros ops. apply run_ops_consistent. reflexivity.
Qed.

Lemma X9_filed_under_own_id_witness :
  id_of (fst (apply_update chess_club (push_one "_id" (VStr "x")))) =
  Some (VStr "Chess Club").
Proof.
  apply (proj1 X9_filed_under_own_id); reflexivity.
Defined.

(** X10: on a store reached by calls from the empty store, looking up by
    [_id] is looking up the key: [find_one({"_id": i})] gives the document
    stored under [i], [None] when there is none, and
    [count_documents({"_id": i})] is 1 or 0 accordingly. *)
Theorem X10_lookup_by_id (ops : list op) (identifier : value) :
  hashable identifier = true ->
  find_one (run_ops ops) (by_id identifier) =
  Ok (store_get identifier (run_ops ops)) /\
  count_documents (run_ops ops) (by_id identifier) =
  Ok (match store_get identifier (run_ops ops) with
      | Some _ => 1
      | None => 0
      end).
Proof.
  intros Hi.
  assert (Hc : consistent (run_ops ops) = true)
    by (apply run_ops_consistent; reflexivity).
  assert (Hu : unique_ids (keys (run_ops ops)) = true)
    by (apply run_ops_unique; reflexivity).
  split; [apply by_id_find; assumption|].
  rewrite by_id_count by assumption. rewrite store_get_in.
  destruct (store_get identifier (run_ops ops)); reflexivity.
Qed.

Lemma X10_lookup_by_id_witness :
  find_one (run_ops [Insert math_club; Insert chess_club])
           (by_id (VStr "Chess Club")) =
  Ok (store_get (VStr "Chess Club") (run_ops [Insert math_club; Insert chess_club])) /\
  count_documents (run_ops [Insert math_club; Insert chess_club])
                  (by_id (VStr "Chess Club")) =
  Ok (match store_get (VStr "Chess Club")
                      (run_ops [Insert math_club; Insert chess_club]) with
      | Some _ => 1
      | None => 0
      end).
Proof.
  apply X10_lookup_by_id. reflexivity.
Defined.

(** X11: what [insert_one] stores is found again: after a successful
    insert into a store reached by calls from the empty store, the
    document has an [_id], [find_one] by that [_id] returns the document,
    and exactly one document is counted under it. *)
Theorem X11_insert_then_find (ops : list op) (document : value)
  (self' : collection) :
  insert_one (run_ops ops) document = Ok self' ->
  exists identifier,
    id_of document = Some identifier /\
    find_one self' (by_id identifier) = Ok (Some document) /\
    count_documents self' (by_id identifier) = Ok 1.
Proof.
  intros Hins.
  assert (Hc : consistent (run_ops ops) = true)
    by (apply run_ops_consistent; reflexivity).
  assert (Hu : unique_ids (keys (run_ops ops)) = true)
    by (apply run_ops_unique; reflexivity).
  pose proof (insert_one_consistent _ _ _ Hc Hins) as Hc'.
  assert (Hu' : unique_ids (keys self') = true).
  { pose proof (run_op_unique (run_ops ops) (Insert document) Hu) as H.
    simpl in H. rewrite Hins in H. exact H. }
  destruct (insert_one_ok _ _ _ Hins) as (fields & i & -> & Hid & Hh & ->).
  exists i. split; [exact Hid|].
  split.
  - rewrite by_id_find by assumption. rewrite store_get_set by exact Hh.
    reflexivity.
  - rewrite by_id_count by assumption. rewrite store_get_in.
    rewrite store_get_set by exact Hh. reflexivity.
Qed.

Lemma X11_insert_then_find_witness :
  exists identifier,
    id_of chess_club = Some identifier /\
    find_one two_clubs (by_id identifier) = Ok (Some chess_club) /\
    count_documents two_clubs (by_id identifier) = Ok 1.
Proof.
  apply (X11_insert_then_find [Insert math_club] chess_club two_clubs).
  reflexivity.
Defined.

(** X12: the last insert under an identifier wins: inserting one document
    and then another with the same [_id] leaves the store that inserting
    the second alone would have left.  Inserting the same document twice
    is inserting it once. *)
Theorem X12_last_insert_wins (self : collection) (first second identifier : value) :
  id_of first = Some identifier -> id_of second = Some identifier ->
  hashable identifier = true ->
  (self' <- insert_one self first ;; insert_one self' second) =
  insert_one self second /\
  (self' <- insert_one self first ;; insert_one self' first) =
  insert_one self first.
Proof.
  intros H1 H2 Hi.
  assert (Hins : forall s d, id_of d = Some identifier ->
            insert_one s d = Ok (store_set identifier d s)).
  { intros s d Hd. unfold insert_one. rewrite deepcopy_id.
    destruct d; try discriminate. simpl in Hd. rewrite Hd, Hi. reflexivity. }
  rewrite (Hins self first H1), (Hins self second H2). cbn [bind].
  rewrite (Hins _ second H2), (Hins _ first H1).
  rewrite !store_set_twice by exact Hi. split; reflexivity.
Qed.

Lemma X12_last_insert_wins_witness :
  (self' <- insert_one two_clubs chess_club ;;
   insert_one self' (VDict chess_club_renewed)) =
  insert_one two_clubs (VDict chess_club_renewed) /\
  (self' <- insert_one two_clubs chess_club ;; insert_one self' chess_club) =
  insert_one two_clubs chess_club.
Proof.
  apply (X12_last_insert_wins two_clubs chess_club (VDict chess_club_renewed)
           (VStr "Chess Club")); reflexivity.
Defined.

(** ** What an update changes *)

Lemma reshaped_refl (h : Heap.heap) : Heap.reshaped h h.
Proof. split; [reflexivity|]. split; eauto. Qed.

Lemma reshaped_write (h hc : Heap.heap) (l : Heap.loc)
  (items items' : list Heap.ref) :
  Heap.reshaped h hc -> nth_error hc l = Some (Heap.CList items) ->
  Heap.reshaped h (Heap.write hc l (Heap.CList items')).
Proof.
  intros (Hlen & Hdict & Hlist) Hl. split; [rewrite length_write; exact Hlen|].
  split.
  - intros k fields Hk. destruct (Nat.eq_dec l k) as [<- | Hne].
    + rewrite (Hdict l fields Hk) in Hl. discriminate.
    + rewrite nth_error_write_other by exact Hne. apply Hdict. exact Hk.
  - intros k its Hk. destruct (Nat.eq_dec l k) as [<- | Hne].
    + exists items'. apply nth_error_write_same.
      eapply nth_error_valid. exact Hl.
    + rewrite nth_error_write_other by exact Hne. apply (Hlist k its Hk).
Qed.

Lemma dict_at_reshaped (h hc : Heap.heap) (r : Heap.ref) :
  Heap.reshaped h hc -> Heap.dict_at hc r = Heap.dict_at h r.
Proof.
  intros (Hlen & Hdict & Hlist). destruct r as [| | | |l]; try reflexivity. simpl.
  destruct (nth_error h l) as [[items|fields]|] eqn:Hl.
  - destruct (Hlist l items Hl) as [items' ->]. reflexivity.
  - rewrite (Hdict l fields Hl). reflexivity.
  - apply nth_error_None in Hl. rewrite <- Hlen in Hl.
    apply nth_error_None in Hl. rewrite Hl. reflexivity.
Qed.

(** A path goes through dicts only: it leads where it led. *)
Lemma get_path_reshaped (h hc : Heap.heap) (parts : list string) :
  Heap.reshaped h hc ->
  forall r, Heap.get_path hc r parts = Heap.get_path h r parts.
Proof.
  intros Hshape. induction parts as [|part rest IH]; intros r; simpl; [reflexivity|].
  rewrite (dict_at_reshaped h hc r Hshape).
  destruct (Heap.dict_at h r) as [fields|]; [|reflexivity].
  destruct (dict_get part fields); [apply IH | reflexivity].
Qed.

Lemma reshaped_list (h hc : Heap.heap) (l : Heap.loc) (items' : list Heap.ref) :
  Heap.reshaped h hc -> nth_error hc l = Some (Heap.CList items') ->
  exists items, nth_error h l = Some (Heap.CList items).
Proof.
  intros (Hlen & Hdict & Hlist) Hl.
  destruct (nth_error h l) as [[items|fields]|] eqn:E; [eauto | |].
  - rewrite (Hdict l fields E) in Hl. discriminate.
  - apply nth_error_None in E. apply nth_error_valid in Hl. lia.
Qed.

Section InPlace.
Variable fuel : nat.
Variable h : Heap.heap.
Variable document : Heap.ref.
Variable update : list (string * Heap.ref).


Lemma touched_start : Heap.touched h document update h.
Proof. split; [apply reshaped_refl|]. intros l Hl. congruence. Qed.

Lemma touched_write (hc : Heap.heap) (field : string) (l : Heap.loc)
  (items items' : list Heap.ref) :
  Heap.touched h document update hc -> Heap.mentions h update field ->
  Heap._get_nested_value hc document field = Heap.RLoc l ->
  nth_error hc l = Some (Heap.CList items) ->
  Heap.touched h document update (Heap.write hc l (Heap.CList items')).
Proof.
  intros [Hshape Hchanged] Hfield Hget Hl.
  split; [apply (reshaped_write h hc l items items' Hshape Hl)|].
  intros k Hk. destruct (Nat.eq_dec l k) as [<- | Hne].
  - exists field. split; [exact Hfield|].
    unfold Heap._get_nested_value in *.
    rewrite <- (get_path_reshaped h hc _ Hshape). exact Hget.
  - rewrite nth_error_write_other in Hk by exact Hne. apply Hchanged. exact Hk.
Qed.

Lemma push_step_touched (st : Heap.heap * Z) (kv : string * Heap.ref) :
  Heap.touched h document update (fst st) -> Heap.mentions h update (fst kv) ->
  Heap.touched h document update (fst (Heap.push_step document st kv)).
Proof.
  destruct st as [hc modified], kv as [field v]. simpl. intros Ht Hfield.
  destruct (Heap._get_nested_value hc document field) as [| | | |l] eqn:Hget;
    try exact Ht.
  destruct (nth_error hc l) as [[items|fields]|] eqn:Hl; try exact Ht. simpl.
  apply (touched_write hc field l items _ Ht Hfield Hget Hl).
Qed.

Lemma push_fold_touched (pairs : list (string * Heap.ref)) :
  forall st,
    Heap.touched h document update (fst st) ->
    Forall (fun kv => Heap.mentions h update (fst kv)) pairs ->
    Heap.touched h document update
      (fst (fold_left (Heap.push_step document) pairs st)).
Proof.
  induction pairs as [|kv pairs IH]; intros st Ht Hall; simpl; [exact Ht|].
  inversion Hall; subst. apply IH; [|assumption].
  apply push_step_touched; assumption.
Qed.

Lemma pull_step_touched (st st' : Heap.heap * Z) (kv : string * Heap.ref) :
  Heap.touched h document update (fst st) -> Heap.mentions h update (fst kv) ->
  Heap.pull_step fuel document st kv = Ok st' ->
  Heap.touched h document update (fst st').
Proof.
  destruct st as [hc modified], kv as [field v]. simpl. intros Ht Hfield Hrun.
  destruct (Heap._get_nested_value hc document field) as [| | | |l] eqn:Hget;
    try (injection Hrun as <-; exact Ht).
  destruct (nth_error hc l) as [[items|fields]|] eqn:Hl;
    try (injection Hrun as <-; exact Ht).
  destruct (Heap.pull fuel hc v items) as [[items'|]|e]; simpl in Hrun;
    [| |discriminate]; injection Hrun as <-; [|exact Ht]. simpl.
  apply (touched_write hc field l items _ Ht Hfield Hget Hl).
Qed.

Lemma pull_all_touched (pairs : list (string * Heap.ref)) :
  forall st,
    Heap.touched h document update (fst st) ->
    Forall (fun kv => Heap.mentions h update (fst kv)) pairs ->
    Heap.touched h document update (fst (Heap.pull_all fuel document st pairs)).
Proof.
  induction pairs as [|kv pairs IH]; intros st Ht Hall; simpl; [exact Ht|].
  inversion Hall; subst.
  destruct (Heap.pull_step fuel document st kv) as [st'|e] eqn:Hrun; [|exact Ht].
  apply IH; [|assumption].
  apply (pull_step_touched st st' kv); assumption.
Qed.

Lemma operand_mentions (hc : Heap.heap) (op : string)
  (pairs : list (string * Heap.ref)) :
  Heap.reshaped h hc -> op = "$push" \/ op = "$pull" ->
  Heap.operand hc update op = Ok pairs ->
  Forall (fun kv => Heap.mentions h update (fst kv)) pairs.
Proof.
  intros Hshape Hop Hrun. unfold Heap.operand in Hrun.
  destruct (dict_get op update) as [r|] eqn:Hg;
    [|injection Hrun as <-; constructor].
  rewrite (dict_at_reshaped h hc r Hshape) in Hrun.
  destruct (Heap.dict_at h r) as [ps|] eqn:Hat; [|discriminate].
  injection Hrun as <-. apply Forall_forall. intros [field v] Hin.
  exists op, r, ps, v. auto.
Qed.

Lemma apply_update_touched :
  Heap.touched h document update
    (fst (Heap.apply_update fuel h document update)).
Proof.
  unfold Heap.apply_update.
  destruct (Heap.operand h update "$push") as [pushes|e] eqn:Hpush;
    [|exact touched_start].
  pose proof (push_fold_touched pushes (h, 0) touched_start
                (operand_mentions h "$push" pushes (reshaped_refl h)
                   (or_introl eq_refl) Hpush)) as Ht.
  destruct (Heap.operand (fst (fold_left (Heap.push_step document) pushes (h, 0)))
              update "$pull") as [pulls|e] eqn:Hpull; [|exact Ht].
  apply pull_all_touched; [exact Ht|].
  apply (operand_mentions _ "$pull" pulls (proj1 Ht) (or_intror eq_refl) Hpull).
Qed.

End InPlace.

(** X13: [update_one] works in place.  It makes no object and changes no
    dict; a list that has other items afterwards is a list that a path of
    the update, a key of its [$push] or [$pull] operand, leads to in the
    first document the filter selects, whatever else that list is part
    of. *)
Theorem X13_update_in_place (fuel : nat) (h h' : Heap.heap)
  (self : Heap.documents) (query : list (string * value))
  (update : list (string * Heap.ref)) (r : result Z) :
  Heap.update_one fuel h self query update = (h', r) ->
  List.length h' = List.length h /\
  (forall l fields, nth_error h l = Some (Heap.CDict fields) ->
                    nth_error h' l = Some (Heap.CDict fields)) /\
  (forall l,
      nth_error h' l <> nth_error h l ->
      exists before k document after field items items',
        self = before ++ (k, document) :: after /\
        Forall (fun kd => Heap._matches_query h (snd kd) query = Ok false)
               before /\
        Heap._matches_query h document query = Ok true /\
        Heap.mentions h update field /\
        Heap._get_nested_value h document field = Heap.RLoc l /\
        nth_error h l = Some (Heap.CList items) /\
        nth_error h' l = Some (Heap.CList items')).
Proof.
  unfold Heap.update_one. revert h' r.
  induction self as [|[k d] rest IH]; intros h' r Hrun; simpl in Hrun.
  - injection Hrun as <- <-. split; [reflexivity|]. split; [auto|].
    intros l Hl. congruence.
  - destruct (Heap._matches_query h d query) as [[|]|e] eqn:Hm.
    + pose proof (apply_update_touched fuel h d update) as [Hshape Hchanged].
      rewrite Hrun in Hshape, Hchanged. simpl in Hshape, Hchanged.
      destruct Hshape as (Hlen & Hdict & Hlist).
      split; [exact Hlen|]. split; [exact Hdict|].
      intros l Hl. destruct (Hchanged l Hl) as (field & Hfield & Hget).
      destruct (nth_error h l) as [[items|fields]|] eqn:E.
      * destruct (Hlist l items E) as [items' Hl'].
        exists [], k, d, rest, field, items, items'.
        repeat split; auto.
      * rewrite (Hdict l fields E) in Hl. congruence.
      * exfalso. apply Hl. apply nth_error_None in E. rewrite <- Hlen in E.
        apply nth_error_None in E. rewrite E. reflexivity.
    + destruct (IH h' r Hrun) as (Hlen & Hdict & Hchanged).
      split; [exact Hlen|]. split; [exact Hdict|].
      intros l Hl.
      destruct (Hchanged l Hl)
        as (before & k' & document & after & field & items & items' &
            -> & Hb & Hd & Hrest).
      exists ((k, d) :: before), k', document, after, field, items, items'.
      split; [reflexivity|]. split; [constructor; assumption|].
      split; [exact Hd | exact Hrest].
    + injection Hrun as <- <-. split; [reflexivity|]. split; [auto|].
      intros l Hl. congruence.
Qed.

Lemma X13_update_in_place_witness :
  Heap.update_one 5 twin [(VStr "Twin", Heap.RLoc 0%nat)] (by_id (VStr "Twin"))
    [("$push", Heap.RLoc 2%nat)] =
  ([Heap.CDict [("_id", Heap.RStr "Twin"); ("a", Heap.RLoc 1%nat);
                ("b", Heap.RLoc 1%nat)];
    Heap.CList [Heap.RStr "x"];
    Heap.CDict [("a", Heap.RStr "x")]], Ok 1) /\
  exists before k document after field items items',
    [(VStr "Twin", Heap.RLoc 0%nat)] = before ++ (k, document) :: after /\
    Forall (fun kd => Heap._matches_query twin (snd kd) (by_id (VStr "Twin"))
                      = Ok false) before /\
    Heap._matches_query twin document (by_id (VStr "Twin")) = Ok true /\
    Heap.mentions twin [("$push", Heap.RLoc 2%nat)] field /\
    Heap._get_nested_value twin document field = Heap.RLoc 1%nat /\
    nth_error twin 1%nat = Some (Heap.CList items) /\
    nth_error
      [Heap.CDict [("_id", Heap.RStr "Twin"); ("a", Heap.RLoc 1%nat);
                   ("b", Heap.RLoc 1%nat)];
       Heap.CList [Heap.RStr "x"];
       Heap.CDict [("a", Heap.RStr "x")]] 1%nat = Some (Heap.CList items').
Proof.
  split; [reflexivity|].
  refine (proj2 (proj2
    (X13_update_in_place 5 twin _ [(VStr "Twin", Heap.RLoc 0%nat)]
       (by_id (VStr "Twin")) [("$push", Heap.RLoc 2%nat)] (Ok 1) eq_refl))
    1%nat _).
  discriminate.
Defined.

(** ** Sign up, then unregister *)

Lemma store_get_split {D : Type} (i : value) (doc : D) (self : list (value * D)) :
  store_get i self = Some doc ->
  exists before k after,
    self = before ++ (k, doc) :: after /\ py_eq k i = true /\
    py_in i (map fst before) = false.
Proof.
  induction self as [|[k d] rest IH]; simpl; [discriminate|].
  destruct (py_eq k i) eqn:Hk.
  - intros H. inversion H; subst. exists [], k, rest. auto.
  - intros H. destruct (IH H) as (before & k' & after & Hs & Hk' & Hb).
    exists ((k, d) :: before), k', after. subst rest. simpl. rewrite Hk. auto.
Qed.

Lemma by_id_misses (before : collection) (i : value) :
  consistent before = true -> hashable i = true ->
  py_in i (keys before) = false ->
  Forall (fun kv => _matches_query (snd kv) (by_id i) = Ok false) before.
Proof.
  intros Hc Hi Hin. induction before as [|[k d] rest IH]; [constructor|].
  simpl in Hc, Hin. apply andb_true_iff in Hc as [Hf Hc].
  apply orb_false_iff in Hin as [Hk Hin].
  constructor; [|apply IH; assumption].
  cbn [snd]. rewrite (id_query k d i Hf Hi), Hk. reflexivity.
Qed.

Lemma consistent_app (before after : collection) :
  consistent (before ++ after) = consistent before && consistent after.
Proof. apply forallb_app. Qed.

(** X15: signing up and unregistering cancel.  On a store reached by
    calls from the empty store, when the document under [i] holds a list at
    [field] that has no item equal to [v], [$push] of [v] with the filter
    [{"_id": i}] followed by [$pull] of [v] with the same filter gives the
    store as it was, each call reporting one modification. *)
Theorem X15_push_then_pull (ops : list op) (identifier document : value)
  (field : string) (v : value) (xs : list value) :
  hashable identifier = true ->
  store_get identifier (run_ops ops) = Some document ->
  _get_nested_value document field = VList xs ->
  py_in v xs = false -> wf_value v = true ->
  exists pushed,
    update_one (run_ops ops) (by_id identifier) (push_one field v) =
    (pushed, Ok 1) /\
    update_one pushed (by_id identifier) (pull_one field v) =
    (run_ops ops, Ok 1).
Proof.
  intros Hi Hget Hfield Hin Hw.
  assert (Hc : consistent (run_ops ops) = true)
    by (apply run_ops_consistent; reflexivity).
  destruct (store_get_split _ _ _ Hget) as (before & k & after & Hs & Hk & Hb).
  destruct (push_pull_document document field v xs Hfield Hin Hw)
    as (pushed & Hpush & _ & Hpull).
  exists (before ++ (k, pushed) :: after).
  pose proof Hc as Hc0. rewrite Hs, consistent_app in Hc0.
  apply andb_true_iff in Hc0 as [Hcb Hca].
  simpl in Hca. apply andb_true_iff in Hca as [Hf Hca].
  assert (Hm : _matches_query document (by_id identifier) = Ok true).
  { rewrite (id_query k document identifier Hf Hi), Hk. reflexivity. }
  pose proof (by_id_misses before identifier Hcb Hi Hb) as Hmiss.
  assert (Hup : update_one (run_ops ops) (by_id identifier) (push_one field v) =
                (before ++ (k, pushed) :: after, Ok 1)).
  { rewrite Hs. unfold update_one, push_one.
    rewrite (update_first_hit before after k document _ _ Hmiss Hm).
    rewrite apply_update_one_push, Hpush. reflexivity. }
  split; [exact Hup|].
  assert (Hf' : filed (k, pushed) = true).
  { pose proof (apply_update_filed k document (push_one field v) Hf) as H.
    unfold push_one in H. rewrite apply_update_one_push, Hpush in H. exact H. }
  assert (Hm' : _matches_query pushed (by_id identifier) = Ok true).
  { rewrite (id_query k pushed identifier Hf' Hi), Hk. reflexivity. }
  unfold update_one, pull_one.
  rewrite (update_first_hit before after k pushed _ _ Hmiss Hm').
  rewrite apply_update_one_pull, Hpull, Hs. reflexivity.
Qed.

Lemma X15_push_then_pull_witness :
  exists pushed,
    update_one (run_ops [Insert math_club; Insert chess_club])
               (by_id (VStr "Chess Club"))
               (push_one "participants" (VStr "x@mergington.edu")) =
    (pushed, Ok 1) /\
    update_one pushed (by_id (VStr "Chess Club"))
               (pull_one "participants" (VStr "x@mergington.edu")) =
    (run_ops [Insert math_club; Insert chess_club], Ok 1).
Proof.
  apply (X15_push_then_pull [Insert math_club; Insert chess_club]
           (VStr "Chess Club") chess_club "participants"
           (VStr "x@mergington.edu")
           [VStr "michael@mergington.edu"; VStr "daniel@mergington.edu"]);
    reflexivity.
Defined.

(** X16: an update by [_id] works on the document stored under that
    identifier.  On a store reached by calls from the empty store, when the
    document under [i] holds a list at [field], [$push] with the filter
    [{"_id": i}] reports one modification, changes no other slot, and the
    document then found under [i] has the value as the last item of that
    list. *)
Theorem X16_update_by_id (ops : list op) (identifier document : value)
  (field : string) (v : value) (xs : list value) :
  hashable identifier = true ->
  store_get identifier (run_ops ops) = Some document ->
  _get_nested_value document field = VList xs ->
  exists before k after pushed,
    run_ops ops = before ++ (k, document) :: after /\
    update_one (run_ops ops) (by_id identifier) (push_one field v) =
    (before ++ (k, pushed) :: after, Ok 1) /\
    _get_nested_value pushed field = VList (xs ++ [v]) /\
    find_one (before ++ (k, pushed) :: after) (by_id identifier) =
    Ok (Some pushed).
Proof.
  intros Hi Hget Hfield.
  assert (Hc : consistent (run_ops ops) = true)
    by (apply run_ops_consistent; reflexivity).
  destruct (store_get_split _ _ _ Hget) as (before & k & after & Hs & Hk & Hb).
  exists before, k, after.
  destruct (push_step_list document 0 field v xs Hfield) as (pushed & Hpush & Hread).
  exists pushed. split; [exact Hs|].
  pose proof Hc as Hc0. rewrite Hs, consistent_app in Hc0.
  apply andb_true_iff in Hc0 as [Hcb Hca].
  simpl in Hca. apply andb_true_iff in Hca as [Hf Hca].
  assert (Hm : _matches_query document (by_id identifier) = Ok true).
  { rewrite (id_query k document identifier Hf Hi), Hk. reflexivity. }
  pose proof (by_id_misses before identifier Hcb Hi Hb) as Hmiss.
  assert (Hup : update_one (run_ops ops) (by_id identifier) (push_one field v) =
                (before ++ (k, pushed) :: after, Ok 1)).
  { rewrite Hs. unfold update_one, push_one.
    rewrite (update_first_hit before after k document _ _ Hmiss Hm).
    rewrite apply_update_one_push, Hpush. reflexivity. }
  split; [exact Hup|]. split; [exact Hread|].
  assert (Hc' : consistent (before ++ (k, pushed) :: after) = true).
  { pose proof (update_first_consistent (run_ops ops) (by_id identifier)
                  (push_one field v) Hc) as H.
    unfold update_one in Hup. rewrite Hup in H. exact H. }
  rewrite (by_id_find _ identifier Hc' Hi).
  rewrite (store_get_slot before after k identifier pushed Hb Hk). reflexivity.
Qed.

Lemma X16_update_by_id_witness :
  exists before k after pushed,
    run_ops [Insert math_club; Insert chess_club] =
    before ++ (k, chess_club) :: after /\
    update_one (run_ops [Insert math_club; Insert chess_club])
               (by_id (VStr "Chess Club"))
               (push_one "participants" (VStr "x@mergington.edu")) =
    (before ++ (k, pushed) :: after, Ok 1) /\
    _get_nested_value pushed "participants" =
    VList ([VStr "michael@mergington.edu"; VStr "daniel@mergington.edu"] ++
           [VStr "x@mergington.edu"]) /\
    find_one (before ++ (k, pushed) :: after) (by_id (VStr "Chess Club")) =
    Ok (Some pushed).
Proof.
  apply (X16_update_by_id [Insert math_club; Insert chess_club]
           (VStr "Chess Club") chess_club "participants"
           (VStr "x@mergington.edu")
           [VStr "michael@mergington.edu"; VStr "daniel@mergington.edu"]);
    reflexivity.
Defined.

(** X17: [update_one] is not all-or-nothing.  When [$push] is not a
    mapping the call raises [AttributeError] and the store is as it was.
    When [$push] is a mapping and [$pull] is not, the call raises
    [AttributeError] as well, but the pushes have been made: the stored
    document has the pushed value at the end of its list. *)
Theorem X17_failed_update (before after : collection)
  (identifier document : value) (query update : list (string * value))
  (bad : value) :
  Forall (fun kv => _matches_query (snd kv) query = Ok false) before ->
  _matches_query document query = Ok true ->
  is_dict bad = false ->
  let self := before ++ (identifier, document) :: after in
  (dict_get "$push" update = Some bad ->
   update_one self query update = (self, Raise AttributeError)) /\
  (forall field v xs,
     dict_get "$push" update = Some (VDict [(field, v)]) ->
     dict_get "$pull" update = Some bad ->
     _get_nested_value document field = VList xs ->
     exists pushed,
       update_one self query update =
       (before ++ (identifier, pushed) :: after, Raise AttributeError) /\
       _get_nested_value pushed field = VList (xs ++ [v])).
Proof.
  intros Hb Hm Hbad self. unfold update_one. subst self.
  rewrite (update_first_hit before after identifier document query update Hb Hm).
  unfold apply_update, run_push, run_pull. split.
  - intros Hpush. rewrite Hpush.
    destruct bad; try reflexivity. discriminate.
  - intros field v xs Hpush Hpull Hget. rewrite Hpush, Hpull.
    destruct (push_step_list document 0 field v xs Hget) as (pushed & Hstep & Hread).
    exists pushed. cbn [fold_left]. rewrite Hstep.
    split; [|exact Hread].
    destruct bad; try reflexivity. discriminate.
Qed.

Lemma X17_failed_update_witness :
  update_one two_full_clubs (by_id (VStr "Chess Club")) [("$push", VInt 1)] =
  (two_full_clubs, Raise AttributeError) /\
  exists pushed,
    update_one two_full_clubs (by_id (VStr "Chess Club"))
      [("$push", VDict [("participants", VStr "x@mergington.edu")]);
       ("$pull", VNone)] =
    ([(VStr "Chess Club", pushed); (VStr "Math Club", math_club)],
     Raise AttributeError) /\
    _get_nested_value pushed "participants" =
    VList ([VStr "michael@mergington.edu"; VStr "daniel@mergington.edu"] ++
           [VStr "x@mergington.edu"]).
Proof.
  split.
  - apply (proj1 (X17_failed_update [] [(VStr "Math Club", math_club)]
                    (VStr "Chess Club") chess_club (by_id (VStr "Chess Club"))
                    [("$push", VInt 1)] (VInt 1)
                    (Forall_nil _) eq_refl eq_refl)).
    reflexivity.
  - apply (proj2 (X17_failed_update [] [(VStr "Math Club", math_club)]
                    (VStr "Chess Club") chess_club (by_id (VStr "Chess Club"))
                    [("$push", VDict [("participants", VStr "x@mergington.edu")]);
                     ("$pull", VNone)] VNone
                    (Forall_nil _) eq_refl eq_refl)
             "participants" (VStr "x@mergington.edu")
             [VStr "michael@mergington.edu"; VStr "daniel@mergington.edu"]);
      reflexivity.
Defined.

(** ** [init_database] *)

Lemma seed_activities_all (items : list (string * value)) :
  forall self,
    seed_activities self items = insert_all self (map activity_document items).
Proof.
  induction items as [|[name details] rest IH]; intros self; [reflexivity|].
  cbn [seed_activities map insert_all]. unfold activity_document at 1.
  cbn [fst snd].
  destruct (document <- with_id (VStr name) details ;; insert_one self document);
    [apply IH | reflexivity].
Qed.

Lemma seed_teachers_all (teachers : list value) :
  forall self,
    seed_teachers self teachers = insert_all self (map teacher_document teachers).
Proof.
  induction teachers as [|teacher rest IH]; intros self; [reflexivity|].
  cbn [seed_teachers map insert_all]. unfold teacher_document at 1.
  destruct (subscript teacher "username") as [username|e]; cbn [bind];
    [|reflexivity].
  destruct (document <- with_id username teacher ;; insert_one self document);
    [apply IH | reflexivity].
Qed.

Lemma store_set_nonempty {D : Type} (k : value) (d : D) (self : list (value * D)) :
  store_set k d self <> [].
Proof.
  destruct self as [|[k' d'] rest]; simpl; [discriminate|].
  destruct (py_eq k' k); discriminate.
Qed.

Lemma insert_all_nonempty (documents : list (result value)) :
  forall self self' r,
    insert_all self documents = (self', r) ->
    self <> [] \/ (documents <> [] /\ r = Ok tt) -> self' <> [].
Proof.
  induction documents as [|made rest IH]; intros self self' r Hall Hne;
    cbn [insert_all] in Hall.
  - inversion Hall; subst. destruct Hne as [H | [H _]]; congruence.
  - destruct (document <- made ;; insert_one self document) as [s1|e] eqn:Hins.
    + apply (IH s1 self' r Hall). left.
      destruct made as [document|e]; [|discriminate]. cbn [bind] in Hins.
      destruct (insert_one_ok _ _ _ Hins) as (fields & i & _ & _ & _ & ->).
      apply store_set_nonempty.
    + inversion Hall; subst. destruct Hne as [H | [_ H]]; [exact H | discriminate].
Qed.

Lemma empty_count (self : collection) :
  (Z.of_nat (List.length self) =? 0) = match self with [] => true | _ => false end.
Proof. destruct self; reflexivity. Qed.

(** [init_database] with the two tests written on the collections. *)
Lemma init_database_cases (initial_a : list (string * value))
  (initial_t : list value) (a t : collection) :
  init_database initial_a initial_t a t =
  let '(a', seeded) :=
    match a with
    | [] => insert_all a (map activity_document initial_a)
    | _ => (a, Ok tt)
    end in
  match seeded with
  | Raise e => ((a', t), Raise e)
  | Ok _ =>
      let '(t', seeded') :=
        match t with
        | [] => insert_all t (map teacher_document initial_t)
        | _ => (t, Ok tt)
        end in
      ((a', t'), seeded')
  end.
Proof.
  unfold init_database. rewrite !count_documents_all, !empty_count.
  rewrite <- seed_activities_all, <- seed_teachers_all.
  destruct a, t; reflexivity.
Qed.

Lemma insert_all_again (documents : list (result value)) (self' : collection) :
  insert_all [] documents = (self', Ok tt) ->
  match self' with
  | [] => insert_all self' documents
  | _ => (self', Ok tt)
  end = (self', Ok tt).
Proof.
  intros Hall. destruct documents as [|made rest].
  - inversion Hall; subst. reflexivity.
  - assert (Hne : self' <> []).
    { apply (insert_all_nonempty _ _ _ _ Hall). right. split; [discriminate | reflexivity]. }
    destruct self'; [congruence | reflexivity].
Qed.

(** X18: [init_database] seeds empty collections only, and once.  A
    collection that holds a document comes out as it went in; with both
    non-empty the call changes nothing and raises nothing; and a second
    call after a call that raised nothing changes nothing. *)
Theorem X18_init_database_once (initial_a : list (string * value))
  (initial_t : list value) (a t : collection) :
  (a <> [] -> fst (fst (init_database initial_a initial_t a t)) = a) /\
  (t <> [] -> snd (fst (init_database initial_a initial_t a t)) = t) /\
  (a <> [] -> t <> [] ->
   init_database initial_a initial_t a t = ((a, t), Ok tt)) /\
  (forall a' t',
     init_database initial_a initial_t a t = ((a', t'), Ok tt) ->
     init_database initial_a initial_t a' t' = ((a', t'), Ok tt)).
Proof.
  rewrite init_database_cases.
  split; [|split; [|split]].
  - intros Ha. destruct a; [congruence|]. cbn iota.
    destruct t; [destruct (insert_all [] _)|]; reflexivity.
  - intros Ht. destruct t; [congruence|].
    destruct a; [destruct (insert_all [] _) as [a' [[]|e]]|]; reflexivity.
  - intros Ha Ht. destruct a, t; congruence || reflexivity.
  - intros a' t' H. rewrite init_database_cases.
    assert (Ha : match a' with
                 | [] => insert_all a' (map activity_document initial_a)
                 | _ => (a', Ok tt)
                 end = (a', Ok tt) /\
                 match t' with
                 | [] => insert_all t' (map teacher_document initial_t)
                 | _ => (t', Ok tt)
                 end = (t', Ok tt)).
    { destruct a as [|slot a].
      - destruct (insert_all [] (map activity_document initial_a))
          as [a1 [[]|e]] eqn:Hseed; [|destruct t; discriminate].
        destruct t as [|slot t].
        + destruct (insert_all [] (map teacher_document initial_t))
            as [t1 r] eqn:Hseed'.
          inversion H; subst.
          split; apply insert_all_again; assumption.
        + inversion H; subst.
          split; [apply insert_all_again; assumption | reflexivity].
      - destruct t as [|slot' t].
        + destruct (insert_all [] (map teacher_document initial_t))
            as [t1 r] eqn:Hseed'.
          inversion H; subst.
          split; [reflexivity | apply insert_all_again; assumption].
        + inversion H; subst. split; reflexivity. }
    destruct Ha as [-> ->]. reflexivity.
Qed.

Lemma X18_init_database_once_witness :
  fst (fst (init_database initial_activities (initial_teachers sample_hash)
                          two_clubs [])) = two_clubs /\
  snd (fst (init_database initial_activities (initial_teachers sample_hash)
                          [] two_clubs)) = two_clubs /\
  init_database initial_activities (initial_teachers sample_hash)
                two_clubs two_full_clubs =
  ((two_clubs, two_full_clubs), Ok tt) /\
  init_database initial_activities (initial_teachers sample_hash)
    (fst (fst (init_database initial_activities (initial_teachers sample_hash) [] [])))
    (snd (fst (init_database initial_activities (initial_teachers sample_hash) [] []))) =
  (fst (init_database initial_activities (initial_teachers sample_hash) [] []),
   Ok tt).
Proof.
  split; [|split; [|split]].
  - apply (proj1 (X18_init_database_once initial_activities
                    (initial_teachers sample_hash) two_clubs [])).
    discriminate.
  - apply (proj1 (proj2 (X18_init_database_once initial_activities
                           (initial_teachers sample_hash) [] two_clubs))).
    discriminate.
  - apply (proj1 (proj2 (proj2 (X18_init_database_once initial_activities
                                  (initial_teachers sample_hash)
                                  two_clubs two_full_clubs))));
      discriminate.
  - apply (proj2 (proj2 (proj2 (X18_init_database_once initial_activities
                                  (initial_teachers sample_hash) [] [])))).
    reflexivity.
Defined.

(** *** What the seeding stores *)

Lemma dict_get_app {V : Type} (k : string) (d1 d2 : list (string * V)) :
  dict_get k (d1 ++ d2) =
  match dict_get k d1 with Some v => Some v | None => dict_get k d2 end.
Proof.
  induction d1 as [|[k' v] d1 IH]; simpl; [reflexivity|].
  destruct (String.eqb k' k); [reflexivity | exact IH].
Qed.

Lemma dict_assign_fresh (k : string) (v : value) (d : list (string * value)) :
  dict_get k d = None -> dict_assign k v d = d ++ [(k, v)].
Proof.
  induction d as [|[k' v'] d IH]; simpl; [reflexivity|].
  destruct (String.eqb k' k); [discriminate|].
  intros H. rewrite (IH H). reflexivity.
Qed.

Lemma fold_assign_fresh (fields : list (string * value)) :
  forall acc,
    distinct (map fst fields) = true ->
    (forall k, In k (map fst fields) -> dict_get k acc = None) ->
    fold_left (fun d kv => dict_assign (fst kv) (snd kv) d) fields acc =
    acc ++ fields.
Proof.
  induction fields as [|[k v] rest IH]; intros acc Hd Hfresh; simpl.
  - rewrite app_nil_r. reflexivity.
  - simpl in Hd. apply andb_true_iff in Hd as [Hk Hd].
    apply negb_true_iff in Hk.
    rewrite dict_assign_fresh by (apply Hfresh; left; reflexivity).
    rewrite IH; [rewrite <- app_assoc; reflexivity | exact Hd |].
    intros k' Hin. rewrite dict_get_app, (Hfresh k' (or_intror Hin)). simpl.
    destruct (String.eqb_spec k k') as [-> | Hne]; [|reflexivity].
    assert (existsb (String.eqb k') (map fst rest) = true); [|congruence].
    apply existsb_exists. exists k'. split; [exact Hin | apply String.eqb_refl].
Qed.

Lemma with_id_plain (identifier details : value) :
  plain details = true ->
  with_id identifier details =
  Ok (VDict (("_id", identifier) :: entries details)).
Proof.
  unfold plain. destruct details; try discriminate. intros H.
  apply andb_true_iff in H as [Hw Hno]. rewrite wf_dict in Hw.
  apply andb_true_iff in Hw as [Hd _]. apply negb_true_iff in Hno.
  unfold with_id. rewrite fold_assign_fresh; [reflexivity | exact Hd |].
  intros k Hin. cbn [dict_get].
  destruct (String.eqb "_id" k) eqn:E; [|reflexivity].
  apply String.eqb_eq in E. subst k.
  destruct (dict_get_key _ _ Hin) as [v Hv]. unfold dict_has in Hno.
  rewrite Hv in Hno. discriminate.
Qed.

Lemma store_set_fresh (k d : value) (self : collection) :
  py_in k (keys self) = false -> store_set k d self = self ++ [(k, d)].
Proof.
  induction self as [|[k' d'] rest IH]; simpl; [reflexivity|].
  intros H. apply orb_false_iff in H as [Hk Hin].
  rewrite Hk, (IH Hin). reflexivity.
Qed.

Lemma unique_ids_mid (ks rest : list value) (i : value) :
  unique_ids (ks ++ i :: rest) = true ->
  py_in i ks = false /\ hashable i = true.
Proof.
  induction ks as [|k ks IH]; simpl; intros Hu.
  - apply andb_true_iff in Hu as [Hu _]. apply andb_true_iff in Hu as [Hh _].
    auto.
  - apply andb_true_iff in Hu as [Hu Hrest].
    apply andb_true_iff in Hu as [_ Hnot]. apply negb_true_iff in Hnot.
    rewrite existsb_app in Hnot. apply orb_false_iff in Hnot as [_ Hnot].
    simpl in Hnot. apply orb_false_iff in Hnot as [Hki _].
    destruct (IH Hrest) as [Hin Hh]. rewrite Hki, Hin. auto.
Qed.

(** Documents with pairwise different identifiers, each new to the store,
    are appended in their order. *)
Lemma insert_all_fresh (slots : list (value * value)) :
  forall self,
    Forall (fun slot => id_of (snd slot) = Some (fst slot)) slots ->
    unique_ids (keys self ++ keys slots) = true ->
    insert_all self (map (fun slot => Ok (snd slot)) slots) =
    (self ++ slots, Ok tt).
Proof.
  induction slots as [|[i d] slots IH]; intros self Hids Hu.
  - simpl. rewrite app_nil_r. reflexivity.
  - inversion Hids as [|? ? Hid Hrest]; subst. simpl in Hid.
    cbn [keys map fst] in Hu.
    destruct (unique_ids_mid _ _ _ Hu) as [Hin Hh].
    cbn [map insert_all snd bind].
    assert (Hins : insert_one self d = Ok (self ++ [(i, d)])).
    { unfold insert_one. rewrite deepcopy_id. destruct d; try discriminate.
      simpl in Hid. rewrite Hid, Hh, store_set_fresh by exact Hin. reflexivity. }
    rewrite Hins, IH; [rewrite <- app_assoc; reflexivity | exact Hrest |].
    unfold keys. rewrite map_app, <- app_assoc. exact Hu.
Qed.

Lemma unique_strings (names : list string) :
  unique_ids (map VStr names) = distinct names.
Proof.
  induction names as [|n names IH]; [reflexivity|].
  assert (Hex : existsb (fun later => py_eq (VStr n) later) (map VStr names) =
                existsb (String.eqb n) names).
  { clear IH. induction names as [|m names IHn]; [reflexivity|].
    cbn [map existsb]. rewrite IHn. reflexivity. }
  change (unique_ids (map VStr (n :: names)))
    with (true &&
          negb (existsb (fun later => py_eq (VStr n) later) (map VStr names)) &&
          unique_ids (map VStr names)).
  rewrite Hex, IH. reflexivity.
Qed.

Lemma unique_store_get (self : collection) (k d : value) :
  unique_ids (keys self) = true -> In (k, d) self ->
  store_get k self = Some d.
Proof.
  induction self as [|[k0 d0] rest IH]; simpl; [contradiction|].
  intros Hu [Heq | Hin].
  - inversion Heq; subst. apply andb_true_iff in Hu as [Hu _].
    apply andb_true_iff in Hu as [Hh _].
    rewrite (py_eq_hashable_refl k Hh). reflexivity.
  - apply andb_true_iff in Hu as [Hu Hrest].
    apply andb_true_iff in Hu as [_ Hnot]. apply negb_true_iff in Hnot.
    destruct (py_eq k0 k) eqn:Hk; [|apply IH; assumption].
    assert (existsb (fun later => py_eq k0 later) (keys rest) = true);
      [|congruence].
    apply existsb_exists. exists k. split; [|exact Hk].
    apply (in_map fst) in Hin. exact Hin.
Qed.

Lemma seeded_activities (items : list (string * value)) :
  Forall (fun item => plain (snd item) = true) items ->
  map activity_document items =
  map (fun slot => Ok (snd slot)) (map seeded_activity items).
Proof.
  induction 1 as [|[name details] rest Hp _ IH]; [reflexivity|].
  simpl. rewrite <- IH. unfold activity_document at 1. simpl in *.
  rewrite (with_id_plain _ _ Hp). reflexivity.
Qed.

Lemma named_inv (teacher : value) :
  named teacher = true ->
  plain teacher = true /\ hashable (username_of teacher) = true /\
  subscript teacher "username" = Ok (username_of teacher).
Proof.
  unfold named. intros H. apply andb_true_iff in H as [H Hh].
  apply andb_true_iff in H as [Hp Hu]. split; [exact Hp|]. split; [exact Hh|].
  unfold plain in Hp. destruct teacher; try discriminate.
  unfold subscript, username_of, dict_has in *. simpl in *.
  destruct (dict_get "username" fields); [reflexivity | discriminate].
Qed.

Lemma seeded_teachers (teachers : list value) :
  Forall (fun teacher => named teacher = true) teachers ->
  map teacher_document teachers =
  map (fun slot => Ok (snd slot)) (map seeded_teacher teachers).
Proof.
  induction 1 as [|teacher rest Hn _ IH]; [reflexivity|].
  simpl. rewrite <- IH. unfold teacher_document at 1.
  destruct (named_inv _ Hn) as (Hp & _ & Hsub). rewrite Hsub. cbn [bind].
  rewrite (with_id_plain _ _ Hp). reflexivity.
Qed.

Lemma seeded_consistent {A : Type} (seeded : A -> value * value) (xs : list A) :
  Forall (fun x => filed (seeded x) = true) xs ->
  consistent (map seeded xs) = true.
Proof.
  induction 1 as [|x xs Hx _ IH]; [reflexivity|].
  simpl. rewrite Hx, IH. reflexivity.
Qed.

(** X19: on two empty collections [init_database] stores every entry of
    [initial_activities] under its name and every teacher under the
    username, in the order given, each document being the entry with
    [_id] put in front; nothing is raised, and each document is found
    again by its [_id].  The names are distinct, as the keys of a dict
    are; the usernames have to be, and no entry may bring an [_id] of its
    own. *)
Theorem X19_init_database_seeds (initial_a : list (string * value))
  (initial_t : list value) :
  distinct (map fst initial_a) = true ->
  Forall (fun item => plain (snd item) = true) initial_a ->
  Forall (fun teacher => named teacher = true) initial_t ->
  unique_ids (map username_of initial_t) = true ->
  let activities := map seeded_activity initial_a in
  let teachers := map seeded_teacher initial_t in
  init_database initial_a initial_t [] [] = ((activities, teachers), Ok tt) /\
  count_documents activities [] = Ok (Z.of_nat (List.length initial_a)) /\
  count_documents teachers [] = Ok (Z.of_nat (List.length initial_t)) /\
  (forall item,
     In item initial_a ->
     find_one activities (by_id (VStr (fst item))) =
     Ok (Some (snd (seeded_activity item)))) /\
  (forall teacher,
     In teacher initial_t ->
     find_one teachers (by_id (username_of teacher)) =
     Ok (Some (snd (seeded_teacher teacher)))).
Proof.
  intros Hnames Hplain Hnamed Husers activities teachers.
  assert (Hka : keys activities = map VStr (map fst initial_a)).
  { unfold activities, keys. rewrite !map_map. reflexivity. }
  assert (Hkt : keys teachers = map username_of initial_t).
  { unfold teachers, keys. rewrite map_map. reflexivity. }
  assert (Hua : unique_ids (keys activities) = true).
  { rewrite Hka, unique_strings. exact Hnames. }
  assert (Hut : unique_ids (keys teachers) = true).
  { rewrite Hkt. exact Husers. }
  split; [|split; [|split; [|split]]].
  - rewrite init_database_cases.
    rewrite (seeded_activities _ Hplain), (seeded_teachers _ Hnamed).
    rewrite insert_all_fresh; [rewrite insert_all_fresh; [reflexivity| |]| |].
    + apply Forall_forall. intros slot Hin.
      apply in_map_iff in Hin as [teacher [<- _]]. reflexivity.
    + exact Hut.
    + apply Forall_forall. intros slot Hin.
      apply in_map_iff in Hin as [item [<- _]]. reflexivity.
    + exact Hua.
  - rewrite count_documents_all. unfold activities. rewrite length_map.
    reflexivity.
  - rewrite count_documents_all. unfold teachers. rewrite length_map.
    reflexivity.
  - intros item Hin. rewrite by_id_find; [| |reflexivity].
    + rewrite (unique_store_get activities (VStr (fst item))
                 (snd (seeded_activity item)) Hua); [reflexivity|].
      apply (in_map seeded_activity) in Hin. exact Hin.
    + apply seeded_consistent. apply Forall_forall. intros [name details] _.
      unfold filed. simpl. apply String.eqb_refl.
  - intros teacher Hin.
    assert (Hh : hashable (username_of teacher) = true).
    { rewrite Forall_forall in Hnamed.
      apply (named_inv _ (Hnamed _ Hin)). }
    rewrite by_id_find; [| |exact Hh].
    + rewrite (unique_store_get teachers (username_of teacher)
                 (snd (seeded_teacher teacher)) Hut); [reflexivity|].
      apply (in_map seeded_teacher) in Hin. exact Hin.
    + apply seeded_consistent. apply Forall_forall. intros t Ht.
      rewrite Forall_forall in Hnamed.
      destruct (named_inv _ (Hnamed _ Ht)) as (_ & Hth & _).
      unfold filed. simpl. rewrite Hth, (py_eq_hashable_refl _ Hth).
      reflexivity.
Qed.

Lemma X19_init_database_seeds_witness :
  let activities := map seeded_activity initial_activities in
  let teachers := map seeded_teacher (initial_teachers sample_hash) in
  init_database initial_activities (initial_teachers sample_hash) [] [] =
  ((activities, teachers), Ok tt) /\
  count_documents activities [] = Ok (Z.of_nat (List.length initial_activities)) /\
  count_documents teachers [] =
  Ok (Z.of_nat (List.length (initial_teachers sample_hash))) /\
  (forall item,
     In item initial_activities ->
     find_one activities (by_id (VStr (fst item))) =
     Ok (Some (snd (seeded_activity item)))) /\
  (forall teacher,
     In teacher (initial_teachers sample_hash) ->
     find_one teachers (by_id (username_of teacher)) =
     Ok (Some (snd (seeded_teacher teacher)))).
Proof.
  apply (X19_init_database_seeds initial_activities (initial_teachers sample_hash)).
  - reflexivity.
  - repeat constructor.
  - repeat constructor.
  - reflexivity.
Defined.

(** ** [aggregate] and the order of the documents *)

Lemma ascending_head (a : value) (l : list value) :
  ascending (a :: l) -> Forall (fun b => py_lt a b = Ok true) l /\ ascending l.
Proof. intros H. inversion H; subst. auto. Qed.

Lemma str_lt_irrefl (a : value) : is_str a = true -> py_lt a a <> Ok true.
Proof.
  destruct a; try discriminate. intros _ H. simpl in H. injection H as H.
  rewrite ltb_irrefl in H. discriminate.
Qed.

Lemma str_lt_asym (a b : value) :
  is_str a = true -> is_str b = true ->
  py_lt a b = Ok true -> py_lt b a = Ok true -> False.
Proof.
  destruct a, b; try discriminate. intros _ _ H1 H2. simpl in *.
  injection H1 as H1. injection H2 as H2.
  pose proof (ltb_trans _ _ _ H1 H2) as H. rewrite ltb_irrefl in H.
  discriminate.
Qed.

(** Two strictly ascending lists of strings with the same items are the
    same list. *)
Lemma ascending_unique (l1 : list value) :
  forall l2,
    Forall (fun x => is_str x = true) l1 ->
    Forall (fun x => is_str x = true) l2 ->
    ascending l1 -> ascending l2 ->
    (forall x, In x l1 <-> In x l2) -> l1 = l2.
Proof.
  induction l1 as [|a l1 IH]; intros l2 Hs1 Hs2 Ha1 Ha2 Hsame.
  - destruct l2 as [|b l2]; [reflexivity|].
    exfalso. apply (proj2 (Hsame b)). left. reflexivity.
  - destruct l2 as [|b l2].
    + exfalso. apply (proj1 (Hsame a)). left. reflexivity.
    + inversion Hs1 as [|? ? Hsa Hs1']; subst.
      inversion Hs2 as [|? ? Hsb Hs2']; subst.
      destruct (ascending_head _ _ Ha1) as [Hlt1 Ha1'].
      destruct (ascending_head _ _ Ha2) as [Hlt2 Ha2'].
      rewrite Forall_forall in Hlt1, Hlt2.
      assert (Hab : a = b).
      { destruct (proj1 (Hsame a) (or_introl eq_refl)) as [Hba | Hin2];
          [symmetry; exact Hba|].
        destruct (proj2 (Hsame b) (or_introl eq_refl)) as [Hab | Hin1];
          [exact Hab|].
        exfalso. apply (str_lt_asym a b Hsa Hsb); auto. }
      subst b. f_equal. apply IH; try assumption.
      intros x. split; intros Hin.
      * destruct (proj1 (Hsame x) (or_intror Hin)) as [Hax | H]; [|exact H].
        subst x. exfalso. apply (str_lt_irrefl a Hsa). apply Hlt1. exact Hin.
      * destruct (proj2 (Hsame x) (or_intror Hin)) as [Hax | H]; [|exact H].
        subst x. exfalso. apply (str_lt_irrefl a Hsa). apply Hlt2. exact Hin.
Qed.

Lemma count_equal_In (x : value) (days : list value) :
  count_equal x days = 1%nat -> exists y, In y days /\ py_eq y x = true.
Proof.
  unfold count_equal. intros H.
  destruct (filter (fun d => py_eq d x) days) as [|y rest] eqn:Hf;
    [discriminate|].
  assert (Hin : In y (filter (fun d => py_eq d x) days))
    by (rewrite Hf; left; reflexivity).
  apply filter_In in Hin. exists y. exact Hin.
Qed.

Lemma str_eq (a b : value) :
  is_str a = true -> is_str b = true -> py_eq a b = true -> a = b.
Proof.
  destruct a, b; try discriminate. simpl. intros _ _ H.
  apply String.eqb_eq in H. congruence.
Qed.

(** X20: [aggregate] depends on the set of listed days only, not on the
    documents that list them or on their order in the store: two stores
    whose documents list strings, and the same ones, give the same run. *)
Theorem X20_aggregate_set_of_days (self self' : collection)
  (pipeline pipeline' : list value) :
  forallb days_listed (values self) = true ->
  forallb days_listed (values self') = true ->
  forallb is_str (all_days self) = true ->
  forallb is_str (all_days self') = true ->
  (forall day, In day (all_days self) <-> In day (all_days self')) ->
  aggregate self pipeline = aggregate self' pipeline'.
Proof.
  intros Hl Hl' Hs Hs' Hsame.
  rewrite forallb_forall in Hl, Hl', Hs, Hs'.
  destruct (aggregate_strings self pipeline)
    as (days & -> & Hasc & Hsub & Hsup);
    [apply Forall_forall; exact Hl | apply Forall_forall; exact Hs |].
  destruct (aggregate_strings self' pipeline')
    as (days' & -> & Hasc' & Hsub' & Hsup');
    [apply Forall_forall; exact Hl' | apply Forall_forall; exact Hs' |].
  assert (Hall : forall s ds,
            (forall d, In d ds -> In d (all_days s)) ->
            (forall x, In x (all_days s) -> count_equal x ds = 1%nat) ->
            (forall x, In x (all_days s) -> is_str x = true) ->
            forall x, In x ds <-> In x (all_days s)).
  { intros s ds Hin Hcount Hstr x. split; [apply Hin|].
    intros Hx. destruct (count_equal_In _ _ (Hcount x Hx)) as (y & Hy & Hyx).
    rewrite <- (str_eq y x); auto. }
  f_equal. f_equal. apply ascending_unique; try assumption.
  - apply Forall_forall. intros x Hx. apply Hs. apply Hsub. exact Hx.
  - apply Forall_forall. intros x Hx. apply Hs'. apply Hsub'. exact Hx.
  - intros x. rewrite (Hall self days Hsub Hsup Hs x).
    rewrite (Hall self' days' Hsub' Hsup' Hs' x). apply Hsame.
Qed.

Lemma X20_aggregate_set_of_days_witness :
  aggregate week [] = aggregate (rev week) [].
Proof.
  apply X20_aggregate_set_of_days; try reflexivity.
  intros day. vm_compute. tauto.
Defined.
